(** * Space Lanes arcade engine: a shallow embedding and its verified properties

    The JavaScript engine (Vector2D, PhysicsBody, Spaceship, Asteroid,
    Projectile, PowerUp, CollisionSystem, GameEngine) is embedded as pure
    Rocq functions over records.

    Modelling conventions
    - A JavaScript number is a real number ([R]): arithmetic is exact, and
      the non-finite values (NaN, Infinity) are outside the model.
    - The combo multiplier and the awards computed from it are the
      exception: there the source cuts a product of numbers like 0.1 to an
      integer with [Math.floor], and the rounding of the arithmetic
      decides which integer.  In [increaseCombo] and in the three awards
      that multiply by the multiplier every operation is written with its
      rounding, and so is the literal 0.1: [rnd x] is the number (the IEEE
      double) nearest to the real [x], and [rnd] itself stays
      uninterpreted.
    - A mutable object is a record value; a method that mutates [this]
      returns the new record.  A method that both mutates and returns a
      value returns a pair.
    - Timers and ages are accumulated as the source accumulates them, one
      frame at a time; what is proved about them is stated per frame, on
      the value the object holds.
    - [Math.random()] reads the next element of a stream of draws that is
      threaded through the code ([Rand]).  Draws made by the purely cosmetic
      subsystems (particles, star field, camera shake) are not modelled; a
      real run corresponds to the model run on the sub-stream of gameplay
      draws, so a statement proved for every stream covers every run.
    - [Math.pow], [Math.atan2] and [rnd] are left uninterpreted
      ([MathLib]).
    - Presentation state that never feeds back into the simulation (canvas,
      particles, star field, floating texts, flashes, camera shake, sprite,
      console output) is left out. *)

From Stdlib Require Import Reals Lra Lia ZArith List String Bool.
Import ListNotations.
Open Scope R_scope.

(** ** JavaScript numbers *)

Definition Rltb (a b : R) : bool := if Rlt_dec a b then true else false.
Definition Rleb (a b : R) : bool := if Rle_dec a b then true else false.
Definition Reqb (a b : R) : bool := if Req_dec_T a b then true else false.

Infix "<?" := Rltb (at level 70, no associativity) : R_scope.
Infix "<=?" := Rleb (at level 70, no associativity) : R_scope.
Infix "=?" := Reqb (at level 70, no associativity) : R_scope.
Notation "a >? b" := (Rltb b a) (at level 70, no associativity) : R_scope.
Notation "a >=? b" := (Rleb b a) (at level 70, no associativity) : R_scope.

(** [Math.floor], [Math.sign], and [a || d] on numbers (0 is falsy). *)
Definition Math_floor (a : R) : R := IZR (Zfloor a).
Definition Math_sign (a : R) : R :=
  if 0 <? a then 1 else if a <? 0 then -1 else 0.
Definition num_or (a d : R) : R := if a =? 0 then d else a.

(** [config.field || d] where the field may be absent. *)
Definition opt_or (o : option R) (d : R) : R :=
  match o with
  | Some a => num_or a d
  | None => d
  end.

(** [Math.trunc], and the remainder [a % b], which has the sign of [a]. *)
Definition Math_trunc (a : R) : R :=
  if 0 <=? a then Math_floor a else - Math_floor (- a).
Definition js_rem (a b : R) : R := a - b * Math_trunc (a / b).

(** Index [Math.floor(r * n)] into a list. *)
Definition floor_index (a : R) : nat := Z.to_nat (Zfloor a).

(** What stays uninterpreted: two library functions, and the rounding of
    an exact result to the nearest number. *)
Class MathLib := {
  Math_pow : R -> R -> R;
  Math_atan2 : R -> R -> R;
  rnd : R -> R
}.

(** ** Math.random as a threaded stream of draws *)

Definition Stream := nat -> R.
Definition Rand (A : Type) : Type := Stream -> A * Stream.

Definition ret {A} (a : A) : Rand A := fun s => (a, s).
Definition bind {A B} (m : Rand A) (k : A -> Rand B) : Rand B :=
  fun s => let (a, s') := m s in k a s'.
Definition random : Rand R := fun s => (s 0%nat, fun n => s (S n)).

Declare Scope rand_scope.
Delimit Scope rand_scope with rand.
Notation "x <- m ;; k" := (bind m (fun x => k))
  (at level 61, m at next level, right associativity) : rand_scope.
Notation "' p <- m ;; k" := (bind m (fun p => k))
  (at level 61, p pattern, m at next level, right associativity) : rand_scope.

(** Run [f] on each element in turn, threading the draws. *)
Fixpoint mapR {A B} (f : A -> Rand B) (l : list A) : Rand (list B) :=
  match l with
  | [] => ret []
  | a :: l' => (b <- f a ;; bs <- mapR f l' ;; ret (b :: bs))%rand
  end.

(** Every draw lies in [0, 1). *)
Definition unit_draws (s : Stream) : Prop := forall n, 0 <= s n < 1.

(** ** Vector2D *)

Module Vector2D.

Record t := mk { x : R; y : R }.

Definition clone (v : t) : t := mk (x v) (y v).
Definition add (v w : t) : t := mk (x v + x w) (y v + y w).
Definition subtract (v w : t) : t := mk (x v - x w) (y v - y w).
Definition multiply (v : t) (scalar : R) : t := mk (x v * scalar) (y v * scalar).
Definition divide (v : t) (scalar : R) : t :=
  if scalar =? 0 then v else mk (x v / scalar) (y v / scalar).
Definition magnitude (v : t) : R := sqrt (x v * x v + y v * y v).
Definition magnitudeSquared (v : t) : R := x v * x v + y v * y v.
Definition normalize (v : t) : t :=
  let mag := magnitude v in
  if mag >? 0 then divide v mag else v.
Definition limit (v : t) (max : R) : t :=
  let magSq := magnitudeSquared v in
  if magSq >? max * max then multiply (normalize v) max else v.
Definition setMagnitude (v : t) (mag : R) : t := multiply (normalize v) mag.
Definition angle `{MathLib} (v : t) : R := Math_atan2 (y v) (x v).
Definition dot (v w : t) : R := x v * x w + y v * y w.
Definition distanceTo (v w : t) : R :=
  let dx := x v - x w in
  let dy := y v - y w in
  sqrt (dx * dx + dy * dy).
Definition distanceSquaredTo (v w : t) : R :=
  let dx := x v - x w in
  let dy := y v - y w in
  dx * dx + dy * dy.
Definition set (_ : t) (x0 y0 : R) : t := mk x0 y0.
Definition set_x (v : t) (x0 : R) : t := mk x0 (y v).
Definition set_y (v : t) (y0 : R) : t := mk (x v) y0.
Definition distance (v w : t) : R := distanceTo v w.
Definition fromAngle (a magnitude : R) : t :=
  mk (cos a * magnitude) (sin a * magnitude).
Definition zero : t := mk 0 0.

Definition rotate (v : t) (angle : R) : t :=
  let c := cos angle in
  let s := sin angle in
  mk (x v * c - y v * s) (x v * s + y v * c).
Definition lerp (v vector : t) (k : R) : t :=
  mk (x v + (x vector - x v) * k) (y v + (y vector - y v) * k).

End Vector2D.

Abbreviation Vec := Vector2D.t.

(** ** PhysicsBody *)

Module PhysicsBody.

Record t := mk {
  position : Vec;
  velocity : Vec;
  acceleration : Vec;
  force : Vec;
  mass : R;
  inverseMass : R;
  angle : R;
  angularVelocity : R;
  angularAcceleration : R;
  torque : R;
  linearDamping : R;
  angularDamping : R;
  restitution : R;
  friction : R;
  isStatic : bool;
  affectedByGravity : bool
}.

Definition new (x y mass : R) : t :=
  {| position := Vector2D.mk x y;
     velocity := Vector2D.mk 0 0;
     acceleration := Vector2D.mk 0 0;
     force := Vector2D.mk 0 0;
     mass := mass;
     inverseMass := if mass >? 0 then 1 / mass else 0;
     angle := 0;
     angularVelocity := 0;
     angularAcceleration := 0;
     torque := 0;
     linearDamping := 0.999;
     angularDamping := 0.995;
     restitution := 0.8;
     friction := 0.3;
     isStatic := false;
     affectedByGravity := true |}.

Definition set_position (b : t) (p : Vec) : t :=
  mk p (velocity b) (acceleration b) (force b) (mass b) (inverseMass b)
     (angle b) (angularVelocity b) (angularAcceleration b) (torque b)
     (linearDamping b) (angularDamping b) (restitution b) (friction b)
     (isStatic b) (affectedByGravity b).
Definition set_velocity (b : t) (v : Vec) : t :=
  mk (position b) v (acceleration b) (force b) (mass b) (inverseMass b)
     (angle b) (angularVelocity b) (angularAcceleration b) (torque b)
     (linearDamping b) (angularDamping b) (restitution b) (friction b)
     (isStatic b) (affectedByGravity b).
Definition set_acceleration (b : t) (a : Vec) : t :=
  mk (position b) (velocity b) a (force b) (mass b) (inverseMass b)
     (angle b) (angularVelocity b) (angularAcceleration b) (torque b)
     (linearDamping b) (angularDamping b) (restitution b) (friction b)
     (isStatic b) (affectedByGravity b).
Definition set_force (b : t) (f : Vec) : t :=
  mk (position b) (velocity b) (acceleration b) f (mass b) (inverseMass b)
     (angle b) (angularVelocity b) (angularAcceleration b) (torque b)
     (linearDamping b) (angularDamping b) (restitution b) (friction b)
     (isStatic b) (affectedByGravity b).
Definition set_angle (b : t) (a : R) : t :=
  mk (position b) (velocity b) (acceleration b) (force b) (mass b)
     (inverseMass b) a (angularVelocity b) (angularAcceleration b) (torque b)
     (linearDamping b) (angularDamping b) (restitution b) (friction b)
     (isStatic b) (affectedByGravity b).
Definition set_angularVelocity (b : t) (w : R) : t :=
  mk (position b) (velocity b) (acceleration b) (force b) (mass b)
     (inverseMass b) (angle b) w (angularAcceleration b) (torque b)
     (linearDamping b) (angularDamping b) (restitution b) (friction b)
     (isStatic b) (affectedByGravity b).
Definition set_angularAcceleration (b : t) (a : R) : t :=
  mk (position b) (velocity b) (acceleration b) (force b) (mass b)
     (inverseMass b) (angle b) (angularVelocity b) a (torque b)
     (linearDamping b) (angularDamping b) (restitution b) (friction b)
     (isStatic b) (affectedByGravity b).
Definition set_torque (b : t) (q : R) : t :=
  mk (position b) (velocity b) (acceleration b) (force b) (mass b)
     (inverseMass b) (angle b) (angularVelocity b) (angularAcceleration b) q
     (linearDamping b) (angularDamping b) (restitution b) (friction b)
     (isStatic b) (affectedByGravity b).
Definition set_isStatic (b : t) (s : bool) : t :=
  mk (position b) (velocity b) (acceleration b) (force b) (mass b)
     (inverseMass b) (angle b) (angularVelocity b) (angularAcceleration b)
     (torque b) (linearDamping b) (angularDamping b) (restitution b)
     (friction b) s (affectedByGravity b).

Definition applyForce (b : t) (f : Vec) : t :=
  if isStatic b then b else set_force b (Vector2D.add (force b) f).

Definition applyImpulse (b : t) (impulse : Vec) : t :=
  if isStatic b then b
  else
    let deltaV := Vector2D.multiply impulse (inverseMass b) in
    set_velocity b (Vector2D.add (velocity b) deltaV).

Definition applyForceAtPoint (b : t) (f point : Vec) : t :=
  if isStatic b then b
  else
    let b1 := applyForce b f in
    let r := Vector2D.subtract point (position b1) in
    let crossProduct :=
      Vector2D.x r * Vector2D.y f - Vector2D.y r * Vector2D.x f in
    set_torque b1 (torque b1 + crossProduct).

Definition applyThrust (b : t) (direction : Vec) (magnitude : R) : t :=
  let thrust := Vector2D.setMagnitude (Vector2D.clone direction) magnitude in
  applyForce b thrust.

Section WithMath.
Context `{MathLib}.

(** Semi-implicit Euler step, statement by statement. *)
Definition update (b : t) (deltaTime : R) : t :=
  if isStatic b then b
  else
    let b := set_acceleration b (Vector2D.multiply (force b) (inverseMass b)) in
    let deltaV := Vector2D.multiply (acceleration b) deltaTime in
    let b := set_velocity b (Vector2D.add (velocity b) deltaV) in
    let b := set_velocity b
               (Vector2D.multiply (velocity b)
                  (Math_pow (linearDamping b) (deltaTime * 60))) in
    let deltaP := Vector2D.multiply (velocity b) deltaTime in
    let b := set_position b (Vector2D.add (position b) deltaP) in
    let b := set_angularAcceleration b (torque b * inverseMass b) in
    let b := set_angularVelocity b
               (angularVelocity b + angularAcceleration b * deltaTime) in
    let b := set_angularVelocity b
               (angularVelocity b
                * Math_pow (angularDamping b) (deltaTime * 60)) in
    let b := set_angle b (angle b + angularVelocity b * deltaTime) in
    let b := set_force b (Vector2D.set (force b) 0 0) in
    set_torque b 0.

Definition lookAt (b : t) (target : Vec) : t :=
  let direction := Vector2D.subtract target (position b) in
  set_angle b (Vector2D.angle direction).

End WithMath.

Definition getMomentum (b : t) : Vec := Vector2D.multiply (velocity b) (mass b).
Definition setVelocity (b : t) (x y : R) : t :=
  set_velocity b (Vector2D.set (velocity b) x y).
Definition limitVelocity (b : t) (maxSpeed : R) : t :=
  set_velocity b (Vector2D.limit (velocity b) maxSpeed).
Definition getForwardVector (b : t) : Vec :=
  Vector2D.mk (cos (angle b)) (sin (angle b)).
Definition getRightVector (b : t) : Vec :=
  Vector2D.mk (cos (angle b + PI / 2)) (sin (angle b + PI / 2)).

Definition getKineticEnergy (b : t) : R :=
  let speedSquared := Vector2D.magnitudeSquared (velocity b) in
  0.5 * mass b * speedSquared.

Definition stop (b : t) : t :=
  mk (position b) (Vector2D.set (velocity b) 0 0)
     (Vector2D.set (acceleration b) 0 0) (Vector2D.set (force b) 0 0)
     (mass b) (inverseMass b) (angle b) 0 0 0
     (linearDamping b) (angularDamping b) (restitution b) (friction b)
     (isStatic b) (affectedByGravity b).

Definition isMoving (b : t) : bool :=
  Vector2D.magnitude (velocity b) >? 0.01.
Definition getSpeed (b : t) : R := Vector2D.magnitude (velocity b).
Definition getDirection (b : t) : Vec :=
  Vector2D.normalize (Vector2D.clone (velocity b)).

(** The two [while] loops of [rotateTowards] that bring the angle
    difference into [-PI, PI], run for at most [fuel] rounds each. *)
Fixpoint wrapAbove (fuel : nat) (angleDiff : R) : R :=
  match fuel with
  | O => angleDiff
  | S fuel' =>
      if angleDiff >? PI then wrapAbove fuel' (angleDiff - PI * 2)
      else angleDiff
  end.

Fixpoint wrapBelow (fuel : nat) (angleDiff : R) : R :=
  match fuel with
  | O => angleDiff
  | S fuel' =>
      if angleDiff <? - PI then wrapBelow fuel' (angleDiff + PI * 2)
      else angleDiff
  end.

(** Each round moves the difference by a full turn, so one round more
    than the number of full turns in it is enough. *)
Definition turns (angleDiff : R) : nat :=
  S (Z.to_nat (Zfloor (Rabs angleDiff / (PI * 2)))).

Definition rotateTowards (b : t) (targetAngle rotationSpeed deltaTime : R)
  : t :=
  let angleDiff := targetAngle - angle b in
  let fuel := turns angleDiff in
  let angleDiff := wrapAbove fuel angleDiff in
  let angleDiff := wrapBelow fuel angleDiff in
  let maxRotation := rotationSpeed * deltaTime in
  let b :=
    if Rabs angleDiff <? maxRotation then set_angle b targetAngle
    else set_angle b (angle b + Math_sign angleDiff * maxRotation) in
  set_angle b (js_rem (angle b) (PI * 2)).

End PhysicsBody.

Abbreviation Body := PhysicsBody.t.

(** ** Spaceship *)

Module Spaceship.

Record Shield := mkShield {
  active : bool;
  strength : R;
  maxStrength : R;
  regenRate : R;
  depletionRate : R;
  powerUpActive : bool;
  powerUpTimer : R
}.

Record Weapons := mkWeapons {
  cooldown : R;
  fireRate : R;
  projectileSpeed : R
}.

Record TrailPoint := mkTrail {
  trail_position : Vec;
  alpha : R;
  size : R
}.

(** The constructor's [config] object: every field may be absent. *)
Record Config := mkConfig {
  cfg_mass : option R;
  cfg_width : option R;
  cfg_height : option R;
  cfg_thrustPower : option R;
  cfg_lateralThrustPower : option R;
  cfg_rotationSpeed : option R;
  cfg_maxSpeed : option R;
  cfg_brakePower : option R;
  cfg_health : option R
}.

Record t := mk {
  body : Body;
  width : R;
  height : R;
  thrustPower : R;
  lateralThrustPower : R;
  rotationSpeed : R;
  maxSpeed : R;
  brakePower : R;
  isThrusting : bool;
  isBraking : bool;
  strafingDirection : R;
  rotationDirection : R;
  shield : Shield;
  weapons : Weapons;
  health : R;
  maxHealth : R;
  invulnerable : bool;
  invulnerabilityTimer : R;
  trail : list TrailPoint;
  maxTrailLength : nat;
  trailTimer : R
}.

Definition new (x y : R) (config : Config) : t :=
  {| body := PhysicsBody.new x y (opt_or (cfg_mass config) 1.5);
     width := opt_or (cfg_width config) 40;
     height := opt_or (cfg_height config) 50;
     thrustPower := opt_or (cfg_thrustPower config) 800;
     lateralThrustPower := opt_or (cfg_lateralThrustPower config) 600;
     rotationSpeed := opt_or (cfg_rotationSpeed config) 5;
     maxSpeed := opt_or (cfg_maxSpeed config) 600;
     brakePower := opt_or (cfg_brakePower config) 0.95;
     isThrusting := false;
     isBraking := false;
     strafingDirection := 0;
     rotationDirection := 0;
     shield := mkShield false 100 100 10 30 false 0;
     weapons := mkWeapons 0 0.2 800;
     health := opt_or (cfg_health config) 100;
     maxHealth := opt_or (cfg_health config) 100;
     invulnerable := false;
     invulnerabilityTimer := 0;
     trail := [];
     maxTrailLength := 20;
     trailTimer := 0 |}.

Definition shield_set_active (s : Shield) (a : bool) : Shield :=
  mkShield a (strength s) (maxStrength s) (regenRate s) (depletionRate s)
           (powerUpActive s) (powerUpTimer s).
Definition shield_set_strength (s : Shield) (v : R) : Shield :=
  mkShield (active s) v (maxStrength s) (regenRate s) (depletionRate s)
           (powerUpActive s) (powerUpTimer s).
Definition shield_set_maxStrength (s : Shield) (v : R) : Shield :=
  mkShield (active s) (strength s) v (regenRate s) (depletionRate s)
           (powerUpActive s) (powerUpTimer s).
Definition shield_set_powerUpActive (s : Shield) (a : bool) : Shield :=
  mkShield (active s) (strength s) (maxStrength s) (regenRate s)
           (depletionRate s) a (powerUpTimer s).
Definition shield_set_powerUpTimer (s : Shield) (v : R) : Shield :=
  mkShield (active s) (strength s) (maxStrength s) (regenRate s)
           (depletionRate s) (powerUpActive s) v.

Definition set_body (s : t) (b : Body) : t :=
  mk b (width s) (height s) (thrustPower s) (lateralThrustPower s)
     (rotationSpeed s) (maxSpeed s) (brakePower s) (isThrusting s)
     (isBraking s) (strafingDirection s) (rotationDirection s) (shield s)
     (weapons s) (health s) (maxHealth s) (invulnerable s)
     (invulnerabilityTimer s) (trail s) (maxTrailLength s) (trailTimer s).
Definition set_maxSpeed (s : t) (v : R) : t :=
  mk (body s) (width s) (height s) (thrustPower s) (lateralThrustPower s)
     (rotationSpeed s) v (brakePower s) (isThrusting s)
     (isBraking s) (strafingDirection s) (rotationDirection s) (shield s)
     (weapons s) (health s) (maxHealth s) (invulnerable s)
     (invulnerabilityTimer s) (trail s) (maxTrailLength s) (trailTimer s).
Definition set_frame (s : t) (thr brk : bool) (strafe rot : R) : t :=
  mk (body s) (width s) (height s) (thrustPower s) (lateralThrustPower s)
     (rotationSpeed s) (maxSpeed s) (brakePower s) thr brk strafe rot
     (shield s) (weapons s) (health s) (maxHealth s) (invulnerable s)
     (invulnerabilityTimer s) (trail s) (maxTrailLength s) (trailTimer s).
Definition set_shield (s : t) (sh : Shield) : t :=
  mk (body s) (width s) (height s) (thrustPower s) (lateralThrustPower s)
     (rotationSpeed s) (maxSpeed s) (brakePower s) (isThrusting s)
     (isBraking s) (strafingDirection s) (rotationDirection s) sh
     (weapons s) (health s) (maxHealth s) (invulnerable s)
     (invulnerabilityTimer s) (trail s) (maxTrailLength s) (trailTimer s).
Definition set_weapons (s : t) (w : Weapons) : t :=
  mk (body s) (width s) (height s) (thrustPower s) (lateralThrustPower s)
     (rotationSpeed s) (maxSpeed s) (brakePower s) (isThrusting s)
     (isBraking s) (strafingDirection s) (rotationDirection s) (shield s)
     w (health s) (maxHealth s) (invulnerable s)
     (invulnerabilityTimer s) (trail s) (maxTrailLength s) (trailTimer s).
Definition set_health (s : t) (h : R) : t :=
  mk (body s) (width s) (height s) (thrustPower s) (lateralThrustPower s)
     (rotationSpeed s) (maxSpeed s) (brakePower s) (isThrusting s)
     (isBraking s) (strafingDirection s) (rotationDirection s) (shield s)
     (weapons s) h (maxHealth s) (invulnerable s)
     (invulnerabilityTimer s) (trail s) (maxTrailLength s) (trailTimer s).
Definition set_maxHealth (s : t) (h : R) : t :=
  mk (body s) (width s) (height s) (thrustPower s) (lateralThrustPower s)
     (rotationSpeed s) (maxSpeed s) (brakePower s) (isThrusting s)
     (isBraking s) (strafingDirection s) (rotationDirection s) (shield s)
     (weapons s) (health s) h (invulnerable s)
     (invulnerabilityTimer s) (trail s) (maxTrailLength s) (trailTimer s).
Definition set_invulnerable (s : t) (i : bool) (timer : R) : t :=
  mk (body s) (width s) (height s) (thrustPower s) (lateralThrustPower s)
     (rotationSpeed s) (maxSpeed s) (brakePower s) (isThrusting s)
     (isBraking s) (strafingDirection s) (rotationDirection s) (shield s)
     (weapons s) (health s) (maxHealth s) i timer (trail s)
     (maxTrailLength s) (trailTimer s).
Definition set_trail (s : t) (tr : list TrailPoint) (timer : R) : t :=
  mk (body s) (width s) (height s) (thrustPower s) (lateralThrustPower s)
     (rotationSpeed s) (maxSpeed s) (brakePower s) (isThrusting s)
     (isBraking s) (strafingDirection s) (rotationDirection s) (shield s)
     (weapons s) (health s) (maxHealth s) (invulnerable s)
     (invulnerabilityTimer s) tr (maxTrailLength s) timer.

Definition thrust (s : t) (deltaTime : R) : t :=
  let s := set_frame s true (isBraking s) (strafingDirection s)
                     (rotationDirection s) in
  let forward := PhysicsBody.getForwardVector (body s) in
  let th := Vector2D.multiply forward (thrustPower s * deltaTime) in
  set_body s (PhysicsBody.applyForce (body s) th).

Definition brake (s : t) (deltaTime : R) : t :=
  let s := set_frame s (isThrusting s) true (strafingDirection s)
                     (rotationDirection s) in
  if Vector2D.magnitude (PhysicsBody.velocity (body s)) >? 0.1 then
    let brakeForce :=
      Vector2D.multiply
        (Vector2D.normalize (Vector2D.clone (PhysicsBody.velocity (body s))))
        (- thrustPower s * brakePower s * deltaTime) in
    set_body s (PhysicsBody.applyForce (body s) brakeForce)
  else s.

Definition strafe (s : t) (direction deltaTime : R) : t :=
  let s := set_frame s (isThrusting s) (isBraking s) direction
                     (rotationDirection s) in
  let right := PhysicsBody.getRightVector (body s) in
  let th :=
    Vector2D.multiply right (direction * lateralThrustPower s * deltaTime) in
  set_body s (PhysicsBody.applyForce (body s) th).

Definition rotate (s : t) (direction deltaTime : R) : t :=
  let s := set_frame s (isThrusting s) (isBraking s) (strafingDirection s)
                     direction in
  set_body s
    (PhysicsBody.set_angularVelocity (body s)
       (PhysicsBody.angularVelocity (body s)
        + direction * rotationSpeed s * deltaTime)).

Definition activateShield (s : t) : t :=
  if strength (shield s) >? 0
  then set_shield s (shield_set_active (shield s) true)
  else s.

Definition deactivateShield (s : t) : t :=
  set_shield s (shield_set_active (shield s) false).

Definition toggleShield (s : t) : t :=
  if active (shield s) then deactivateShield s else activateShield s.

(** What [fire] hands back to the engine. *)
Record ProjectileData := mkProjectileData {
  pd_position : Vec;
  pd_velocity : Vec;
  pd_angle : R;
  pd_damage : R
}.

Definition fire (s : t) : t * option ProjectileData :=
  if cooldown (weapons s) >? 0 then (s, None)
  else
    let w := weapons s in
    let s := set_weapons s (mkWeapons (fireRate w) (fireRate w)
                                      (projectileSpeed w)) in
    let upwardDirection := Vector2D.mk 0 (-1) in
    let spawnOffset := Vector2D.multiply upwardDirection (height s / 2) in
    let spawnPos := Vector2D.add (PhysicsBody.position (body s)) spawnOffset in
    let projectileVelocity :=
      Vector2D.multiply upwardDirection (projectileSpeed (weapons s)) in
    (s, Some (mkProjectileData spawnPos projectileVelocity (- PI / 2) 25)).

(** [takeDamage(amount)]: the new ship and the returned "destroyed" flag. *)
Definition takeDamage (s : t) (amount : R) : t * bool :=
  if invulnerable s then (s, false)
  else if active (shield s) && (strength (shield s) >? 0) then
    let sh := shield_set_strength (shield s)
                (Rmax 0 (strength (shield s) - amount)) in
    let sh := if strength sh =? 0 then shield_set_active sh false else sh in
    (set_shield s sh, false)
  else
    let s := set_health s (Rmax 0 (health s - amount)) in
    let s := set_invulnerable s true 1.0 in
    (s, health s <=? 0).

Definition heal (s : t) (amount : R) : t :=
  set_health s (Rmin (maxHealth s) (health s + amount)).

Definition isDestroyed (s : t) : bool := health s <=? 0.

(** [reset(x, y)]; the invulnerability timer and the trail timer are left
    as they are. *)
Definition reset (s : t) (x y : R) : t :=
  let b := body s in
  let b := PhysicsBody.set_position b
             (Vector2D.set (PhysicsBody.position b) x y) in
  let b := PhysicsBody.set_velocity b
             (Vector2D.set (PhysicsBody.velocity b) 0 0) in
  let b := PhysicsBody.set_acceleration b
             (Vector2D.set (PhysicsBody.acceleration b) 0 0) in
  let b := PhysicsBody.set_angle b (- PI / 2) in
  let b := PhysicsBody.set_angularVelocity b 0 in
  let s := set_body s b in
  let s := set_health s (maxHealth s) in
  let sh := shield_set_strength (shield s) (maxStrength (shield s)) in
  let s := set_shield s (shield_set_active sh false) in
  let s := set_invulnerable s false (invulnerabilityTimer s) in
  set_trail s [] (trailTimer s).

(** [trail.shift()] drops the oldest sample. *)
Definition shift {A} (l : list A) : list A := tl l.

(** The blocks of [update], in the order the method runs them. *)

(** Timed shield charge. *)
Definition updatePowerUp (s : t) (deltaTime : R) : t :=
  if powerUpActive (shield s) then
    let timer := powerUpTimer (shield s) - deltaTime in
    let sh := shield_set_powerUpTimer (shield s) timer in
    if timer <=? 0 then
      deactivateShield (set_shield s (shield_set_powerUpActive sh false))
    else set_shield s sh
  else s.

(** Depletion while the shield is active, regeneration otherwise. *)
Definition updateShield (s : t) (deltaTime : R) : t :=
  let sh := shield s in
  if active sh then
    let st := Rmax 0 (strength sh - depletionRate sh * deltaTime) in
    let sh := shield_set_strength sh st in
    set_shield s (if st =? 0 then shield_set_active sh false else sh)
  else if strength sh <? maxStrength sh then
    set_shield s
      (shield_set_strength sh
         (Rmin (maxStrength sh) (strength sh + regenRate sh * deltaTime)))
  else s.

(** Weapon cooldown. *)
Definition updateCooldown (s : t) (deltaTime : R) : t :=
  let w := weapons s in
  if cooldown w >? 0 then
    set_weapons s
      (mkWeapons (Rmax 0 (cooldown w - deltaTime)) (fireRate w)
                 (projectileSpeed w))
  else s.

(** Invulnerability window. *)
Definition updateInvulnerability (s : t) (deltaTime : R) : t :=
  if invulnerable s then
    let timer := Rmax 0 (invulnerabilityTimer s - deltaTime) in
    set_invulnerable s (if timer =? 0 then false else true) timer
  else s.

(** Trail samples: a new one when due, then the fade. *)
Definition updateTrail (s : t) (deltaTime : R) : t :=
  let timer := trailTimer s + deltaTime in
  let '(tr, timer) :=
    if (timer >? 0.02)
       && (Vector2D.magnitude (PhysicsBody.velocity (body s)) >? 10) then
      let tr := trail s ++ [mkTrail
                              (Vector2D.clone (PhysicsBody.position (body s)))
                              1.0 (width s * 0.5)] in
      (if (maxTrailLength s <? List.length tr)%nat then shift tr else tr, 0)
    else (trail s, timer) in
  let faded :=
    map (fun p => mkTrail (trail_position p) (alpha p * 0.95) (size p)) tr in
  set_trail s (filter (fun p => alpha p >? 0.05) faded) timer.

Section WithMath.
Context `{MathLib}.

Definition update (s : t) (deltaTime : R) : t :=
  (* physics, then the speed cap *)
  let s := set_body s (PhysicsBody.update (body s) deltaTime) in
  let s := set_body s (PhysicsBody.limitVelocity (body s) (maxSpeed s)) in
  let s := updatePowerUp s deltaTime in
  let s := updateShield s deltaTime in
  let s := updateCooldown s deltaTime in
  let s := updateInvulnerability s deltaTime in
  let s := updateTrail s deltaTime in
  (* per-frame flags *)
  set_frame s false false 0 0.

End WithMath.

End Spaceship.

Abbreviation Ship := Spaceship.t.

(** ** Asteroid *)

Module Asteroid.

Inductive Size := small | medium | large | huge.

Definition Size_eqb (a b : Size) : bool :=
  match a, b with
  | small, small | medium, medium | large, large | huge, huge => true
  | _, _ => false
  end.

Definition massMap (s : Size) : R :=
  match s with small => 0.5 | medium => 1.0 | large => 2.0 | huge => 4.0 end.

Definition sizeMap (s : Size) : R :=
  match s with small => 20 | medium => 35 | large => 50 | huge => 70 end.

Record Crack := mkCrack {
  crack_angle : R;
  crack_length : R;
  crack_offset : R
}.

Record t := mk {
  body : Body;
  size : Size;
  radius : R;
  health : R;
  maxHealth : R;
  color : string;
  vertices : list Vec;
  crackPattern : list Crack;
  damage : R;
  maxDamage : R;
  id : R;            (* the draw behind [Math.random().toString(36)] *)
  isBoss : bool;     (* absent (falsy) unless the engine sets it *)
  scoreValue : option R
}.

Definition set_body (a : t) (b : Body) : t :=
  mk b (size a) (radius a) (health a) (maxHealth a) (color a) (vertices a)
     (crackPattern a) (damage a) (maxDamage a) (id a) (isBoss a)
     (scoreValue a).
Definition set_radius (a : t) (r : R) : t :=
  mk (body a) (size a) r (health a) (maxHealth a) (color a) (vertices a)
     (crackPattern a) (damage a) (maxDamage a) (id a) (isBoss a)
     (scoreValue a).
Definition set_health (a : t) (h : R) : t :=
  mk (body a) (size a) (radius a) h (maxHealth a) (color a) (vertices a)
     (crackPattern a) (damage a) (maxDamage a) (id a) (isBoss a)
     (scoreValue a).
Definition set_maxHealth (a : t) (h : R) : t :=
  mk (body a) (size a) (radius a) (health a) h (color a) (vertices a)
     (crackPattern a) (damage a) (maxDamage a) (id a) (isBoss a)
     (scoreValue a).
Definition set_color (a : t) (c : string) : t :=
  mk (body a) (size a) (radius a) (health a) (maxHealth a) c (vertices a)
     (crackPattern a) (damage a) (maxDamage a) (id a) (isBoss a)
     (scoreValue a).
Definition set_crackPattern (a : t) (c : list Crack) : t :=
  mk (body a) (size a) (radius a) (health a) (maxHealth a) (color a)
     (vertices a) c (damage a) (maxDamage a) (id a) (isBoss a)
     (scoreValue a).
Definition set_damage (a : t) (d : R) : t :=
  mk (body a) (size a) (radius a) (health a) (maxHealth a) (color a)
     (vertices a) (crackPattern a) d (maxDamage a) (id a) (isBoss a)
     (scoreValue a).
Definition set_isBoss (a : t) (b : bool) : t :=
  mk (body a) (size a) (radius a) (health a) (maxHealth a) (color a)
     (vertices a) (crackPattern a) (damage a) (maxDamage a) (id a) b
     (scoreValue a).
Definition set_scoreValue (a : t) (v : option R) : t :=
  mk (body a) (size a) (radius a) (health a) (maxHealth a) (color a)
     (vertices a) (crackPattern a) (damage a) (maxDamage a) (id a)
     (isBoss a) v.

Definition colors : list string :=
  ["rgba(180, 150, 140, 0.9)"; "rgba(160, 130, 120, 0.9)";
   "rgba(200, 170, 160, 0.9)"; "rgba(140, 110, 100, 0.9)";
   "rgba(220, 190, 180, 0.9)"]%string.

Definition getRandomColor : Rand string :=
  (r <- random ;;
   ret (nth (floor_index (r * INR (List.length colors))) colors
            EmptyString))%rand.

Definition generateShape (radius : R) : Rand (list Vec) :=
  (r <- random ;;
   let segments := (8 + Zfloor (r * 4))%Z in
   mapR (fun i =>
           let angle := (PI * 2 * INR i) / IZR segments in
           v <- random ;;
           let variance := 0.7 + v * 0.3 in
           let distance := radius * variance in
           ret (Vector2D.mk (cos angle * distance) (sin angle * distance)))
        (seq 0 (Z.to_nat segments)))%rand.

Definition new (x y : R) (size : Size) (velocity : option Vec) : Rand t :=
  (let b := PhysicsBody.new x y (num_or (massMap size) 1.0) in
   let radius := num_or (sizeMap size) 35 in
   let b := match velocity with
            | Some v => PhysicsBody.set_velocity b (Vector2D.clone v)
            | None => b
            end in
   r <- random ;;
   let b := PhysicsBody.set_angularVelocity b ((r - 0.5) * 2) in
   color <- getRandomColor ;;
   vertices <- generateShape radius ;;
   i <- random ;;
   ret {| body := b; size := size; radius := radius; health := radius;
          maxHealth := radius; color := color; vertices := vertices;
          crackPattern := []; damage := 0; maxDamage := 100; id := i;
          isBoss := false; scoreValue := None |})%rand.

(** [takeDamage(amount)]: the new asteroid and the "destroyed" flag. *)
Definition takeDamage (a : t) (amount : R) : Rand (t * bool) :=
  (let a := set_health a (health a - amount) in
   let a := set_damage a (Rmin (maxDamage a) (damage a + amount)) in
   r <- random ;;
   a <- (if r <? 0.5 then
           r1 <- random ;;
           let angle := r1 * PI * 2 in
           r2 <- random ;;
           let length := radius a * (0.3 + r2 * 0.4) in
           r3 <- random ;;
           ret (set_crackPattern a
                  (crackPattern a
                   ++ [mkCrack angle length ((r3 - 0.5) * radius a * 0.5)]))
         else ret a) ;;
   ret (a, health a <=? 0))%rand.

Definition sizeHierarchy : list Size := [huge; large; medium; small].

(** [Array.prototype.indexOf]; every size class is in the hierarchy. *)
Fixpoint indexOf (l : list Size) (s : Size) : nat :=
  match l with
  | [] => 0
  | h :: l' => if Size_eqb h s then 0%nat else S (indexOf l' s)
  end.

(** One fragment of [split], for loop index [i] out of [count]. *)
Definition fragment (a : t) (newSize : Size) (count : Z) (i : nat) : Rand t :=
  (r <- random ;;
   let angle := (PI * 2 * INR i) / IZR count + (r - 0.5) in
   r' <- random ;;
   let speed := 50 + r' * 100 in
   let velocity := Vector2D.fromAngle angle speed in
   let velocity := Vector2D.add velocity (PhysicsBody.velocity (body a)) in
   let offset := Vector2D.fromAngle angle (radius a * 0.5) in
   let position := Vector2D.add (PhysicsBody.position (body a)) offset in
   new (Vector2D.x position) (Vector2D.y position) newSize (Some velocity)
  )%rand.

Definition split (a : t) : Rand (list t) :=
  let currentIndex := indexOf sizeHierarchy (size a) in
  if (currentIndex <? List.length sizeHierarchy - 1)%nat then
    match nth_error sizeHierarchy (currentIndex + 1) with
    | Some newSize =>
        (r <- random ;;
         let count := (2 + Zfloor (r * 2))%Z in
         mapR (fragment a newSize count) (seq 0 (Z.to_nat count)))%rand
    | None => ret []
    end
  else ret [].

Definition update `{MathLib} (a : t) (deltaTime : R) : t :=
  set_body a (PhysicsBody.update (body a) deltaTime).

Definition isDestroyed (a : t) : bool := health a <=? 0.

End Asteroid.

(** ** Projectile *)

Module Projectile.

Record t := mk {
  body : Body;
  damage : R;
  color : string;
  lifetime : R;
  age : R;
  length : R;
  width : R;
  height : option R;       (* set by the engine for some weapons *)
  homing : bool;           (* absent (falsy) unless the engine sets it *)
  homingStrength : R;
  id : R
}.

Definition set_body (p : t) (b : Body) : t :=
  mk b (damage p) (color p) (lifetime p) (age p) (length p) (width p)
     (height p) (homing p) (homingStrength p) (id p).
Definition set_color (p : t) (c : string) : t :=
  mk (body p) (damage p) c (lifetime p) (age p) (length p) (width p)
     (height p) (homing p) (homingStrength p) (id p).
Definition set_age (p : t) (a : R) : t :=
  mk (body p) (damage p) (color p) (lifetime p) a (length p) (width p)
     (height p) (homing p) (homingStrength p) (id p).
Definition set_dims (p : t) (w h : R) : t :=
  mk (body p) (damage p) (color p) (lifetime p) (age p) (length p) w
     (Some h) (homing p) (homingStrength p) (id p).
Definition set_homing (p : t) (h : bool) (k : R) : t :=
  mk (body p) (damage p) (color p) (lifetime p) (age p) (length p) (width p)
     (height p) h k (id p).

Definition new (position velocity : Vec) (angle damage : R) (color : string)
  : Rand t :=
  (let b := PhysicsBody.new (Vector2D.x position) (Vector2D.y position) 0.1 in
   let b := PhysicsBody.set_velocity b (Vector2D.clone velocity) in
   let b := PhysicsBody.set_angle b angle in
   let b := PhysicsBody.set_isStatic b false in
   i <- random ;;
   ret {| body := b; damage := damage; color := color; lifetime := 3.0;
          age := 0; length := 20; width := 3; height := None;
          homing := false; homingStrength := 0; id := i |})%rand.

Definition update `{MathLib} (p : t) (deltaTime : R) : t :=
  let p := set_body p (PhysicsBody.update (body p) deltaTime) in
  set_age p (age p + deltaTime).

Definition isExpired (p : t) : bool := age p >=? lifetime p.

End Projectile.

(** ** PowerUp *)

Module PowerUp.

Inductive Kind := health | shield | weapon | speed.

Record t := mk {
  body : Body;
  type : Kind;
  radius : R;
  age : R;
  lifetime : R;
  collected : bool;
  pulsePhase : R;
  id : R
}.

Definition set_body (p : t) (b : Body) : t :=
  mk b (type p) (radius p) (age p) (lifetime p) (collected p) (pulsePhase p)
     (id p).

Definition new (x y : R) (type : Kind) : Rand t :=
  (r <- random ;;
   i <- random ;;
   ret {| body := PhysicsBody.new x y 0.5; type := type; radius := 15;
          age := 0; lifetime := 10.0; collected := false;
          pulsePhase := r * PI * 2; id := i |})%rand.

Definition update `{MathLib} (p : t) (deltaTime : R) : t :=
  mk (PhysicsBody.update (body p) deltaTime) (type p) (radius p)
     (age p + deltaTime) (lifetime p) (collected p)
     (pulsePhase p + deltaTime * 3) (id p).

Definition isExpired (p : t) : bool :=
  (age p >=? lifetime p) || collected p.

Definition collect (p : t) : t :=
  mk (body p) (type p) (radius p) (age p) (lifetime p) true (pulsePhase p)
     (id p).

End PowerUp.

(** ** CollisionSystem (the static helpers of the physics layer) *)

Module CollisionSystem.

(** The helpers read [obj.position] only, so they take the two bodies. *)
Definition checkCircleCollision (obj1 obj2 : Body) (radius1 radius2 : R)
  : bool :=
  let distSquared :=
    Vector2D.distanceSquaredTo (PhysicsBody.position obj1)
                               (PhysicsBody.position obj2) in
  let radiusSum := radius1 + radius2 in
  distSquared <? radiusSum * radiusSum.

(** [resolveCollision(obj1, obj2, restitution)]: both bodies afterwards. *)
Definition resolveCollision (obj1 obj2 : Body) (restitution : R)
  : Body * Body :=
  let normal :=
    Vector2D.normalize
      (Vector2D.subtract (PhysicsBody.position obj2)
                         (PhysicsBody.position obj1)) in
  let relativeVelocity :=
    Vector2D.subtract (PhysicsBody.velocity obj2)
                      (PhysicsBody.velocity obj1) in
  let velocityAlongNormal := Vector2D.dot relativeVelocity normal in
  if velocityAlongNormal >? 0 then (obj1, obj2)
  else
    let e := Rmin (PhysicsBody.restitution obj1)
                  (PhysicsBody.restitution obj2) * restitution in
    let j := - (1 + e) * velocityAlongNormal in
    let j := j / (PhysicsBody.inverseMass obj1
                  + PhysicsBody.inverseMass obj2) in
    let impulse := Vector2D.multiply normal j in
    let obj1' :=
      if negb (PhysicsBody.isStatic obj1) then
        let impulse1 :=
          Vector2D.multiply impulse (- PhysicsBody.inverseMass obj1) in
        PhysicsBody.set_velocity obj1
          (Vector2D.add (PhysicsBody.velocity obj1) impulse1)
      else obj1 in
    let obj2' :=
      if negb (PhysicsBody.isStatic obj2) then
        let impulse2 :=
          Vector2D.multiply impulse (PhysicsBody.inverseMass obj2) in
        PhysicsBody.set_velocity obj2
          (Vector2D.add (PhysicsBody.velocity obj2) impulse2)
      else obj2 in
    (obj1', obj2').

Definition bounceOffBounds (body : Body)
    (width height boundsWidth boundsHeight restitution : R) : Body :=
  let halfW := width / 2 in
  let halfH := height / 2 in
  let px b := Vector2D.x (PhysicsBody.position b) in
  let py b := Vector2D.y (PhysicsBody.position b) in
  let vx b := Vector2D.x (PhysicsBody.velocity b) in
  let vy b := Vector2D.y (PhysicsBody.velocity b) in
  let setpx b v :=
    PhysicsBody.set_position b (Vector2D.set_x (PhysicsBody.position b) v) in
  let setpy b v :=
    PhysicsBody.set_position b (Vector2D.set_y (PhysicsBody.position b) v) in
  let setvx b v :=
    PhysicsBody.set_velocity b (Vector2D.set_x (PhysicsBody.velocity b) v) in
  let setvy b v :=
    PhysicsBody.set_velocity b (Vector2D.set_y (PhysicsBody.velocity b) v) in
  let body :=
    if px body - halfW <? 0 then
      setvx (setpx body halfW) (Rabs (vx body) * restitution)
    else if px body + halfW >? boundsWidth then
      setvx (setpx body (boundsWidth - halfW)) (- Rabs (vx body) * restitution)
    else body in
  if py body - halfH <? 0 then
    setvy (setpy body halfH) (Rabs (vy body) * restitution)
  else if py body + halfH >? boundsHeight then
    setvy (setpy body (boundsHeight - halfH)) (- Rabs (vy body) * restitution)
  else body.

Definition checkAABBCollision (obj1 obj2 : Body)
    (width1 height1 width2 height2 : R) : bool :=
  (Rabs (Vector2D.x (PhysicsBody.position obj1)
         - Vector2D.x (PhysicsBody.position obj2))
   <? (width1 + width2) / 2)
  && (Rabs (Vector2D.y (PhysicsBody.position obj1)
            - Vector2D.y (PhysicsBody.position obj2))
      <? (height1 + height2) / 2).

Definition pointInCircle (point circle : Vec) (radius : R) : bool :=
  Vector2D.distanceSquaredTo point circle <? radius * radius.

Definition pointInRect (point rect : Vec) (width height : R) : bool :=
  (Vector2D.x point >=? Vector2D.x rect - width / 2)
  && (Vector2D.x point <=? Vector2D.x rect + width / 2)
  && (Vector2D.y point >=? Vector2D.y rect - height / 2)
  && (Vector2D.y point <=? Vector2D.y rect + height / 2).

(** [separateObjects(obj1, obj2, radius1, radius2)]: both bodies
    afterwards. *)
Definition separateObjects (obj1 obj2 : Body) (radius1 radius2 : R)
  : Body * Body :=
  let normal :=
    Vector2D.subtract (PhysicsBody.position obj2)
                      (PhysicsBody.position obj1) in
  let distance := Vector2D.magnitude normal in
  let overlap := radius1 + radius2 - distance in
  if (overlap >? 0) && (distance >? 0) then
    let normal := Vector2D.normalize normal in
    let separation := Vector2D.multiply normal (overlap / 2) in
    let obj1' :=
      if negb (PhysicsBody.isStatic obj1) then
        PhysicsBody.set_position obj1
          (Vector2D.subtract (PhysicsBody.position obj1) separation)
      else obj1 in
    let obj2' :=
      if negb (PhysicsBody.isStatic obj2) then
        PhysicsBody.set_position obj2
          (Vector2D.add (PhysicsBody.position obj2) separation)
      else obj2 in
    (obj1', obj2')
  else (obj1, obj2).

(** What [lineCircleIntersection] returns when it is not [null]. *)
Record Hit := mkHit {
  point : Vec;
  t : R
}.

(** For a segment of length zero [a] is 0 and so are [b] and the
    numerators: [t1] and [t2] are [0 / 0], which is NaN and fails both
    range tests, so the result is [null]. *)
Definition lineCircleIntersection (lineStart lineEnd circlePos : Vec)
    (radius : R) : option Hit :=
  let line := Vector2D.subtract lineEnd lineStart in
  let circleToStart := Vector2D.subtract lineStart circlePos in
  let a := Vector2D.dot line line in
  let b := 2 * Vector2D.dot circleToStart line in
  let c := Vector2D.dot circleToStart circleToStart - radius * radius in
  let discriminant := b * b - 4 * a * c in
  if discriminant <? 0 then None
  else if a =? 0 then None
  else
    let t1 := (- b - sqrt discriminant) / (2 * a) in
    let t2 := (- b + sqrt discriminant) / (2 * a) in
    if ((t1 >=? 0) && (t1 <=? 1)) || ((t2 >=? 0) && (t2 <=? 1)) then
      let t := if (t1 >=? 0) && (t1 <=? 1) then t1 else t2 in
      let intersection :=
        Vector2D.add lineStart (Vector2D.multiply line t) in
      Some (mkHit intersection t)
    else None.

Definition isInBounds (position : Vec)
    (width height boundsWidth boundsHeight : R) : bool :=
  (Vector2D.x position >=? width / 2)
  && (Vector2D.x position <=? boundsWidth - width / 2)
  && (Vector2D.y position >=? height / 2)
  && (Vector2D.y position <=? boundsHeight - height / 2).

Definition wrapAround (position : Vec)
    (width height boundsWidth boundsHeight : R) : Vec :=
  let p := position in
  let p := if Vector2D.x p <? - width / 2
           then Vector2D.set_x p (boundsWidth + width / 2) else p in
  let p := if Vector2D.x p >? boundsWidth + width / 2
           then Vector2D.set_x p (- width / 2) else p in
  let p := if Vector2D.y p <? - height / 2
           then Vector2D.set_y p (boundsHeight + height / 2) else p in
  if Vector2D.y p >? boundsHeight + height / 2
  then Vector2D.set_y p (- height / 2) else p.

End CollisionSystem.

(** ** GameEngine *)

Module GameEngine.

Inductive State := menu | playing | paused | gameover.

Definition State_eqb (a b : State) : bool :=
  match a, b with
  | menu, menu | playing, playing | paused, paused | gameover, gameover =>
      true
  | _, _ => false
  end.

(** [config.mode]: the code only ever compares it with ['lane-shooter'];
    every other value takes the space-sim branches. *)
Inductive Mode := lane_shooter | space_sim.

Inductive WeaponKind := default | laser | missile | shotgun.

Record WeaponSpec := mkWeaponSpec {
  w_damage : R;
  w_fireRate : R;
  w_projectileSpeed : R;
  w_color : string;
  w_spread : nat;     (* only read for the shotgun *)
  w_duration : R      (* only read for the three special weapons *)
}.

(** [weaponSystem.weapons]: a constant table. *)
Definition weapons (k : WeaponKind) : WeaponSpec :=
  match k with
  | default => mkWeaponSpec 10 0.2 800 "#00f0ff" 0 0
  | laser => mkWeaponSpec 5 0.05 1000 "#ff00ff" 0 15
  | missile => mkWeaponSpec 30 0.5 600 "#ff6600" 0 20
  | shotgun => mkWeaponSpec 8 0.4 700 "#ffff00" 3 18
  end.

Record Mouse := mkMouse { mouse_x : R; mouse_y : R; down : bool }.

Record LaneMovement := mkLaneMovement {
  targetVelocityX : R;
  inputX : R;
  lastInputTime : R
}.

Record ComboSystem := mkCombo {
  count : nat;
  timer : R;
  maxTime : R;
  multiplier : R;
  maxMultiplier : R
}.

(** [boss] is a reference to the boss asteroid that the engine never
    dereferences; it is represented by that asteroid's id. *)
Record BossSystem := mkBoss {
  active : bool;
  boss : option R;
  phase : nat;
  maxPhases : nat
}.

Record WeaponSystem := mkWeaponSystem {
  currentWeapon : WeaponKind;
  activeWeaponTimer : R
}.

Inductive Upgrade := u_damage | u_fireRate | u_health | u_speed | u_shield.

Record Upgrades := mkUpgrades {
  damage : nat;
  fireRate : nat;
  health : nat;
  speed : nat;
  shield : nat
}.

Record UpgradeSystem := mkUpgradeSystem {
  level : nat;
  experience : R;
  experienceToNext : R;
  skillPoints : nat;
  upgrades : Upgrades
}.

Inductive HazardKind := blackhole | nebula | meteor_shower.

Record Hazard := mkHazard {
  h_type : HazardKind;
  h_position : Vec;
  h_velocity : option Vec;
  h_radius : R;
  h_strength : R;
  h_duration : R;
  h_timer : R;
  h_active : bool;
  h_telegraph : bool;        (* absent (falsy) in space-sim hazards *)
  h_telegraphTimer : R;
  h_spawnTimer : R;          (* meteor showers only *)
  h_spawnRate : R
}.

Record Config := mkConfig {
  mode : Mode;
  asteroidSpawnRate : R;
  asteroidSpawnIncrease : R;
  powerUpChance : R;
  maxAsteroids : R;
  scrollSpeed : R;
  difficultyMultiplier : R;
  bossWaveInterval : Z;
  fixedPlayerY : option R;
  maxSpeedX : R;
  accelX : R;
  decelX : R;
  frictionX : R;
  laneCount : nat;
  lanePadding : R
}.

Definition cfg_set_asteroidSpawnRate (c : Config) (v : R) : Config :=
  mkConfig (mode c) v (asteroidSpawnIncrease c) (powerUpChance c)
     (maxAsteroids c) (scrollSpeed c) (difficultyMultiplier c)
     (bossWaveInterval c) (fixedPlayerY c) (maxSpeedX c) (accelX c)
     (decelX c) (frictionX c) (laneCount c) (lanePadding c).
Definition cfg_set_maxAsteroids (c : Config) (v : R) : Config :=
  mkConfig (mode c) (asteroidSpawnRate c) (asteroidSpawnIncrease c)
     (powerUpChance c) v (scrollSpeed c) (difficultyMultiplier c)
     (bossWaveInterval c) (fixedPlayerY c) (maxSpeedX c) (accelX c)
     (decelX c) (frictionX c) (laneCount c) (lanePadding c).
Definition cfg_set_difficultyMultiplier (c : Config) (v : R) : Config :=
  mkConfig (mode c) (asteroidSpawnRate c) (asteroidSpawnIncrease c)
     (powerUpChance c) (maxAsteroids c) (scrollSpeed c) v
     (bossWaveInterval c) (fixedPlayerY c) (maxSpeedX c) (accelX c)
     (decelX c) (frictionX c) (laneCount c) (lanePadding c).
Definition cfg_set_fixedPlayerY (c : Config) (v : option R) : Config :=
  mkConfig (mode c) (asteroidSpawnRate c) (asteroidSpawnIncrease c)
     (powerUpChance c) (maxAsteroids c) (scrollSpeed c)
     (difficultyMultiplier c) (bossWaveInterval c) v (maxSpeedX c) (accelX
     c) (decelX c) (frictionX c) (laneCount c) (lanePadding c).
Definition cfg_set_maxSpeedX (c : Config) (v : R) : Config :=
  mkConfig (mode c) (asteroidSpawnRate c) (asteroidSpawnIncrease c)
     (powerUpChance c) (maxAsteroids c) (scrollSpeed c)
     (difficultyMultiplier c) (bossWaveInterval c) (fixedPlayerY c) v
     (accelX c) (decelX c) (frictionX c) (laneCount c) (lanePadding c).

(** The engine.  [timeouts] is the queue of chain-reaction callbacks that
    [setTimeout] has scheduled and that have not fired yet.  The derived
    [lanes] array is only read for a log message and is left out. *)
Record t := mk {
  width : R;
  height : R;
  state : State;
  score : R;
  wave : Z;
  kills : nat;
  time : R;
  player : Ship;
  asteroids : list Asteroid.t;
  projectiles : list Projectile.t;
  powerUps : list PowerUp.t;
  keys : string -> bool;
  mouse : Mouse;
  config : Config;
  laneMovement : LaneMovement;
  asteroidSpawnTimer : R;
  waveTimer : R;
  waveInterval : R;
  comboSystem : ComboSystem;
  bossSystem : BossSystem;
  weaponSystem : WeaponSystem;
  upgradeSystem : UpgradeSystem;
  hazards : list Hazard;
  hazardSpawnTimer : R;
  hazardSpawnInterval : R;
  timeouts : list (Vec * R)
}.

Definition set_width (e : t) (v : R) : t :=
  mk v (height e) (state e) (score e) (wave e) (kills e) (time e) (player
     e) (asteroids e) (projectiles e) (powerUps e) (keys e) (mouse e)
     (config e) (laneMovement e) (asteroidSpawnTimer e) (waveTimer e)
     (waveInterval e) (comboSystem e) (bossSystem e) (weaponSystem e)
     (upgradeSystem e) (hazards e) (hazardSpawnTimer e)
     (hazardSpawnInterval e) (timeouts e).
Definition set_height (e : t) (v : R) : t :=
  mk (width e) v (state e) (score e) (wave e) (kills e) (time e) (player
     e) (asteroids e) (projectiles e) (powerUps e) (keys e) (mouse e)
     (config e) (laneMovement e) (asteroidSpawnTimer e) (waveTimer e)
     (waveInterval e) (comboSystem e) (bossSystem e) (weaponSystem e)
     (upgradeSystem e) (hazards e) (hazardSpawnTimer e)
     (hazardSpawnInterval e) (timeouts e).
Definition set_state (e : t) (v : State) : t :=
  mk (width e) (height e) v (score e) (wave e) (kills e) (time e) (player
     e) (asteroids e) (projectiles e) (powerUps e) (keys e) (mouse e)
     (config e) (laneMovement e) (asteroidSpawnTimer e) (waveTimer e)
     (waveInterval e) (comboSystem e) (bossSystem e) (weaponSystem e)
     (upgradeSystem e) (hazards e) (hazardSpawnTimer e)
     (hazardSpawnInterval e) (timeouts e).
Definition set_score (e : t) (v : R) : t :=
  mk (width e) (height e) (state e) v (wave e) (kills e) (time e) (player
     e) (asteroids e) (projectiles e) (powerUps e) (keys e) (mouse e)
     (config e) (laneMovement e) (asteroidSpawnTimer e) (waveTimer e)
     (waveInterval e) (comboSystem e) (bossSystem e) (weaponSystem e)
     (upgradeSystem e) (hazards e) (hazardSpawnTimer e)
     (hazardSpawnInterval e) (timeouts e).
Definition set_wave (e : t) (v : Z) : t :=
  mk (width e) (height e) (state e) (score e) v (kills e) (time e) (player
     e) (asteroids e) (projectiles e) (powerUps e) (keys e) (mouse e)
     (config e) (laneMovement e) (asteroidSpawnTimer e) (waveTimer e)
     (waveInterval e) (comboSystem e) (bossSystem e) (weaponSystem e)
     (upgradeSystem e) (hazards e) (hazardSpawnTimer e)
     (hazardSpawnInterval e) (timeouts e).
Definition set_kills (e : t) (v : nat) : t :=
  mk (width e) (height e) (state e) (score e) (wave e) v (time e) (player
     e) (asteroids e) (projectiles e) (powerUps e) (keys e) (mouse e)
     (config e) (laneMovement e) (asteroidSpawnTimer e) (waveTimer e)
     (waveInterval e) (comboSystem e) (bossSystem e) (weaponSystem e)
     (upgradeSystem e) (hazards e) (hazardSpawnTimer e)
     (hazardSpawnInterval e) (timeouts e).
Definition set_time (e : t) (v : R) : t :=
  mk (width e) (height e) (state e) (score e) (wave e) (kills e) v (player
     e) (asteroids e) (projectiles e) (powerUps e) (keys e) (mouse e)
     (config e) (laneMovement e) (asteroidSpawnTimer e) (waveTimer e)
     (waveInterval e) (comboSystem e) (bossSystem e) (weaponSystem e)
     (upgradeSystem e) (hazards e) (hazardSpawnTimer e)
     (hazardSpawnInterval e) (timeouts e).
Definition set_player (e : t) (v : Ship) : t :=
  mk (width e) (height e) (state e) (score e) (wave e) (kills e) (time e)
     v (asteroids e) (projectiles e) (powerUps e) (keys e) (mouse e)
     (config e) (laneMovement e) (asteroidSpawnTimer e) (waveTimer e)
     (waveInterval e) (comboSystem e) (bossSystem e) (weaponSystem e)
     (upgradeSystem e) (hazards e) (hazardSpawnTimer e)
     (hazardSpawnInterval e) (timeouts e).
Definition set_asteroids (e : t) (v : list Asteroid.t) : t :=
  mk (width e) (height e) (state e) (score e) (wave e) (kills e) (time e)
     (player e) v (projectiles e) (powerUps e) (keys e) (mouse e) (config
     e) (laneMovement e) (asteroidSpawnTimer e) (waveTimer e)
     (waveInterval e) (comboSystem e) (bossSystem e) (weaponSystem e)
     (upgradeSystem e) (hazards e) (hazardSpawnTimer e)
     (hazardSpawnInterval e) (timeouts e).
Definition set_projectiles (e : t) (v : list Projectile.t) : t :=
  mk (width e) (height e) (state e) (score e) (wave e) (kills e) (time e)
     (player e) (asteroids e) v (powerUps e) (keys e) (mouse e) (config e)
     (laneMovement e) (asteroidSpawnTimer e) (waveTimer e) (waveInterval
     e) (comboSystem e) (bossSystem e) (weaponSystem e) (upgradeSystem e)
     (hazards e) (hazardSpawnTimer e) (hazardSpawnInterval e) (timeouts e).
Definition set_powerUps (e : t) (v : list PowerUp.t) : t :=
  mk (width e) (height e) (state e) (score e) (wave e) (kills e) (time e)
     (player e) (asteroids e) (projectiles e) v (keys e) (mouse e) (config
     e) (laneMovement e) (asteroidSpawnTimer e) (waveTimer e)
     (waveInterval e) (comboSystem e) (bossSystem e) (weaponSystem e)
     (upgradeSystem e) (hazards e) (hazardSpawnTimer e)
     (hazardSpawnInterval e) (timeouts e).
Definition set_keys (e : t) (v : string -> bool) : t :=
  mk (width e) (height e) (state e) (score e) (wave e) (kills e) (time e)
     (player e) (asteroids e) (projectiles e) (powerUps e) v (mouse e)
     (config e) (laneMovement e) (asteroidSpawnTimer e) (waveTimer e)
     (waveInterval e) (comboSystem e) (bossSystem e) (weaponSystem e)
     (upgradeSystem e) (hazards e) (hazardSpawnTimer e)
     (hazardSpawnInterval e) (timeouts e).
Definition set_mouse (e : t) (v : Mouse) : t :=
  mk (width e) (height e) (state e) (score e) (wave e) (kills e) (time e)
     (player e) (asteroids e) (projectiles e) (powerUps e) (keys e) v
     (config e) (laneMovement e) (asteroidSpawnTimer e) (waveTimer e)
     (waveInterval e) (comboSystem e) (bossSystem e) (weaponSystem e)
     (upgradeSystem e) (hazards e) (hazardSpawnTimer e)
     (hazardSpawnInterval e) (timeouts e).
Definition set_config (e : t) (v : Config) : t :=
  mk (width e) (height e) (state e) (score e) (wave e) (kills e) (time e)
     (player e) (asteroids e) (projectiles e) (powerUps e) (keys e) (mouse
     e) v (laneMovement e) (asteroidSpawnTimer e) (waveTimer e)
     (waveInterval e) (comboSystem e) (bossSystem e) (weaponSystem e)
     (upgradeSystem e) (hazards e) (hazardSpawnTimer e)
     (hazardSpawnInterval e) (timeouts e).
Definition set_laneMovement (e : t) (v : LaneMovement) : t :=
  mk (width e) (height e) (state e) (score e) (wave e) (kills e) (time e)
     (player e) (asteroids e) (projectiles e) (powerUps e) (keys e) (mouse
     e) (config e) v (asteroidSpawnTimer e) (waveTimer e) (waveInterval e)
     (comboSystem e) (bossSystem e) (weaponSystem e) (upgradeSystem e)
     (hazards e) (hazardSpawnTimer e) (hazardSpawnInterval e) (timeouts e).
Definition set_asteroidSpawnTimer (e : t) (v : R) : t :=
  mk (width e) (height e) (state e) (score e) (wave e) (kills e) (time e)
     (player e) (asteroids e) (projectiles e) (powerUps e) (keys e) (mouse
     e) (config e) (laneMovement e) v (waveTimer e) (waveInterval e)
     (comboSystem e) (bossSystem e) (weaponSystem e) (upgradeSystem e)
     (hazards e) (hazardSpawnTimer e) (hazardSpawnInterval e) (timeouts e).
Definition set_waveTimer (e : t) (v : R) : t :=
  mk (width e) (height e) (state e) (score e) (wave e) (kills e) (time e)
     (player e) (asteroids e) (projectiles e) (powerUps e) (keys e) (mouse
     e) (config e) (laneMovement e) (asteroidSpawnTimer e) v (waveInterval
     e) (comboSystem e) (bossSystem e) (weaponSystem e) (upgradeSystem e)
     (hazards e) (hazardSpawnTimer e) (hazardSpawnInterval e) (timeouts e).
Definition set_comboSystem (e : t) (v : ComboSystem) : t :=
  mk (width e) (height e) (state e) (score e) (wave e) (kills e) (time e)
     (player e) (asteroids e) (projectiles e) (powerUps e) (keys e) (mouse
     e) (config e) (laneMovement e) (asteroidSpawnTimer e) (waveTimer e)
     (waveInterval e) v (bossSystem e) (weaponSystem e) (upgradeSystem e)
     (hazards e) (hazardSpawnTimer e) (hazardSpawnInterval e) (timeouts e).
Definition set_bossSystem (e : t) (v : BossSystem) : t :=
  mk (width e) (height e) (state e) (score e) (wave e) (kills e) (time e)
     (player e) (asteroids e) (projectiles e) (powerUps e) (keys e) (mouse
     e) (config e) (laneMovement e) (asteroidSpawnTimer e) (waveTimer e)
     (waveInterval e) (comboSystem e) v (weaponSystem e) (upgradeSystem e)
     (hazards e) (hazardSpawnTimer e) (hazardSpawnInterval e) (timeouts e).
Definition set_weaponSystem (e : t) (v : WeaponSystem) : t :=
  mk (width e) (height e) (state e) (score e) (wave e) (kills e) (time e)
     (player e) (asteroids e) (projectiles e) (powerUps e) (keys e) (mouse
     e) (config e) (laneMovement e) (asteroidSpawnTimer e) (waveTimer e)
     (waveInterval e) (comboSystem e) (bossSystem e) v (upgradeSystem e)
     (hazards e) (hazardSpawnTimer e) (hazardSpawnInterval e) (timeouts e).
Definition set_upgradeSystem (e : t) (v : UpgradeSystem) : t :=
  mk (width e) (height e) (state e) (score e) (wave e) (kills e) (time e)
     (player e) (asteroids e) (projectiles e) (powerUps e) (keys e) (mouse
     e) (config e) (laneMovement e) (asteroidSpawnTimer e) (waveTimer e)
     (waveInterval e) (comboSystem e) (bossSystem e) (weaponSystem e) v
     (hazards e) (hazardSpawnTimer e) (hazardSpawnInterval e) (timeouts e).
Definition set_hazards (e : t) (v : list Hazard) : t :=
  mk (width e) (height e) (state e) (score e) (wave e) (kills e) (time e)
     (player e) (asteroids e) (projectiles e) (powerUps e) (keys e) (mouse
     e) (config e) (laneMovement e) (asteroidSpawnTimer e) (waveTimer e)
     (waveInterval e) (comboSystem e) (bossSystem e) (weaponSystem e)
     (upgradeSystem e) v (hazardSpawnTimer e) (hazardSpawnInterval e)
     (timeouts e).
Definition set_hazardSpawnTimer (e : t) (v : R) : t :=
  mk (width e) (height e) (state e) (score e) (wave e) (kills e) (time e)
     (player e) (asteroids e) (projectiles e) (powerUps e) (keys e) (mouse
     e) (config e) (laneMovement e) (asteroidSpawnTimer e) (waveTimer e)
     (waveInterval e) (comboSystem e) (bossSystem e) (weaponSystem e)
     (upgradeSystem e) (hazards e) v (hazardSpawnInterval e) (timeouts e).
Definition set_timeouts (e : t) (v : list (Vec * R)) : t :=
  mk (width e) (height e) (state e) (score e) (wave e) (kills e) (time e)
     (player e) (asteroids e) (projectiles e) (powerUps e) (keys e) (mouse
     e) (config e) (laneMovement e) (asteroidSpawnTimer e) (waveTimer e)
     (waveInterval e) (comboSystem e) (bossSystem e) (weaponSystem e)
     (upgradeSystem e) (hazards e) (hazardSpawnTimer e)
     (hazardSpawnInterval e) v.

Definition defaultConfig : Config :=
  {| mode := lane_shooter;
     asteroidSpawnRate := 2.0;
     asteroidSpawnIncrease := 0.85;
     powerUpChance := 0.15;
     maxAsteroids := 20;
     scrollSpeed := 50;
     difficultyMultiplier := 1.0;
     bossWaveInterval := 5;
     fixedPlayerY := None;
     maxSpeedX := 450;
     accelX := 2800;
     decelX := 2000;
     frictionX := 0.92;
     laneCount := 3;
     lanePadding := 120 |}.

Definition setupPlayer (e : t) : t :=
  set_player e
    (Spaceship.new (width e / 2) (height e - 100)
       {| Spaceship.cfg_mass := Some 1.5;
          Spaceship.cfg_width := Some 40;
          Spaceship.cfg_height := Some 50;
          Spaceship.cfg_thrustPower := Some 800;
          Spaceship.cfg_lateralThrustPower := Some 600;
          Spaceship.cfg_rotationSpeed := None;
          Spaceship.cfg_maxSpeed := Some 500;
          Spaceship.cfg_brakePower := None;
          Spaceship.cfg_health := Some 100 |}).

(** The constructor, for a canvas of the given size and the merged
    configuration. *)
Definition new (width height : R) (config : Config) : t :=
  setupPlayer
    {| width := width; height := height; state := menu; score := 0;
       wave := 1; kills := 0; time := 0;
       player := Spaceship.new 0 0
                   (Spaceship.mkConfig None None None None None None None
                                       None None);
       asteroids := []; projectiles := []; powerUps := [];
       keys := fun _ => false;
       mouse := mkMouse 0 0 false;
       config := config;
       laneMovement := mkLaneMovement 0 0 0;
       asteroidSpawnTimer := 0; waveTimer := 0; waveInterval := 30;
       comboSystem := mkCombo 0 0 3.0 1.0 8.0;
       bossSystem := mkBoss false None 1 3;
       weaponSystem := mkWeaponSystem default 0;
       upgradeSystem := mkUpgradeSystem 1 0 100 0 (mkUpgrades 0 0 0 0 0);
       hazards := []; hazardSpawnTimer := 0; hazardSpawnInterval := 15;
       timeouts := [] |}.

(** *** Player state helpers *)

Definition player_pos (e : t) : Vec :=
  PhysicsBody.position (Spaceship.body (player e)).
Definition player_vel (e : t) : Vec :=
  PhysicsBody.velocity (Spaceship.body (player e)).
Definition ship_set_pos (s : Ship) (p : Vec) : Ship :=
  Spaceship.set_body s (PhysicsBody.set_position (Spaceship.body s) p).
Definition ship_set_vel (s : Ship) (v : Vec) : Ship :=
  Spaceship.set_body s (PhysicsBody.set_velocity (Spaceship.body s) v).
Definition ship_pos (s : Ship) : Vec := PhysicsBody.position (Spaceship.body s).
Definition ship_vel (s : Ship) : Vec := PhysicsBody.velocity (Spaceship.body s).

(** *** Combo *)

Definition increaseCombo `{MathLib} (e : t) : t :=
  let c := comboSystem e in
  let c := mkCombo (S (count c)) 0 (maxTime c) (multiplier c)
                   (maxMultiplier c) in
  let c := mkCombo (count c) (timer c) (maxTime c)
                   (Rmin (rnd (1.0 + rnd (INR (count c) * rnd 0.1)))
                         (maxMultiplier c))
                   (maxMultiplier c) in
  set_comboSystem e c.

Definition resetCombo (e : t) : t :=
  let e :=
    if (10 <=? count (comboSystem e))%nat
    then set_score e (score e + Math_floor (INR (count (comboSystem e)) * 50))
    else e in
  let c := comboSystem e in
  set_comboSystem e (mkCombo 0 0 (maxTime c) 1.0 (maxMultiplier c)).

(** *** Experience *)

Definition upgradeNames : list Upgrade :=
  [u_damage; u_fireRate; u_health; u_speed; u_shield].

Definition bump (u : Upgrades) (k : Upgrade) : Upgrades :=
  match k with
  | u_damage => mkUpgrades (S (damage u)) (fireRate u) (health u) (speed u)
                           (shield u)
  | u_fireRate => mkUpgrades (damage u) (S (fireRate u)) (health u) (speed u)
                             (shield u)
  | u_health => mkUpgrades (damage u) (fireRate u) (S (health u)) (speed u)
                           (shield u)
  | u_speed => mkUpgrades (damage u) (fireRate u) (health u) (S (speed u))
                          (shield u)
  | u_shield => mkUpgrades (damage u) (fireRate u) (health u) (speed u)
                           (S (shield u))
  end.

Definition us_set_upgrades (u : UpgradeSystem) (v : Upgrades)
  : UpgradeSystem :=
  mkUpgradeSystem (level u) (experience u) (experienceToNext u)
                  (skillPoints u) v.

(** An index outside the list names no upgrade: nothing is applied. *)
Definition autoUpgrade (e : t) : Rand t :=
  (r <- random ;;
   match nth_error upgradeNames
                   (floor_index (r * INR (List.length upgradeNames))) with
   | None => ret e
   | Some randomUpgrade =>
       let us := upgradeSystem e in
       let e := set_upgradeSystem e
                  (us_set_upgrades us (bump (upgrades us) randomUpgrade)) in
       let p := player e in
       ret match randomUpgrade with
           | u_health =>
               let p := Spaceship.set_maxHealth p
                          (Spaceship.maxHealth p + 10) in
               set_player e (Spaceship.heal p 10)
           | u_speed =>
               set_player e
                 (Spaceship.set_maxSpeed p (Spaceship.maxSpeed p + 20))
           | u_shield =>
               set_player e
                 (Spaceship.set_shield p
                    (Spaceship.shield_set_maxStrength (Spaceship.shield p)
                       (Spaceship.maxStrength (Spaceship.shield p) + 20)))
           | u_fireRate =>
               let w := Spaceship.weapons p in
               set_player e
                 (Spaceship.set_weapons p
                    (Spaceship.mkWeapons (Spaceship.cooldown w)
                       (Rmax 0.05 (Spaceship.fireRate w * 0.95))
                       (Spaceship.projectileSpeed w)))
           | u_damage => e
           end
   end)%rand.

(** The [while] loop of [addExperience], run for at most [fuel] rounds. *)
Fixpoint levelUps (fuel : nat) (e : t) : Rand t :=
  match fuel with
  | O => ret e
  | S fuel' =>
      let us := upgradeSystem e in
      if experience us >=? experienceToNext us then
        (let us := mkUpgradeSystem
                     (S (level us))
                     (experience us - experienceToNext us)
                     (Math_floor (experienceToNext us * 1.5))
                     (S (skillPoints us))
                     (upgrades us) in
         e <- autoUpgrade (set_upgradeSystem e us) ;;
         levelUps fuel' e)%rand
      else ret e
  end.

(** Each round takes [experienceToNext] off [experience]; the threshold
    starts at 100 and only grows, so [floor experience + 1] rounds are
    enough (lemma [levelUps_enough_fuel]). *)
Definition addExperience (e : t) (amount : R) : Rand t :=
  let us := upgradeSystem e in
  let us := mkUpgradeSystem (level us) (experience us + amount)
                            (experienceToNext us) (skillPoints us)
                            (upgrades us) in
  levelUps (S (Z.to_nat (Zfloor (experience us)))) (set_upgradeSystem e us).

(** *** Firing *)

Definition push {A} (l : list A) (a : A) : list A := l ++ [a].

Definition playerFire (e : t) : Rand t :=
  let weaponType := currentWeapon (weaponSystem e) in
  let weapon := weapons weaponType in
  let p := player e in
  let p := Spaceship.set_weapons p
             (Spaceship.mkWeapons (Spaceship.cooldown (Spaceship.weapons p))
                (w_fireRate weapon)
                (Spaceship.projectileSpeed (Spaceship.weapons p))) in
  let (p, projectileData) := Spaceship.fire p in
  let e := set_player e p in
  match projectileData with
  | None => ret e
  | Some pd =>
      let baseDamage :=
        w_damage weapon
        * (1 + INR (damage (upgrades (upgradeSystem e))) * 0.1) in
      let fresh velocity angle :=
        Projectile.new (Spaceship.pd_position pd) velocity angle baseDamage
                       "#00f0ff" in
      match weaponType with
      | default =>
          (proj <- fresh (Spaceship.pd_velocity pd) (Spaceship.pd_angle pd) ;;
           let proj := Projectile.set_color proj (w_color weapon) in
           ret (set_projectiles e (push (projectiles e) proj)))%rand
      | laser =>
          (proj <- fresh (Spaceship.pd_velocity pd) (Spaceship.pd_angle pd) ;;
           let proj := Projectile.set_color proj (w_color weapon) in
           let proj := Projectile.set_dims proj 3 40 in
           ret (set_projectiles e (push (projectiles e) proj)))%rand
      | missile =>
          (proj <- fresh (Spaceship.pd_velocity pd) (Spaceship.pd_angle pd) ;;
           let proj := Projectile.set_color proj (w_color weapon) in
           let proj := Projectile.set_homing proj true 2.5 in
           let proj := Projectile.set_dims proj 8 16 in
           ret (set_projectiles e (push (projectiles e) proj)))%rand
      | shotgun =>
          let spreadCount := w_spread weapon in
          (projs <-
             mapR (fun i =>
                     let angleOffset :=
                       (INR i - Math_floor (INR spreadCount / 2)) * 0.15 in
                     let velocity :=
                       Vector2D.fromAngle
                         (Spaceship.pd_angle pd + angleOffset)
                         (w_projectileSpeed weapon) in
                     proj <- fresh velocity
                               (Spaceship.pd_angle pd + angleOffset) ;;
                     ret (Projectile.set_color proj (w_color weapon)))
                  (seq 0 spreadCount) ;;
           ret (set_projectiles e (projectiles e ++ projs)))%rand
      end
  end.

(** *** Input *)

Definition margin : R := 50.

(** The horizontal clamp that closes the lane branch of [handleInput]. *)
Definition clampInput (width : R) (s : Ship) : Ship :=
  let s :=
    if Vector2D.x (ship_pos s) <? margin then
      let s := ship_set_pos s (Vector2D.set_x (ship_pos s) margin) in
      ship_set_vel s
        (Vector2D.set_x (ship_vel s) (Rmax 0 (Vector2D.x (ship_vel s))))
    else s in
  if Vector2D.x (ship_pos s) >? width - margin then
    let s := ship_set_pos s (Vector2D.set_x (ship_pos s) (width - margin)) in
    ship_set_vel s
      (Vector2D.set_x (ship_vel s) (Rmin 0 (Vector2D.x (ship_vel s))))
  else s.

Definition shieldKeys (e : t) : t :=
  if keys e "shift" || keys e "e"
  then set_player e (Spaceship.activateShield (player e))
  else set_player e (Spaceship.deactivateShield (player e)).

Definition fireKeys (e : t) : Rand t :=
  if keys e " " || down (mouse e) then playerFire e else ret e.

(** The horizontal velocity the lane branch of [handleInput] leaves in
    [player.velocity.x]: ease toward the target, friction when no key is
    held, then the speed cap. *)
Definition laneVelocity (c : Config) (inputX currentVx deltaTime : R) : R :=
  let targetVx := inputX * maxSpeedX c in
  let velocityDiff := targetVx - currentVx in
  let vx :=
    if Rabs velocityDiff >? 0.1 then
      let rate := if Rabs targetVx >? Rabs currentVx
                  then accelX c else decelX c in
      let deltaV := Math_sign velocityDiff * rate * deltaTime in
      if Rabs deltaV <? Rabs velocityDiff
      then currentVx + deltaV
      else targetVx
    else targetVx in
  let vx :=
    if (inputX =? 0) && (Rabs currentVx >? 1)
    then vx * frictionX c else vx in
  let maxSpeed := maxSpeedX c in
  Rmax (- maxSpeed) (Rmin maxSpeed vx).

(** The direction the held keys ask for. *)
Definition laneInput (e : t) : R :=
  let inputX := 0 in
  let inputX := if keys e "a" || keys e "arrowleft" then -1 else inputX in
  if keys e "d" || keys e "arrowright" then inputX + 1 else inputX.

(** The lock of the lane branch: fixed height, no rotation, horizontal
    bounds. *)
Definition laneLock (e : t) : t :=
  let p := player e in
  let p :=
    match fixedPlayerY (config e) with
    | Some fy =>
        let p := ship_set_pos p (Vector2D.set_y (ship_pos p) fy) in
        ship_set_vel p (Vector2D.set_y (ship_vel p) 0)
    | None => p
    end in
  let b := Spaceship.body p in
  let b := PhysicsBody.set_angle b 0 in
  let b := PhysicsBody.set_angularVelocity b 0 in
  set_player e (clampInput (width e) (Spaceship.set_body p b)).

(** The movement keys of the space-sim branch. *)
Definition simMove `{MathLib} (e : t) (deltaTime : R) : t :=
  let p := player e in
  let p := if keys e "w" || keys e "arrowup"
           then Spaceship.thrust p deltaTime else p in
  let p := if keys e "s" || keys e "arrowdown"
           then Spaceship.brake p deltaTime else p in
  let p := if keys e "a" || keys e "arrowleft"
           then Spaceship.strafe p (-1) deltaTime else p in
  let p := if keys e "d" || keys e "arrowright"
           then Spaceship.strafe p 1 deltaTime else p in
  let p := if keys e "r" then
             let target :=
               Vector2D.mk (mouse_x (mouse e)) (mouse_y (mouse e)) in
             Spaceship.set_body p
               (PhysicsBody.lookAt (Spaceship.body p) target)
           else p in
  set_player e p.

Section WithMath.
Context `{MathLib}.

Definition handleInput (e : t) (deltaTime : R) : Rand t :=
  if negb (State_eqb (state e) playing) then ret e
  else
    match mode (config e) with
    | lane_shooter =>
        let inputX := laneInput e in
        let e := set_laneMovement e
                   (mkLaneMovement (inputX * maxSpeedX (config e)) inputX
                      (lastInputTime (laneMovement e))) in
        let vx := laneVelocity (config e) inputX (Vector2D.x (player_vel e))
                               deltaTime in
        let e := set_player e
                   (ship_set_vel (player e)
                      (Vector2D.set_x (player_vel e) vx)) in
        (e <- fireKeys e ;;
         ret (laneLock (shieldKeys e)))%rand
    | space_sim =>
        (e <- fireKeys (simMove e deltaTime) ;;
         ret (shieldKeys e))%rand
    end.

End WithMath.

(** *** Spawning *)

Fixpoint mapi_from {A B} (i : nat) (f : A -> nat -> B) (l : list A) : list B :=
  match l with
  | [] => []
  | a :: l' => f a i :: mapi_from (S i) f l'
  end.

(** The cumulative-probability scan of [spawnAsteroid]. *)
Fixpoint pickSize (rand cumulative : R) (sizes : list Asteroid.Size)
    (weights : list R) (size : Asteroid.Size) : Asteroid.Size :=
  match sizes, weights with
  | s :: sizes', w :: weights' =>
      let cumulative := cumulative + w in
      if rand <? cumulative then s
      else pickSize rand cumulative sizes' weights' size
  | _, _ => size
  end.

Definition asteroid_pos (a : Asteroid.t) : Vec :=
  PhysicsBody.position (Asteroid.body a).
Definition asteroid_vel (a : Asteroid.t) : Vec :=
  PhysicsBody.velocity (Asteroid.body a).
Definition asteroid_set_pos (a : Asteroid.t) (p : Vec) : Asteroid.t :=
  Asteroid.set_body a (PhysicsBody.set_position (Asteroid.body a) p).
Definition asteroid_set_vel (a : Asteroid.t) (v : Vec) : Asteroid.t :=
  Asteroid.set_body a (PhysicsBody.set_velocity (Asteroid.body a) v).

(** The asteroid [spawnAsteroid] builds once its two guards have passed. *)
Definition newAsteroid (e : t) : Rand Asteroid.t :=
    let margin := 100 in
    let lane := match mode (config e) with
                | lane_shooter => true
                | space_sim => false
                end in
    (r <- random ;;
     let x := margin + r * (width e - margin * 2) in
     x <- (if lane then
             let laneWidth := (width e - margin * 2) / 3 in
             let lane1Center := margin + laneWidth * 0.5 in
             let lane2Center := margin + laneWidth * 1.5 in
             let lane3Center := margin + laneWidth * 2.5 in
             rand <- random ;;
             let totalWeight := 0.8 + 1.0 + 1.3 in
             k <- random ;;
             let x :=
               if rand <? 0.8 / totalWeight
               then lane1Center + (k - 0.5) * laneWidth * 0.8
               else if rand <? (0.8 + 1.0) / totalWeight
               then lane2Center + (k - 0.5) * laneWidth * 0.8
               else lane3Center + (k - 0.5) * laneWidth * 0.8 in
             ret (Rmax margin (Rmin (width e - margin) x))
           else ret x) ;;
     let y := -50 in
     let sizes :=
       [Asteroid.small; Asteroid.medium; Asteroid.large; Asteroid.huge] in
     let baseWeights := [0.4; 0.35; 0.2; 0.05] in
     let difficultyFactor := Rmin (IZR (wave e) / 10) 1.5 in
     let weights :=
       mapi_from 0
         (fun w i => if (2 <=? i)%nat
                     then w * (1 + difficultyFactor * 0.5)
                     else w * (1 - difficultyFactor * 0.2))
         baseWeights in
     rand <- random ;;
     let size := pickSize rand 0 sizes weights Asteroid.small in
     r1 <- random ;;
     let angle := PI / 2 + (r1 - 0.5) * 0.5 in
     r2 <- random ;;
     let baseSpeed := 80 + r2 * 120 in
     let speed := baseSpeed * (1 + difficultyMultiplier (config e) * 0.3) in
     let velocity := Vector2D.fromAngle angle speed in
     asteroid <- Asteroid.new x y size (Some velocity) ;;
     let waveFactor := 1 + (IZR (wave e) - 1) * 0.1 in
     let asteroid :=
       Asteroid.set_health asteroid (Asteroid.health asteroid * waveFactor) in
     let asteroid :=
       Asteroid.set_maxHealth asteroid
         (Asteroid.maxHealth asteroid * waveFactor) in
     let asteroid :=
       Asteroid.set_damage asteroid
         (Asteroid.sizeMap size / 2 * waveFactor) in
     r3 <- random ;;
     let asteroid :=
       Asteroid.set_body asteroid
         (PhysicsBody.set_angularVelocity (Asteroid.body asteroid)
            ((r3 - 0.5) * 3)) in
     let asteroid :=
       if lane then
         let safeDistance := 200 in
         let dx := Vector2D.x (asteroid_pos asteroid)
                   - Vector2D.x (player_pos e) in
         let dy := Vector2D.y (asteroid_pos asteroid)
                   - Vector2D.y (player_pos e) in
         if (Rabs dx <? safeDistance) && (dy <? safeDistance) then
           let px := Vector2D.x (asteroid_pos asteroid)
                     + (if dx >? 0 then 1 else -1)
                       * (safeDistance - Rabs dx) in
           let margin := 100 in
           asteroid_set_pos asteroid
             (Vector2D.set_x (asteroid_pos asteroid)
                (Rmax margin (Rmin (width e - margin) px)))
         else asteroid
       else asteroid in
     ret asteroid)%rand.

Definition spawnAsteroid (e : t) : Rand t :=
  if INR (List.length (asteroids e)) >=? maxAsteroids (config e) then ret e
  else if active (bossSystem e) then ret e
  else
    (asteroid <- newAsteroid e ;;
     ret (set_asteroids e (push (asteroids e) asteroid)))%rand.

Definition spawnBoss (e : t) : Rand t :=
  (let x := width e / 2 in
   let y := -100 in
   boss <- Asteroid.new x y Asteroid.huge (Some (Vector2D.mk 0 50)) ;;
   let boss := Asteroid.set_isBoss boss true in
   let boss := Asteroid.set_health boss (200 + IZR (wave e) * 50) in
   let boss := Asteroid.set_maxHealth boss (Asteroid.health boss) in
   let boss := Asteroid.set_color boss "#ff0055" in
   let boss := Asteroid.set_damage boss 40 in
   let boss := Asteroid.set_scoreValue boss (Some 1000) in
   let boss := Asteroid.set_radius boss (Asteroid.radius boss * 1.5) in
   let e := set_bossSystem e
              (mkBoss true (Some (Asteroid.id boss)) 1
                      (maxPhases (bossSystem e))) in
   ret (set_asteroids e (push (asteroids e) boss)))%rand.

(** [Math.random() < 1] keeps the index into [types] in range. *)
Definition spawnHazard (e : t) : Rand t :=
  match mode (config e) with
  | lane_shooter =>
      let hazard :=
        {| h_type := blackhole;
           h_position := Vector2D.mk (Vector2D.x (player_pos e) + 200)
                                     (Vector2D.y (player_pos e) + 100);
           h_velocity := Some (Vector2D.mk 0 0);
           h_radius := 80; h_strength := 250; h_duration := 15;
           h_timer := 0; h_active := true; h_telegraph := true;
           h_telegraphTimer := 2.0; h_spawnTimer := 0; h_spawnRate := 0 |} in
      ret (set_hazards e (push (hazards e) hazard))
  | space_sim =>
      let types := [blackhole; nebula; meteor_shower] in
      (r <- random ;;
       let type := nth (floor_index (r * INR (List.length types))) types
                       nebula in
       rx <- random ;;
       ry <- random ;;
       let isBlackhole := match type with blackhole => true | _ => false end in
       rd <- random ;;
       let hazard :=
         {| h_type := type;
            h_position := Vector2D.mk (rx * width e) (ry * height e);
            h_velocity := None;
            h_radius := if isBlackhole then 80 else 150;
            h_strength := if isBlackhole then 200 else 0.5;
            h_duration := 10 + rd * 10;
            h_timer := 0; h_active := true; h_telegraph := false;
            h_telegraphTimer := 0; h_spawnTimer := 0;
            h_spawnRate := match type with
                           | meteor_shower => 0.1
                           | _ => 0
                           end |} in
       ret (set_hazards e (push (hazards e) hazard)))%rand
  end.

(** [Math.random() < 1] keeps the index into [types] in range. *)
Definition spawnPowerUp (e : t) (x y : R) : Rand t :=
  (let types :=
     [PowerUp.health; PowerUp.shield; PowerUp.weapon; PowerUp.speed] in
   r <- random ;;
   let type := nth (floor_index (r * INR (List.length types))) types
                   PowerUp.health in
   powerUp <- PowerUp.new x y type ;;
   let b := PowerUp.body powerUp in
   b <- match mode (config e) with
        | lane_shooter =>
            let b :=
              if (y >? 0) && (y <? height e)
              then PhysicsBody.set_position b
                     (Vector2D.set_x
                        (Vector2D.set_y (PhysicsBody.position b) (-30)) x)
              else b in
            let fallSpeed := scrollSpeed (config e) * 1.8 in
            let b := PhysicsBody.setVelocity b 0 fallSpeed in
            d <- random ;;
            let drift := (d - 0.5) * 30 in
            ret (PhysicsBody.set_velocity b
                   (Vector2D.set_x (PhysicsBody.velocity b) drift))
        | space_sim =>
            ra <- random ;;
            let angle := ra * PI * 2 in
            rs <- random ;;
            let speed := 30 + rs * 50 in
            ret (PhysicsBody.setVelocity b (cos angle * speed)
                                         (sin angle * speed))
        end ;;
   ret (set_powerUps e (push (powerUps e) (PowerUp.set_body powerUp b))))%rand.

(** *** Chain reactions *)

Definition isOnScreen (e : t) (position : Vec) (margin : R) : bool :=
  (Vector2D.x position >=? - margin)
  && (Vector2D.x position <=? width e + margin)
  && (Vector2D.y position >=? - margin)
  && (Vector2D.y position <=? height e + margin).

(** The scan of [findNearestAsteroid]; [best] is [(nearest, minDist)], and
    [None] stands for the initial [minDist = Infinity]. *)
Fixpoint nearestFrom (position : Vec) (l : list Asteroid.t)
    (best : option (Asteroid.t * R)) : option (Asteroid.t * R) :=
  match l with
  | [] => best
  | asteroid :: l' =>
      let dist := Vector2D.distance position (asteroid_pos asteroid) in
      match best with
      | None => nearestFrom position l' (Some (asteroid, dist))
      | Some (_, minDist) =>
          if dist <? minDist
          then nearestFrom position l' (Some (asteroid, dist))
          else nearestFrom position l' best
      end
  end.

Definition findNearestAsteroid (e : t) (position : Vec)
  : option Asteroid.t :=
  option_map fst (nearestFrom position (asteroids e) None).

Definition chainScoreMap (s : Asteroid.Size) : R :=
  match s with
  | Asteroid.small => 50 | Asteroid.medium => 25
  | Asteroid.large => 15 | Asteroid.huge => 5
  end.

(** The loops of the engine walk an array from its last index down, remove
    the current element with [splice(i, 1)] and append new elements with
    [push].  [todo] is the part not yet visited, last element first;
    [kept] holds the visited elements that stay, in array order, and
    [frags] what has been pushed.  The array is [rev todo ++ kept ++ frags]
    at every point. *)
Fixpoint chainLoop `{MathLib} (position : Vec) (radius : R)
    (todo kept frags : list Asteroid.t) (e : t) : Rand t :=
  match todo with
  | [] => ret (set_asteroids e (kept ++ frags))
  | asteroid :: rest =>
      let dist := Vector2D.distance position (asteroid_pos asteroid) in
      if dist <? radius then
        ('(asteroid, damaged) <- Asteroid.takeDamage asteroid 20 ;;
         if damaged then
           let e := set_score e
                      (score e
                       + Math_floor
                           (rnd (chainScoreMap (Asteroid.size asteroid)
                                 * multiplier (comboSystem e)))) in
           let e := set_kills e (S (kills e)) in
           fragments <- Asteroid.split asteroid ;;
           let e := set_timeouts e
                      (push (timeouts e)
                            (asteroid_pos asteroid, radius * 0.7)) in
           chainLoop position radius rest kept (frags ++ fragments) e
         else chainLoop position radius rest (asteroid :: kept) frags e)%rand
      else chainLoop position radius rest (asteroid :: kept) frags e
  end.

Definition checkChainReaction `{MathLib} (e : t) (position : Vec)
    (radius : R)
  : Rand t :=
  chainLoop position radius (rev (asteroids e)) [] [] e.

(** *** Power-ups *)

Definition collectPowerUp `{MathLib} (e : t) (powerUp : PowerUp.t)
  : Rand t :=
  (e <- match PowerUp.type powerUp with
        | PowerUp.health => ret (set_player e (Spaceship.heal (player e) 30))
        | PowerUp.shield =>
            let p := player e in
            let sh := Spaceship.shield p in
            let sh := Spaceship.shield_set_powerUpActive sh true in
            let sh := Spaceship.shield_set_powerUpTimer sh 10 in
            let p := Spaceship.activateShield (Spaceship.set_shield p sh) in
            let sh := Spaceship.shield p in
            ret (set_player e
                   (Spaceship.set_shield p
                      (Spaceship.shield_set_strength sh
                         (Spaceship.maxStrength sh))))
        | PowerUp.weapon =>
            let names := [laser; missile; shotgun] in
            r <- random ;;
            let randomWeapon :=
              nth (floor_index (r * INR (List.length names))) names laser in
            ret (set_weaponSystem e
                   (mkWeaponSystem randomWeapon
                                   (w_duration (weapons randomWeapon))))
        | PowerUp.speed =>
            ret (set_config e
                   (cfg_set_maxSpeedX (config e)
                                      (maxSpeedX (config e) * 1.2)))
        end ;;
   let e := set_score e
              (score e
               + Math_floor (rnd (50 * multiplier (comboSystem e)))) in
   addExperience e 5)%rand.

(** *** Scoring a projectile kill *)

Definition scoreMap (s : Asteroid.Size) : R :=
  match s with
  | Asteroid.small => 100 | Asteroid.medium => 50
  | Asteroid.large => 25 | Asteroid.huge => 10
  end.

(** [isBoss] and [scoreValue] are only ever set together, by [spawnBoss];
    a boss without a score value would score NaN, which is outside the
    number model. *)
Definition baseScore (asteroid : Asteroid.t) : R :=
  if Asteroid.isBoss asteroid then
    match Asteroid.scoreValue asteroid with Some v => v | None => 0 end
  else num_or (scoreMap (Asteroid.size asteroid)) 10.

Definition finalScore `{MathLib} (e : t) (asteroid : Asteroid.t) : R :=
  Math_floor (rnd (baseScore asteroid * multiplier (comboSystem e))).

(** The first statements of the [if (destroyed)] block: the combo grows,
    then the kill is scored with the new multiplier. *)
Definition scoreKill `{MathLib} (e : t) (asteroid : Asteroid.t) : t :=
  let e := increaseCombo e in
  let e := set_score e (score e + finalScore e asteroid) in
  set_kills e (S (kills e)).

Fixpoint bossPowerUps (k : nat) (asteroid : Asteroid.t) (e : t) : Rand t :=
  match k with
  | O => ret e
  | S k' =>
      (rx <- random ;;
       ry <- random ;;
       e <- spawnPowerUp e
              (Vector2D.x (asteroid_pos asteroid) + (rx - 0.5) * 100)
              (Vector2D.y (asteroid_pos asteroid) + (ry - 0.5) * 100) ;;
       bossPowerUps k' asteroid e)%rand
  end.

(** The whole [if (destroyed)] block of the projectile loop: [asteroid] is
    the destroyed element and [before], [after] its neighbours in the
    array. *)
Definition onKill `{MathLib} (e : t) (asteroid : Asteroid.t)
    (before after : list Asteroid.t) : Rand t :=
  (let e := scoreKill e asteroid in
   e <- addExperience e (baseScore asteroid / 10) ;;
   e <- (if Asteroid.isBoss asteroid then
           let b := bossSystem e in
           let e := set_bossSystem e
                      (mkBoss false None (phase b) (maxPhases b)) in
           bossPowerUps 3 asteroid e
         else ret e) ;;
   e <- (if negb (Asteroid.isBoss asteroid) then
           fragments <- Asteroid.split asteroid ;;
           let e := set_asteroids e ((before ++ after) ++ fragments) in
           r <- random ;;
           if r <? powerUpChance (config e) * multiplier (comboSystem e)
           then spawnPowerUp e (Vector2D.x (asteroid_pos asteroid))
                             (Vector2D.y (asteroid_pos asteroid))
           else ret e
         else ret (set_asteroids e (before ++ after))) ;;
   checkChainReaction e (asteroid_pos asteroid)
                      (Asteroid.radius asteroid * 2))%rand.

(** The last element that satisfies [f], with what precedes and follows. *)
Fixpoint splitLast {A} (f : A -> bool) (l : list A)
  : option (list A * A * list A) :=
  match l with
  | [] => None
  | a :: l' =>
      match splitLast f l' with
      | Some (before, hit, after) => Some (a :: before, hit, after)
      | None => if f a then Some ([], a, l') else None
      end
  end.

Definition gameOver (e : t) : t := set_state e gameover.

(** *** Hazards *)

Definition projectile_pos (p : Projectile.t) : Vec :=
  PhysicsBody.position (Projectile.body p).
Definition projectile_vel (p : Projectile.t) : Vec :=
  PhysicsBody.velocity (Projectile.body p).
Definition projectile_set_vel (p : Projectile.t) (v : Vec) : Projectile.t :=
  Projectile.set_body p (PhysicsBody.set_velocity (Projectile.body p) v).

Definition updateHazard (e : t) (hazard : Hazard) (deltaTime : R)
  : Rand (Hazard * t) :=
  match h_type hazard with
  | blackhole =>
      let position :=
        match h_velocity hazard with
        | Some v =>
            Vector2D.mk
              (Vector2D.x (h_position hazard) + Vector2D.x v * deltaTime)
              (Vector2D.y (h_position hazard) + Vector2D.y v * deltaTime)
        | None => h_position hazard
        end in
      let '(telegraph, telegraphTimer) :=
        if h_telegraph hazard && (h_telegraphTimer hazard >? 0) then
          let tt := h_telegraphTimer hazard - deltaTime in
          (if tt <=? 0 then false else h_telegraph hazard, tt)
        else (h_telegraph hazard, h_telegraphTimer hazard) in
      let hazard :=
        mkHazard (h_type hazard) position (h_velocity hazard)
                 (h_radius hazard) (h_strength hazard) (h_duration hazard)
                 (h_timer hazard) (h_active hazard) telegraph telegraphTimer
                 (h_spawnTimer hazard) (h_spawnRate hazard) in
      let isActive := negb (h_telegraph hazard)
                      || (h_telegraphTimer hazard <=? 0) in
      let e :=
        if isActive then
          let e :=
            set_asteroids e
              (map (fun asteroid =>
                      let toHazard :=
                        Vector2D.subtract (h_position hazard)
                                          (asteroid_pos asteroid) in
                      let dist := Vector2D.magnitude toHazard in
                      if dist <? h_radius hazard * 3 then
                        let force :=
                          Vector2D.multiply (Vector2D.normalize toHazard)
                                            (h_strength hazard * 0.005) in
                        asteroid_set_vel asteroid
                          (Vector2D.add (asteroid_vel asteroid)
                             (Vector2D.multiply force deltaTime))
                      else asteroid)
                   (asteroids e)) in
          set_projectiles e
            (map (fun proj =>
                    let toHazard :=
                      Vector2D.subtract (h_position hazard)
                                        (projectile_pos proj) in
                    let dist := Vector2D.magnitude toHazard in
                    if dist <? h_radius hazard * 2 then
                      let force :=
                        Vector2D.multiply (Vector2D.normalize toHazard)
                          (h_strength hazard * 0.5 / (dist + 1)) in
                      projectile_set_vel proj
                        (Vector2D.add (projectile_vel proj)
                           (Vector2D.multiply force deltaTime))
                    else proj)
                 (projectiles e))
        else e in
      ret (hazard, e)
  | nebula =>
      let dist := Vector2D.distance (h_position hazard) (player_pos e) in
      if dist <? h_radius hazard then
        ret (hazard,
             set_player e
               (ship_set_vel (player e)
                  (Vector2D.multiply (player_vel e) 0.98)))
      else ret (hazard, e)
  | meteor_shower =>
      let spawnTimer := h_spawnTimer hazard + deltaTime in
      let withTimer v :=
        mkHazard (h_type hazard) (h_position hazard) (h_velocity hazard)
                 (h_radius hazard) (h_strength hazard) (h_duration hazard)
                 (h_timer hazard) (h_active hazard) (h_telegraph hazard)
                 (h_telegraphTimer hazard) v (h_spawnRate hazard) in
      if spawnTimer >=? h_spawnRate hazard then
        (r <- random ;;
         let x := Vector2D.x (h_position hazard)
                  + (r - 0.5) * h_radius hazard in
         let y := -50 in
         r1 <- random ;;
         r2 <- random ;;
         let velocity := Vector2D.mk ((r1 - 0.5) * 100) (200 + r2 * 200) in
         asteroid <- Asteroid.new x y Asteroid.small (Some velocity) ;;
         ret (withTimer 0, set_asteroids e (push (asteroids e) asteroid))
        )%rand
      else ret (withTimer spawnTimer, e)
  end.

(** *** The per-frame step *)

Section WithMath.
Context `{MathLib}.

(** The horizontal clamp that follows [player.update] in lane mode. *)
Definition clampUpdate (width : R) (s : Ship) : Ship :=
  let s :=
    if Vector2D.x (ship_pos s) <? margin then
      let s := ship_set_pos s (Vector2D.set_x (ship_pos s) margin) in
      ship_set_vel s (Vector2D.set_x (ship_vel s) 0)
    else s in
  if Vector2D.x (ship_pos s) >? width - margin then
    let s := ship_set_pos s (Vector2D.set_x (ship_pos s) (width - margin)) in
    ship_set_vel s (Vector2D.set_x (ship_vel s) 0)
  else s.

(** Asteroids against the player.  The last component of the result is
    [true] when the hit was lethal and [update] must stop. *)
Fixpoint asteroidLoop (height deltaTime : R)
    (todo kept frags : list Asteroid.t) (p : Ship) (b : BossSystem)
  : Rand (Ship * BossSystem * list Asteroid.t * bool) :=
  match todo with
  | [] => ret (p, b, kept ++ frags, false)
  | asteroid :: rest =>
      let asteroid := Asteroid.update asteroid deltaTime in
      if Vector2D.y (asteroid_pos asteroid) >? height + 100 then
        let b := if Asteroid.isBoss asteroid
                 then mkBoss false None (phase b) (maxPhases b)
                 else b in
        asteroidLoop height deltaTime rest kept frags p b
      else if CollisionSystem.checkCircleCollision
                (Spaceship.body p) (Asteroid.body asteroid)
                (Rmax (Spaceship.width p) (Spaceship.height p) / 2)
                (Asteroid.radius asteroid) then
        let (p, destroyed) :=
          Spaceship.takeDamage p (num_or (Asteroid.damage asteroid) 20) in
        (fragments <- Asteroid.split asteroid ;;
         let frags := frags ++ fragments in
         if destroyed then ret (p, b, (rev rest ++ kept) ++ frags, true)
         else asteroidLoop height deltaTime rest kept frags p b)%rand
      else asteroidLoop height deltaTime rest (asteroid :: kept) frags p b
  end.

(** Steering of a homing projectile toward the nearest asteroid. *)
Definition steer (e : t) (proj : Projectile.t) (deltaTime : R)
  : Projectile.t :=
  if Projectile.homing proj && (0 <? List.length (asteroids e))%nat then
    match findNearestAsteroid e (projectile_pos proj) with
    | Some target =>
        let toTarget :=
          Vector2D.subtract (asteroid_pos target) (projectile_pos proj) in
        let desiredVelocity :=
          Vector2D.multiply (Vector2D.normalize toTarget)
                            (Vector2D.magnitude (projectile_vel proj)) in
        let steering :=
          Vector2D.subtract desiredVelocity (projectile_vel proj) in
        let steering :=
          Vector2D.multiply steering
            (Projectile.homingStrength proj * deltaTime) in
        let proj :=
          projectile_set_vel proj
            (Vector2D.add (projectile_vel proj) steering) in
        Projectile.set_body proj
          (PhysicsBody.set_angle (Projectile.body proj)
             (Math_atan2 (Vector2D.y (projectile_vel proj))
                         (Vector2D.x (projectile_vel proj))))
    | None => proj
    end
  else proj.

Fixpoint projectileLoop (deltaTime : R) (todo kept : list Projectile.t)
    (e : t) : Rand t :=
  match todo with
  | [] => ret (set_projectiles e kept)
  | proj :: rest =>
      let proj := Projectile.update proj deltaTime in
      let proj := steer e proj deltaTime in
      if Projectile.isExpired proj
         || negb (isOnScreen e (projectile_pos proj) 50) then
        projectileLoop deltaTime rest kept e
      else
        match splitLast
                (fun asteroid =>
                   CollisionSystem.checkCircleCollision
                     (Projectile.body proj) (Asteroid.body asteroid)
                     (Projectile.width proj / 2) (Asteroid.radius asteroid))
                (asteroids e) with
        | None => projectileLoop deltaTime rest (proj :: kept) e
        | Some (before, asteroid, after) =>
            ('(asteroid, destroyed) <-
               Asteroid.takeDamage asteroid (Projectile.damage proj) ;;
             let e := set_asteroids e (before ++ asteroid :: after) in
             e <- (if destroyed then onKill e asteroid before after
                   else ret e) ;;
             projectileLoop deltaTime rest kept e)%rand
        end
  end.

Definition powerUp_pos (p : PowerUp.t) : Vec :=
  PhysicsBody.position (PowerUp.body p).

Fixpoint powerUpLoop (deltaTime : R) (todo kept : list PowerUp.t) (e : t)
  : Rand t :=
  match todo with
  | [] => ret (set_powerUps e kept)
  | powerUp :: rest =>
      let powerUp := PowerUp.update powerUp deltaTime in
      if PowerUp.isExpired powerUp then powerUpLoop deltaTime rest kept e
      else if match mode (config e) with
              | lane_shooter =>
                  (Vector2D.y (powerUp_pos powerUp) >? height e + 50)
                  || (Vector2D.x (powerUp_pos powerUp) <? -50)
                  || (Vector2D.x (powerUp_pos powerUp) >? width e + 50)
              | space_sim => false
              end then powerUpLoop deltaTime rest kept e
      else
        let dx := Vector2D.x (player_pos e)
                  - Vector2D.x (powerUp_pos powerUp) in
        let dy := Vector2D.y (player_pos e)
                  - Vector2D.y (powerUp_pos powerUp) in
        let distSq := dx * dx + dy * dy in
        let magnetRange := 120 in
        let magnetRangeSq := magnetRange * magnetRange in
        let powerUp :=
          if (distSq <? magnetRangeSq) && (distSq >? 1) then
            let dist := sqrt distSq in
            let magnetStrength := 200 * (1 - dist / magnetRange) in
            let pullX := dx / dist * magnetStrength * deltaTime in
            let pullY := dy / dist * magnetStrength * deltaTime in
            let b := PowerUp.body powerUp in
            let v := PhysicsBody.velocity b in
            PowerUp.set_body powerUp
              (PhysicsBody.set_velocity b
                 (Vector2D.mk (Vector2D.x v + pullX) (Vector2D.y v + pullY)))
          else powerUp in
        let playerRadius :=
          Rmax (Spaceship.width (player e)) (Spaceship.height (player e))
          / 2 in
        if CollisionSystem.checkCircleCollision
             (Spaceship.body (player e)) (PowerUp.body powerUp)
             playerRadius (PowerUp.radius powerUp) then
          (e <- (if negb (PowerUp.collected powerUp)
                 then collectPowerUp e powerUp else ret e) ;;
           powerUpLoop deltaTime rest kept e)%rand
        else powerUpLoop deltaTime rest (powerUp :: kept) e
  end.

(** The combo timer block. *)
Definition comboTimer (e : t) (deltaTime : R) : t :=
  if (0 <? count (comboSystem e))%nat then
    let c := comboSystem e in
    let e := set_comboSystem e
               (mkCombo (count c) (timer c + deltaTime) (maxTime c)
                        (multiplier c) (maxMultiplier c)) in
    if timer (comboSystem e) >=? maxTime (comboSystem e)
    then resetCombo e else e
  else e.

Definition weaponTimer (e : t) (deltaTime : R) : t :=
  let ws := weaponSystem e in
  if negb (match currentWeapon ws with default => true | _ => false end)
     && (activeWeaponTimer ws >? 0) then
    let ws := mkWeaponSystem (currentWeapon ws)
                             (activeWeaponTimer ws - deltaTime) in
    if activeWeaponTimer ws <=? 0
    then set_weaponSystem e (mkWeaponSystem default (activeWeaponTimer ws))
    else set_weaponSystem e ws
  else e.

Definition h_set_timer (h : Hazard) (v : R) : Hazard :=
  mkHazard (h_type h) (h_position h) (h_velocity h) (h_radius h)
           (h_strength h) (h_duration h) v (h_active h) (h_telegraph h)
           (h_telegraphTimer h) (h_spawnTimer h) (h_spawnRate h).

Fixpoint hazardLoop (deltaTime : R) (todo kept : list Hazard) (e : t)
  : Rand t :=
  match todo with
  | [] => ret (set_hazards e kept)
  | hazard :: rest =>
      let hazard := h_set_timer hazard (h_timer hazard + deltaTime) in
      if h_timer hazard >=? h_duration hazard
      then hazardLoop deltaTime rest kept e
      else if match mode (config e) with
              | lane_shooter =>
                  Vector2D.y (h_position hazard) >? height e + 150
              | space_sim => false
              end
      then hazardLoop deltaTime rest kept e
      else
        ('(hazard, e) <- updateHazard e hazard deltaTime ;;
         hazardLoop deltaTime rest (hazard :: kept) e)%rand
  end.

(** The periodic spawner. *)
Definition spawnTimer (e : t) (deltaTime : R) : Rand t :=
  let e := set_asteroidSpawnTimer e (asteroidSpawnTimer e + deltaTime) in
  if asteroidSpawnTimer e >=? asteroidSpawnRate (config e)
  then spawnAsteroid (set_asteroidSpawnTimer e 0)
  else ret e.

Definition hazardTimer (e : t) (deltaTime : R) : Rand t :=
  let e := set_hazardSpawnTimer e (hazardSpawnTimer e + deltaTime) in
  if (hazardSpawnTimer e >=? hazardSpawnInterval e) && (2 <? wave e)%Z
  then spawnHazard (set_hazardSpawnTimer e 0)
  else ret e.

(** The start of a new wave: the counter and the difficulty settings. *)
Definition nextWave (e : t) : t :=
  let e := set_waveTimer e 0 in
  let e := set_wave e (wave e + 1)%Z in
  let c := config e in
  let c := cfg_set_asteroidSpawnRate c
             (asteroidSpawnRate c * asteroidSpawnIncrease c) in
  let c := cfg_set_maxAsteroids c (maxAsteroids c + 2) in
  let c := cfg_set_difficultyMultiplier c (difficultyMultiplier c + 0.1) in
  set_config e c.

(** Wave progression, with the boss wave check.  [wave] is an integer
    counter and [%] is the truncating remainder. *)
Definition waveProgression (e : t) (deltaTime : R) : Rand t :=
  let e := set_waveTimer e (waveTimer e + deltaTime) in
  if waveTimer e >=? waveInterval e then
    let e := nextWave e in
    if (Z.rem (wave e) (bossWaveInterval (config e)) =? 0)%Z
    then spawnBoss e
    else ret e
  else ret e.

(** The "update player" block: integration, then the bounds policy of
    the mode. *)
Definition updatePlayer (e : t) (deltaTime : R) : t :=
  let p := Spaceship.update (player e) deltaTime in
  match mode (config e) with
  | lane_shooter => set_player e (clampUpdate (width e) p)
  | space_sim =>
      set_player e
        (Spaceship.set_body p
           (CollisionSystem.bounceOffBounds
              (Spaceship.body p) (Spaceship.width p) (Spaceship.height p)
              (width e) (height e) 0.5))
  end.

(** What [update] does once the asteroids have been handled and the
    player is still alive. *)
Definition updateRest (e : t) (deltaTime : R) : Rand t :=
  (e <- projectileLoop deltaTime (rev (projectiles e)) [] e ;;
   e <- powerUpLoop deltaTime (rev (powerUps e)) [] e ;;
   let e := comboTimer e deltaTime in
   let e := weaponTimer e deltaTime in
   e <- hazardLoop deltaTime (rev (hazards e)) [] e ;;
   e <- spawnTimer e deltaTime ;;
   e <- hazardTimer e deltaTime ;;
   waveProgression e deltaTime)%rand.

(** The "update asteroids" block; the flag tells whether the player was
    destroyed and [update] must stop. *)
Definition updateAsteroids (e : t) (deltaTime : R) : Rand (t * bool) :=
  ('(p, b, asts, lethal) <-
     asteroidLoop (height e) deltaTime (rev (asteroids e)) [] []
                  (player e) (bossSystem e) ;;
   ret (set_asteroids (set_bossSystem (set_player e p) b) asts, lethal))%rand.

Definition update (e : t) (deltaTime : R) : Rand t :=
  if negb (State_eqb (state e) playing) then ret e
  else
    let deltaTime := Rmin deltaTime 0.1 in
    let e := set_time e (time e + deltaTime) in
    (e <- handleInput e deltaTime ;;
     let e := updatePlayer e deltaTime in
     if Spaceship.isDestroyed (player e) then ret (gameOver e)
     else
       '(e, lethal) <- updateAsteroids e deltaTime ;;
       if lethal then ret (gameOver e)
       else updateRest e deltaTime)%rand.

End WithMath.

(** *** Commands *)

Definition start (e : t) : t :=
  let e := set_state e playing in
  let e := set_score e 0 in
  let e := set_wave e 1%Z in
  let e := set_kills e 0%nat in
  let e := set_time e 0 in
  let e := set_asteroids e [] in
  let e := set_projectiles e [] in
  let e := set_powerUps e [] in
  let e := set_hazards e [] in
  let c := config e in
  let c := cfg_set_asteroidSpawnRate c 2.0 in
  let c := cfg_set_maxAsteroids c 20 in
  let c := cfg_set_difficultyMultiplier c 1.0 in
  let c := match mode c with
           | lane_shooter => cfg_set_fixedPlayerY c (Some (height e - 100))
           | space_sim => c
           end in
  let e := set_config e c in
  let e := set_comboSystem e (mkCombo 0 0 3.0 1.0 8.0) in
  let e := set_bossSystem e (mkBoss false None 1 3) in
  let e := set_weaponSystem e (mkWeaponSystem default 0) in
  let us := upgradeSystem e in
  let e := set_upgradeSystem e
             (mkUpgradeSystem 1 0 100 (skillPoints us) (upgrades us)) in
  let e := setupPlayer e in
  match mode (config e), fixedPlayerY (config e) with
  | lane_shooter, Some fy =>
      let p := ship_set_pos (player e) (Vector2D.set_y (player_pos e) fy) in
      let b := PhysicsBody.set_angle (Spaceship.body p) 0 in
      let b := PhysicsBody.set_angularVelocity b 0 in
      set_player e (Spaceship.set_body p b)
  | _, _ => e
  end.

Definition pause (e : t) : t :=
  if State_eqb (state e) playing then set_state e paused else e.

Definition resume (e : t) : t :=
  if State_eqb (state e) paused then set_state e playing else e.

Definition resize (e : t) (width height : R) : t :=
  set_height (set_width e width) height.

(** Everything the outside world can do to the engine: the public
    commands, the bound input events ([key] is the lower-cased key name),
    and the firing of the oldest pending chain-reaction timeout. *)
Inductive Command :=
| Start
| Pause
| Resume
| Update (deltaTime : R)
| Resize (width height : R)
| KeyDown (key : string)
| KeyUp (key : string)
| MouseMove (x y : R)
| MouseDown
| MouseUp
| ChainTimer.

Definition setKey (e : t) (key : string) (v : bool) : t :=
  set_keys e (fun k => if String.eqb k key then v else keys e k).

Definition step `{MathLib} (e : t) (c : Command) : Rand t :=
  match c with
  | Start => ret (start e)
  | Pause => ret (pause e)
  | Resume => ret (resume e)
  | Update deltaTime => update e deltaTime
  | Resize w h => ret (resize e w h)
  | KeyDown key => ret (setKey e key true)
  | KeyUp key => ret (setKey e key false)
  | MouseMove x y => ret (set_mouse e (mkMouse x y (down (mouse e))))
  | MouseDown =>
      let e := set_mouse e
                 (mkMouse (mouse_x (mouse e)) (mouse_y (mouse e)) true) in
      if State_eqb (state e) playing then playerFire e else ret e
  | MouseUp =>
      ret (set_mouse e
             (mkMouse (mouse_x (mouse e)) (mouse_y (mouse e)) false))
  | ChainTimer =>
      match timeouts e with
      | [] => ret e
      | (position, radius) :: pending =>
          checkChainReaction (set_timeouts e pending) position radius
      end
  end.

(** A run: the commands of [cs] applied in order. *)
Fixpoint run `{MathLib} (e : t) (cs : list Command) : Rand t :=
  match cs with
  | [] => ret e
  | c :: cs' => (e <- step e c ;; run e cs')%rand
  end.

(** *** Lanes *)

(** [lanes], as the constructor computes it from the canvas width.  With a
    single lane the spacing is a division by zero, which JavaScript
    answers with an infinity or NaN; the definition is meant for the other
    lane counts. *)
Definition lanes (width : R) (c : Config) : list R :=
  let laneSpacing :=
    (width - lanePadding c * 2) / (INR (laneCount c) - 1) in
  map (fun i => lanePadding c + laneSpacing * INR i) (seq 0 (laneCount c)).

(** The [forEach] of [getCurrentLane]: [closestLane] and [minDist] so far,
    with [None] for the initial [Infinity]; [index] is the index of the
    next lane. *)
Fixpoint closestFrom (playerX : R) (lanes : list R) (index closestLane : nat)
    (minDist : option R) : nat :=
  match lanes with
  | [] => closestLane
  | laneX :: rest =>
      let dist := Rabs (playerX - laneX) in
      match minDist with
      | None => closestFrom playerX rest (S index) index (Some dist)
      | Some m =>
          if dist <? m
          then closestFrom playerX rest (S index) index (Some dist)
          else closestFrom playerX rest (S index) closestLane minDist
      end
  end.

(** [getCurrentLane] over the given lane array.  The constructor sets the
    player and nothing clears it, so the default for a missing player is
    never taken. *)
Definition getCurrentLane (lanes : list R) (e : t) : nat :=
  let playerX := Vector2D.x (player_pos e) in
  closestFrom playerX lanes 0 0 None.

End GameEngine.

(** ** SpaceLanesGame: the page controller around the engine

    Of the controller only what reaches the engine is kept: the size of
    the canvas, the lane guides and the resize handler.  The HUD, the
    overlay and the score storage are left out. *)

Module SpaceLanesGame.

Record Settings := mkSettings {
  laneCount : nat;
  lanePadding : R
}.

Record t := mk {
  engine : GameEngine.t;
  width : R;
  height : R;
  settings : Settings;
  lanes : list R
}.

(** The lane guides for a canvas of the given width (with a single lane
    the spacing is a division by zero, as in the engine's [lanes]). *)
Definition laneGuides (width : R) (st : Settings) : list R :=
  let laneSpacing :=
    (width - lanePadding st * 2) / (INR (laneCount st) - 1) in
  map (fun i => lanePadding st + laneSpacing * INR i)
      (seq 0 (laneCount st)).

(** [handleResize], for a canvas whose container has the given client
    size.  The star field, which only the renderer reads, is left out. *)
Definition handleResize (g : t) (clientWidth clientHeight : R) : t :=
  let width := clientWidth in
  let height := clientHeight in
  let e := engine g in
  let e := GameEngine.set_width e width in
  let e := GameEngine.set_height e height in
  let e :=
    match GameEngine.mode (GameEngine.config e) with
    | GameEngine.lane_shooter =>
        let fixedPlayerY := height - 100 in
        let e := GameEngine.set_config e
                   (GameEngine.cfg_set_fixedPlayerY (GameEngine.config e)
                                                    (Some fixedPlayerY)) in
        let p := GameEngine.player e in
        let p := GameEngine.ship_set_pos p
                   (Vector2D.set_y (GameEngine.ship_pos p) fixedPlayerY) in
        let margin := 50 in
        let p := GameEngine.ship_set_pos p
                   (Vector2D.set_x (GameEngine.ship_pos p)
                      (Rmax margin
                         (Rmin (width - margin)
                               (Vector2D.x (GameEngine.ship_pos p))))) in
        GameEngine.set_player e p
    | GameEngine.space_sim => e
    end in
  mk e width height (settings g) (laneGuides width (settings g)).

Definition getCurrentLane (g : t) : nat :=
  let playerX := Vector2D.x (GameEngine.player_pos (engine g)) in
  GameEngine.closestFrom playerX (lanes g) 0 0 None.

End SpaceLanesGame.

(** ** Vocabulary of the properties *)

(** The relative velocity along the collision normal, as
    [resolveCollision] computes it. *)
Definition velocityAlongNormal (a b : Body) : R :=
  Vector2D.dot
    (Vector2D.subtract (PhysicsBody.velocity b) (PhysicsBody.velocity a))
    (Vector2D.normalize
       (Vector2D.subtract (PhysicsBody.position b) (PhysicsBody.position a))).

(** Total momentum of two bodies. *)
Definition totalMomentum (a b : Body) : Vec :=
  Vector2D.add (PhysicsBody.getMomentum a) (PhysicsBody.getMomentum b).

(** The sum of a list of numbers. *)
Fixpoint total (dts : list R) : R :=
  match dts with
  | [] => 0
  | dt :: dts' => dt + total dts'
  end.

(** The ship after a list of frames. *)
Fixpoint updates `{MathLib} (s : Ship) (dts : list R) : Ship :=
  match dts with
  | [] => s
  | dt :: dts' => updates (Spaceship.update s dt) dts'
  end.

(** The size order of the data model, [small < medium < large < huge]:
    the class just below a given one, if any. *)
Definition nextSmaller (s : Asteroid.Size) : option Asteroid.Size :=
  match s with
  | Asteroid.huge => Some Asteroid.large
  | Asteroid.large => Some Asteroid.medium
  | Asteroid.medium => Some Asteroid.small
  | Asteroid.small => None
  end.

(** A computation that hands on a stream of unit draws whenever it is
    given one. *)
Definition keeps_unit {A} (m : Rand A) : Prop :=
  forall s, unit_draws s -> unit_draws (snd (m s)).

(** The player's horizontal position respects both margins. *)
Definition inBounds (e : GameEngine.t) : Prop :=
  GameEngine.margin <= Vector2D.x (GameEngine.player_pos e)
  /\ Vector2D.x (GameEngine.player_pos e)
     <= GameEngine.width e - GameEngine.margin.

(** Position, width and mode: what the phases after the player block
    must not touch. *)
Definition samePlace (e0 e : GameEngine.t) : Prop :=
  GameEngine.player_pos e = GameEngine.player_pos e0
  /\ GameEngine.width e = GameEngine.width e0
  /\ GameEngine.mode (GameEngine.config e)
     = GameEngine.mode (GameEngine.config e0).

(** Commands other than a resize of the playfield. *)
Definition notResize (c : GameEngine.Command) : Prop :=
  match c with
  | GameEngine.Resize _ _ => False
  | _ => True
  end.

(** An interpretation of the two library functions for positive bases,
    which is what the damping coefficients are. *)
Definition atan2 (y x : R) : R :=
  if 0 <? x then atan (y / x)
  else if x <? 0 then
    if 0 <=? y then atan (y / x) + PI else atan (y / x) - PI
  else if 0 <? y then PI / 2
  else if y <? 0 then - PI / 2
  else 0.

#[local] Instance realMath : MathLib :=
  {| Math_pow := Rpower; Math_atan2 := atan2; rnd := fun x => x |}.

(** What the statements about scores use of the rounding: it keeps the
    order of the exact results and leaves 0 and 1, which are numbers,
    alone.  Rounding to the nearest double does, and so does exact
    arithmetic. *)
Definition rounding `{MathLib} : Prop :=
  (forall x y, x <= y -> rnd x <= rnd y) /\ rnd 0 = 0 /\ rnd 1 = 1.

(** The combo invariant of the engine: the cap is the constant 8.0 and the
    multiplier is [min(1 + 0.1 * count, cap)], computed as
    [increaseCombo] computes it. *)
Definition comboInv `{MathLib} (e : GameEngine.t) : Prop :=
  let c := GameEngine.comboSystem e in
  GameEngine.maxMultiplier c = 8.0
  /\ GameEngine.multiplier c
     = Rmin (rnd (1.0 + rnd (INR (GameEngine.count c) * rnd 0.1)))
            (GameEngine.maxMultiplier c).

(** What the combo timer block does to the combo record alone. *)
Definition tick (c : GameEngine.ComboSystem) (dt : R)
  : GameEngine.ComboSystem :=
  if (0 <? GameEngine.count c)%nat then
    if GameEngine.timer c + dt >=? GameEngine.maxTime c
    then GameEngine.mkCombo 0 0 (GameEngine.maxTime c) 1.0
                            (GameEngine.maxMultiplier c)
    else GameEngine.mkCombo (GameEngine.count c) (GameEngine.timer c + dt)
                            (GameEngine.maxTime c) (GameEngine.multiplier c)
                            (GameEngine.maxMultiplier c)
  else c.

(** No kill: the kill counter only grows, and the combo record is only
    touched when it does. *)
Definition noKill (e0 e : GameEngine.t) : Prop :=
  (GameEngine.kills e0 <= GameEngine.kills e)%nat
  /\ (GameEngine.kills e = GameEngine.kills e0 ->
      GameEngine.comboSystem e = GameEngine.comboSystem e0)
  /\ GameEngine.state e = GameEngine.state e0.

(** How many boss asteroids are on the field. *)
Definition bossCount (l : list Asteroid.t) : nat :=
  List.length (filter Asteroid.isBoss l).

(** Bosses only leave the field, and the boss system is only touched when
    one does. *)
Definition bossRel (e0 e : GameEngine.t) : Prop :=
  (bossCount (GameEngine.asteroids e)
   <= bossCount (GameEngine.asteroids e0))%nat
  /\ (GameEngine.bossSystem e = GameEngine.bossSystem e0
      \/ (bossCount (GameEngine.asteroids e)
          < bossCount (GameEngine.asteroids e0))%nat).

(** Neither the boss system nor the asteroid array is touched. *)
Definition sameField (e0 e : GameEngine.t) : Prop :=
  GameEngine.asteroids e = GameEngine.asteroids e0
  /\ GameEngine.bossSystem e = GameEngine.bossSystem e0.

(** The boss system is untouched and as many bosses are on the field. *)
Definition sameBoss (e0 e : GameEngine.t) : Prop :=
  GameEngine.bossSystem e = GameEngine.bossSystem e0
  /\ bossCount (GameEngine.asteroids e)
     = bossCount (GameEngine.asteroids e0).

(** The health of a ship lies between 0 and its maximum. *)
Definition healthOk (s : Ship) : Prop :=
  0 <= Spaceship.health s <= Spaceship.maxHealth s.

(** The shield strength lies between 0 and its maximum, and a shield that
    is on has strength left. *)
Definition shieldOk (s : Ship) : Prop :=
  0 <= Spaceship.strength (Spaceship.shield s)
    <= Spaceship.maxStrength (Spaceship.shield s)
  /\ (Spaceship.active (Spaceship.shield s) = true ->
      0 < Spaceship.strength (Spaceship.shield s)).

(** A projectile and a power-up after a list of frames. *)
Fixpoint projectileFrames `{MathLib} (p : Projectile.t) (dts : list R)
  : Projectile.t :=
  match dts with
  | [] => p
  | dt :: dts' => projectileFrames (Projectile.update p dt) dts'
  end.

Fixpoint powerUpFrames `{MathLib} (p : PowerUp.t) (dts : list R)
  : PowerUp.t :=
  match dts with
  | [] => p
  | dt :: dts' => powerUpFrames (PowerUp.update p dt) dts'
  end.

(** What a frame never touches once the clock has been advanced. *)
Definition sameClock (e0 e : GameEngine.t) : Prop :=
  GameEngine.time e = GameEngine.time e0
  /\ GameEngine.width e = GameEngine.width e0
  /\ GameEngine.height e = GameEngine.height e0
  /\ GameEngine.mode (GameEngine.config e)
     = GameEngine.mode (GameEngine.config e0).

(** The combo record, the score and the kill counter are untouched. *)
Definition sameTally (e0 e : GameEngine.t) : Prop :=
  GameEngine.comboSystem e = GameEngine.comboSystem e0
  /\ GameEngine.score e = GameEngine.score e0
  /\ GameEngine.kills e = GameEngine.kills e0.

(** The test of the projectile loop: does [proj] touch [asteroid]? *)
Definition hits (proj : Projectile.t) (asteroid : Asteroid.t) : bool :=
  CollisionSystem.checkCircleCollision
    (Projectile.body proj) (Asteroid.body asteroid)
    (Projectile.width proj / 2) (Asteroid.radius asteroid).

(** What a chain reaction at [position] destroys: the asteroids closer
    than [radius] that 20 points of damage finish. *)
Definition chainHit (position : Vec) (radius : R) (a : Asteroid.t) : bool :=
  (Vector2D.distance position (GameEngine.asteroid_pos a) <? radius)
  && (Asteroid.health a - 20 <=? 0).

(** What the chain reaction adds to the score for one of them, at the
    multiplier [m]. *)
Definition chainAward `{MathLib} (m : R) (a : Asteroid.t) : R :=
  Math_floor (rnd (GameEngine.chainScoreMap (Asteroid.size a) * m)).

(** Two asteroids for examples: a huge rock as the constructor builds it,
    and a boss as [spawnBoss] builds it in wave 5, worn down to 20 points
    of health. *)
Definition hugeRock : Asteroid.t :=
  Asteroid.mk (PhysicsBody.new 0 0 4.0) Asteroid.huge 70 70 70
              "rgba(180, 150, 140, 0.9)"%string [] [] 0 100 0 false None.

Definition wornBoss : Asteroid.t :=
  Asteroid.mk (PhysicsBody.new 400 100 4.0) Asteroid.huge 105 20 450
              "#ff0055"%string [] [] 40 100 0 true (Some 1000).

(** * Properties *)

(** ** Comparison and draw lemmas *)

Lemma Rltb_true (a b : R) : (a <? b) = true <-> a < b.
Proof. unfold Rltb; destruct (Rlt_dec a b); split; intros; congruence || lra. Qed.

Lemma Rltb_false (a b : R) : (a <? b) = false <-> b <= a.
Proof. unfold Rltb; destruct (Rlt_dec a b); split; intros; congruence || lra. Qed.

Lemma Rleb_true (a b : R) : (a <=? b) = true <-> a <= b.
Proof. unfold Rleb; destruct (Rle_dec a b); split; intros; congruence || lra. Qed.

Lemma Rleb_false (a b : R) : (a <=? b) = false <-> b < a.
Proof. unfold Rleb; destruct (Rle_dec a b); split; intros; congruence || lra. Qed.

Lemma Reqb_true (a b : R) : (a =? b) = true <-> a = b.
Proof. unfold Reqb; destruct (Req_dec_T a b); split; intros; congruence. Qed.

Lemma Reqb_false (a b : R) : (a =? b) = false <-> a <> b.
Proof. unfold Reqb; destruct (Req_dec_T a b); split; intros; congruence. Qed.

(** Turn every boolean comparison of the context into the order fact. *)
Ltac cmp_facts :=
  repeat match goal with
    | H : (_ <? _) = true |- _ => apply Rltb_true in H
    | H : (_ <? _) = false |- _ => apply Rltb_false in H
    | H : (_ <=? _) = true |- _ => apply Rleb_true in H
    | H : (_ <=? _) = false |- _ => apply Rleb_false in H
    | H : (_ =? _) = true |- _ => apply Reqb_true in H
    | H : (_ =? _) = false |- _ => apply Reqb_false in H
    end.

(** Case split on the first comparison the goal branches on. *)
Ltac cmp_case :=
  match goal with
  | |- context [if ?a <? ?b then _ else _] =>
      let E := fresh "E" in destruct (a <? b) eqn:E
  | |- context [if ?a <=? ?b then _ else _] =>
      let E := fresh "E" in destruct (a <=? b) eqn:E
  | |- context [if ?a =? ?b then _ else _] =>
      let E := fresh "E" in destruct (a =? b) eqn:E
  end; cmp_facts.

Lemma Math_floor_bound (a : R) : Math_floor a <= a < Math_floor a + 1.
Proof. unfold Math_floor; apply Zfloor_bound. Qed.

Lemma Math_floor_mono (a b : R) : a <= b -> Math_floor a <= Math_floor b.
Proof.
  intros Hab; unfold Math_floor; apply IZR_le, Zfloor_lub.
  pose proof (Zfloor_bound a); lra.
Qed.

Lemma Math_floor_IZR (z : Z) : Math_floor (IZR z) = IZR z.
Proof.
  unfold Math_floor; f_equal.
  pose proof (Zfloor_bound (IZR z)) as [Hl Hu].
  apply le_IZR in Hl.
  assert (z < Zfloor (IZR z) + 1)%Z by (apply lt_IZR; rewrite plus_IZR; lra).
  lia.
Qed.

Lemma Math_floor_eq (z : Z) (a : R) :
  IZR z <= a < IZR z + 1 -> Math_floor a = IZR z.
Proof. intros Ha; unfold Math_floor; f_equal; now apply Zfloor_eq. Qed.

Lemma Math_floor_nonneg (a : R) : 0 <= a -> 0 <= Math_floor a.
Proof.
  intros Ha; change 0 with (IZR 0); rewrite <- (Math_floor_IZR 0).
  now apply Math_floor_mono.
Qed.

(** ** C1: the shield absorbs damage before the hull *)

Section ShieldPrecedence.
Import Spaceship.

(** With the shield down or empty, a ship that is not invulnerable takes
    the hit on the hull. *)
Lemma takeDamage_hull (s : t) (amount : R) :
  invulnerable s = false ->
  active (shield s) && (strength (shield s) >? 0) = false ->
  takeDamage s amount
  = (set_invulnerable (set_health s (Rmax 0 (health s - amount))) true 1.0,
     Rmax 0 (health s - amount) <=? 0).
Proof.
  intros Hi Hs; unfold takeDamage; rewrite Hi, Hs; reflexivity.
Qed.

Lemma takeDamage_invulnerable (s : t) (amount : R) :
  invulnerable s = true -> takeDamage s amount = (s, false).
Proof. intros Hi; unfold takeDamage; rewrite Hi; reflexivity. Qed.

(** The shield branch: the strength drops, and the shield goes off when it
    hits 0. *)
Lemma takeDamage_shield (s : t) (amount : R) :
  invulnerable s = false ->
  active (shield s) = true ->
  0 < strength (shield s) ->
  takeDamage s amount
  = (set_shield s
       (let st := Rmax 0 (strength (shield s) - amount) in
        mkShield (if st =? 0 then false else true) st
                 (maxStrength (shield s)) (regenRate (shield s))
                 (depletionRate (shield s)) (powerUpActive (shield s))
                 (powerUpTimer (shield s))),
     false).
Proof.
  intros Hi Ha Hs; unfold takeDamage.
  apply Rltb_true in Hs; rewrite Hi, Ha, Hs; cbn [andb].
  unfold shield_set_strength, shield_set_active; cbn.
  destruct (_ =? 0); rewrite ?Ha; reflexivity.
Qed.

(** C1.  While the shield is active with strength above 0, [takeDamage]
    returns "not destroyed", leaves the health (and everything but the
    shield's strength and its flag) as it was, and never raises the shield
    strength for a non-negative amount; unless the ship is inside its invulnerability
    window the new strength is [max(0, strength - amount)].  Once that
    strength has reached 0 the shield is switched off, and the next
    [takeDamage] lowers the health to [max(0, health - amount')] and leaves
    the shield alone. *)
Theorem shield_precedence (s : t) (amount : R) :
  active (shield s) = true ->
  0 < strength (shield s) ->
  let s1 := fst (takeDamage s amount) in
  snd (takeDamage s amount) = false
  /\ health s1 = health s
  /\ s1 = set_shield s (shield s1)
  /\ shield s1
     = mkShield (active (shield s1)) (strength (shield s1))
                (maxStrength (shield s)) (regenRate (shield s))
                (depletionRate (shield s)) (powerUpActive (shield s))
                (powerUpTimer (shield s))
  /\ (0 <= amount -> strength (shield s1) <= strength (shield s))
  /\ (invulnerable s = false ->
      strength (shield s1) = Rmax 0 (strength (shield s) - amount))
  /\ (strength (shield s1) = 0 ->
      active (shield s1) = false
      /\ forall amount',
           let s2 := fst (takeDamage s1 amount') in
           health s2 = Rmax 0 (health s - amount')
           /\ shield s2 = shield s1
           /\ snd (takeDamage s1 amount') = (health s2 <=? 0)).
Proof.
  intros Ha Hs s1; subst s1.
  destruct (invulnerable s) eqn:Hi.
  - (* inside the invulnerability window nothing changes *)
    rewrite takeDamage_invulnerable by assumption; cbn [fst snd].
    split; [reflexivity|]. split; [reflexivity|].
    split; [destruct s; reflexivity|].
    split; [destruct (shield s); reflexivity|].
    split; [intros; lra|].
    split; [intros; discriminate|].
    intros H0; lra.
  - rewrite takeDamage_shield by assumption; cbn [fst snd].
    set (st := Rmax 0 (strength (shield s) - amount)).
    assert (Hle : 0 <= amount -> st <= strength (shield s))
      by (intros; unfold st, Rmax; destruct (Rle_dec _ _); lra).
    split; [reflexivity|]. split; [reflexivity|].
    split; [destruct s; reflexivity|].
    split; [reflexivity|].
    split; [exact Hle|].
    split; [intros _; reflexivity|].
    cbn [shield set_shield strength active].
    intros Ez; apply Reqb_true in Ez; rewrite Ez.
    split; [reflexivity|].
    intros amount'.
    rewrite takeDamage_hull by (cbn; auto).
    cbn; auto.
Qed.

End ShieldPrecedence.

(** ** C2: the integrator *)

Section Integrator.
Import PhysicsBody.
Context `{MathLib}.

(** C2.  For a body that is not static, [update(dt)] is one semi-implicit
    Euler step: the acceleration is force times inverse mass, the velocity
    gains acceleration times dt and is then scaled by
    [linearDamping ^ (dt * 60)], the position gains the new velocity times
    dt, the angular terms follow the same pattern, and the force and torque
    accumulators are zero afterwards.  A static body is returned as it is,
    so its position, velocity and angle do not change. *)
Theorem update_semi_implicit_euler (b : t) (dt : R) :
  (isStatic b = false ->
   let b' := update b dt in
   acceleration b' = Vector2D.multiply (force b) (inverseMass b)
   /\ velocity b'
      = Vector2D.multiply
          (Vector2D.add (velocity b) (Vector2D.multiply (acceleration b') dt))
          (Math_pow (linearDamping b) (dt * 60))
   /\ position b'
      = Vector2D.add (position b) (Vector2D.multiply (velocity b') dt)
   /\ angularAcceleration b' = torque b * inverseMass b
   /\ angularVelocity b'
      = (angularVelocity b + angularAcceleration b' * dt)
        * Math_pow (angularDamping b) (dt * 60)
   /\ angle b' = angle b + angularVelocity b' * dt
   /\ force b' = Vector2D.mk 0 0
   /\ torque b' = 0
   /\ mass b' = mass b /\ inverseMass b' = inverseMass b
   /\ isStatic b' = false)
  /\ (isStatic b = true ->
      update b dt = b
      /\ position (update b dt) = position b
      /\ velocity (update b dt) = velocity b
      /\ angle (update b dt) = angle b).
Proof.
  split; intros Hs; unfold update; rewrite Hs.
  - cbn; repeat split; reflexivity || assumption.
  - repeat split; reflexivity.
Qed.

End Integrator.

(** ** C3: impulse resolution *)

Section Collision.
Import PhysicsBody CollisionSystem.

(** C3.  [resolveCollision] conserves the total momentum of two bodies
    that are not static and have a positive mass, with the inverse mass
    the constructor gives them (whatever the restitutions, so in particular
    when they are equal); it never changes the velocity of a static body;
    and when the relative velocity along the normal is positive (the bodies
    are separating) it leaves both bodies as they are. *)
Theorem resolveCollision_momentum (a b : Body) (restitution : R) :
  let a' := fst (resolveCollision a b restitution) in
  let b' := snd (resolveCollision a b restitution) in
  (isStatic a = false -> isStatic b = false ->
   0 < mass a -> 0 < mass b ->
   inverseMass a = 1 / mass a -> inverseMass b = 1 / mass b ->
   PhysicsBody.restitution a = PhysicsBody.restitution b ->
   mass a' = mass a /\ mass b' = mass b
   /\ totalMomentum a' b' = totalMomentum a b)
  /\ (isStatic a = true -> a' = a)
  /\ (isStatic b = true -> b' = b)
  /\ (velocityAlongNormal a b > 0 -> a' = a /\ b' = b).
Proof.
  intros a' b'; subst a' b'; unfold resolveCollision.
  fold (velocityAlongNormal a b).
  destruct (velocityAlongNormal a b >? 0) eqn:Esep; cmp_facts; cbn [fst snd].
  - (* separating: nothing is touched *)
    repeat split; auto.
  - split; [|split; [|split]].
    + intros Ha Hb Hma Hmb Hia Hib _; rewrite Ha, Hb; cbn [negb].
      split; [reflexivity|]. split; [reflexivity|].
      unfold totalMomentum, getMomentum, Vector2D.add, Vector2D.multiply.
      cbn; rewrite Hia, Hib.
      f_equal; field; lra.
    + intros Ha; rewrite Ha; reflexivity.
    + intros Hb; rewrite Hb; reflexivity.
    + intros Hpos; lra.
Qed.

End Collision.

(** ** C10: the invulnerability window *)

Section Invulnerability.
Import Spaceship.
Context `{MathLib}.

(** [update] moves the invulnerability flag and timer on their own. *)
Lemma update_invulnerability (s : t) (dt : R) :
  invulnerable (update s dt)
  = (if invulnerable s
     then negb (Rmax 0 (invulnerabilityTimer s - dt) =? 0)
     else false)
  /\ invulnerabilityTimer (update s dt)
     = (if invulnerable s then Rmax 0 (invulnerabilityTimer s - dt)
        else invulnerabilityTimer s).
Proof.
  unfold update.
  set (s1 := set_body (set_body s _) _).
  assert (H1 : invulnerable s1 = invulnerable s
               /\ invulnerabilityTimer s1 = invulnerabilityTimer s)
    by (split; reflexivity).
  clearbody s1.
  set (s2 := updatePowerUp s1 dt).
  assert (H2 : invulnerable s2 = invulnerable s1
               /\ invulnerabilityTimer s2 = invulnerabilityTimer s1).
  { subst s2; unfold updatePowerUp.
    destruct (powerUpActive (shield s1)); [|auto].
    destruct (_ <=? 0); auto. }
  clearbody s2.
  set (s3 := updateShield s2 dt).
  assert (H3 : invulnerable s3 = invulnerable s2
               /\ invulnerabilityTimer s3 = invulnerabilityTimer s2).
  { subst s3; unfold updateShield.
    destruct (active (shield s2)); [auto|].
    destruct (_ <? _); auto. }
  clearbody s3.
  set (s4 := updateCooldown s3 dt).
  assert (H4 : invulnerable s4 = invulnerable s3
               /\ invulnerabilityTimer s4 = invulnerabilityTimer s3).
  { subst s4; unfold updateCooldown; destruct (_ <? _); auto. }
  clearbody s4.
  assert (Hi : invulnerable s4 = invulnerable s) by (intuition congruence).
  assert (Ht : invulnerabilityTimer s4 = invulnerabilityTimer s)
    by (intuition congruence).
  clear H1 H2 H3 H4.
  unfold updateTrail.
  destruct (_ && _); cbn -[Rmax]; unfold updateInvulnerability;
    rewrite Hi; destruct (invulnerable s); cbn -[Rmax]; rewrite ?Ht;
    try (destruct (_ =? 0); cbn; auto); auto.
Qed.

(** Once the flag is down no frame raises it. *)
Lemma updates_vulnerable (dts : list R) :
  forall s, invulnerable s = false -> invulnerable (updates s dts) = false.
Proof.
  induction dts as [|dt dts IH]; intros s Hs; cbn [updates]; [exact Hs|].
  apply IH. destruct (update_invulnerability s dt) as [E _].
  rewrite E, Hs; reflexivity.
Qed.

(** Inside the window a frame takes its length off the timer, and the
    window survives the frame exactly when time is left afterwards. *)
Lemma update_window (s : t) (dt : R) :
  invulnerable s = true ->
  invulnerabilityTimer (update s dt) = Rmax 0 (invulnerabilityTimer s - dt)
  /\ (invulnerable (update s dt) = true <-> dt < invulnerabilityTimer s).
Proof.
  intros Hi.
  destruct (update_invulnerability s dt) as [Ui Ut]; rewrite Hi in Ui, Ut.
  split; [exact Ut|]. rewrite Ui.
  destruct (Rle_dec (invulnerabilityTimer s) dt) as [Hle|Hgt].
  - assert (Hz : Rmax 0 (invulnerabilityTimer s - dt) = 0)
      by (unfold Rmax; destruct (Rle_dec _ _); lra).
    rewrite Hz, (proj2 (Reqb_true 0 0) eq_refl).
    split; [discriminate | lra].
  - assert (Hp : Rmax 0 (invulnerabilityTimer s - dt)
                 = invulnerabilityTimer s - dt)
      by (unfold Rmax; destruct (Rle_dec _ _); lra).
    rewrite Hp, (proj2 (Reqb_false _ 0)) by lra.
    split; [lra | reflexivity].
Qed.

(** C10.  A ship whose invulnerable flag is set is returned unchanged by
    [takeDamage], with "not destroyed", for any amount: health, shield
    strength and shield flag stay.  A ship outside the window enters it
    exactly when the hit reaches the hull (shield off or empty), with the
    timer at 1.0; a shield-absorbed hit leaves the flag down.  The length
    of the window is kept by that timer: inside the window every [update]
    takes the length of its frame off the timer, stopping at 0, and the
    window survives the frame exactly when the frame is shorter than the
    time that was left, so the first frame after a hull hit keeps it open
    exactly when it is shorter than 1.0.  [update] never raises the flag,
    over any number of frames. *)
Theorem invulnerability_window (s : t) (amount : R) :
  (invulnerable s = true ->
   takeDamage s amount = (s, false)
   /\ health (fst (takeDamage s amount)) = health s
   /\ strength (shield (fst (takeDamage s amount))) = strength (shield s)
   /\ active (shield (fst (takeDamage s amount))) = active (shield s))
  /\ (invulnerable s = false ->
      let s1 := fst (takeDamage s amount) in
      let absorbed := active (shield s) && (strength (shield s) >? 0) in
      invulnerable s1 = negb absorbed
      /\ (absorbed = true -> health s1 = health s)
      /\ (absorbed = false ->
          health s1 = Rmax 0 (health s - amount)
          /\ invulnerabilityTimer s1 = 1.0
          /\ forall dt,
               invulnerabilityTimer (update s1 dt) = Rmax 0 (1.0 - dt)
               /\ (invulnerable (update s1 dt) = true <-> dt < 1.0)))
  /\ (forall dt, invulnerable s = false ->
                 invulnerable (update s dt) = false)
  /\ (forall dt, invulnerable s = true ->
        invulnerabilityTimer (update s dt)
        = Rmax 0 (invulnerabilityTimer s - dt)
        /\ (invulnerable (update s dt) = true
            <-> dt < invulnerabilityTimer s))
  /\ (forall dts, invulnerable s = false ->
                  invulnerable (updates s dts) = false).
Proof.
  split; [|split; [|split; [|split]]].
  - intros Hi; rewrite takeDamage_invulnerable by assumption; auto.
  - intros Hi s1 absorbed; subst s1.
    destruct absorbed eqn:Eabs; subst absorbed.
    + unfold takeDamage; rewrite Hi, Eabs; cbn [fst negb].
      split; [|split]; [| |discriminate].
      * destruct (_ =? 0); exact Hi.
      * intros _; destruct (_ =? 0); reflexivity.
    + rewrite takeDamage_hull by assumption; cbn [fst negb].
      split; [reflexivity|]. split; [discriminate|].
      intros _; split; [reflexivity|]. split; [reflexivity|].
      intros dt.
      match goal with
      | |- context [update ?u dt] =>
          destruct (update_window u dt eq_refl) as [Et Ei];
          change (invulnerabilityTimer u) with 1.0 in Et, Ei
      end.
      split; [exact Et | exact Ei].
  - intros dt Hi.
    destruct (update_invulnerability s dt) as [E _]; rewrite E, Hi.
    reflexivity.
  - intros dt Hi; now apply update_window.
  - intros dts Hi; now apply updates_vulnerable.
Qed.

End Invulnerability.

(** ** Draws *)

Lemma keeps_ret {A} (a : A) : keeps_unit (ret a).
Proof. intros s Hs; exact Hs. Qed.

Lemma keeps_random : keeps_unit random.
Proof. intros s Hs n; apply (Hs (S n)). Qed.

Lemma keeps_bind {A B} (m : Rand A) (k : A -> Rand B) :
  keeps_unit m -> (forall a, keeps_unit (k a)) -> keeps_unit (bind m k).
Proof.
  intros Hm Hk s Hs; unfold bind.
  specialize (Hm s Hs); destruct (m s) as [a s']; cbn in *.
  now apply Hk.
Qed.

Lemma keeps_mapR {A B} (f : A -> Rand B) (l : list A) :
  (forall a, keeps_unit (f a)) -> keeps_unit (mapR f l).
Proof.
  intros Hf; induction l as [|a l IH]; cbn [mapR].
  - apply keeps_ret.
  - apply keeps_bind; [apply Hf|]; intros b.
    apply keeps_bind; [exact IH|]; intros bs; apply keeps_ret.
Qed.

Lemma bind_fst {A B} (m : Rand A) (k : A -> Rand B) (s : Stream) :
  bind m k s = k (fst (m s)) (snd (m s)).
Proof. unfold bind; destruct (m s); reflexivity. Qed.

Lemma mapR_length {A B} (f : A -> Rand B) (l : list A) (s : Stream) :
  List.length (fst (mapR f l s)) = List.length l.
Proof.
  revert s; induction l as [|a l IH]; intros s; cbn [mapR]; [reflexivity|].
  rewrite !bind_fst; cbn; now rewrite IH.
Qed.

(** What holds of every result of [f] on unit draws holds of every
    element [mapR] returns. *)
Lemma mapR_Forall {A B} (P : B -> Prop) (f : A -> Rand B) (l : list A) :
  (forall a, keeps_unit (f a)) ->
  (forall a s, unit_draws s -> P (fst (f a s))) ->
  forall s, unit_draws s -> Forall P (fst (mapR f l s)).
Proof.
  intros Hk HP; induction l as [|a l IH]; intros s Hs; cbn [mapR].
  - constructor.
  - rewrite !bind_fst; cbn; constructor.
    + now apply HP.
    + apply IH, Hk, Hs.
Qed.

Ltac keeps :=
  repeat first
    [ apply keeps_ret
    | apply keeps_random
    | apply keeps_mapR; intros
    | apply keeps_bind; [|intros]
    | match goal with
      | |- keeps_unit (if ?c then _ else _) => destruct c
      | |- keeps_unit (match ?c with _ => _ end) => destruct c
      | |- keeps_unit (let (_, _) := ?c in _) => destruct c
      end
    | assumption ].

(** ** C4: splitting an asteroid *)

Section Split.
Import Asteroid.

Lemma keeps_getRandomColor : keeps_unit getRandomColor.
Proof. unfold getRandomColor; keeps. Qed.

Lemma keeps_generateShape (r : R) : keeps_unit (generateShape r).
Proof. unfold generateShape; keeps. Qed.

Lemma keeps_new (x y : R) (sz : Size) (v : option Vec) :
  keeps_unit (new x y sz v).
Proof.
  unfold new; keeps;
    auto using keeps_getRandomColor, keeps_generateShape.
Qed.

Lemma keeps_fragment (a : t) (sz : Size) (count : Z) (i : nat) :
  keeps_unit (fragment a sz count i).
Proof. unfold fragment; keeps; apply keeps_new. Qed.

Lemma keeps_split (a : t) : keeps_unit (split a).
Proof. unfold split; keeps; apply keeps_fragment. Qed.

Lemma keeps_takeDamage (a : t) (amount : R) :
  keeps_unit (takeDamage a amount).
Proof. unfold takeDamage; keeps. Qed.

(** The fields the constructor fixes, whatever the draws. *)
Lemma new_fields (x y : R) (sz : Size) (v : Vec) (s : Stream) :
  let a := fst (new x y sz (Some v) s) in
  size a = sz
  /\ radius a = sizeMap sz
  /\ PhysicsBody.position (body a) = Vector2D.mk x y
  /\ PhysicsBody.velocity (body a) = v
  /\ isBoss a = false.
Proof.
  unfold new; rewrite !bind_fst; cbn.
  repeat split.
  - unfold num_or; destruct (_ =? 0) eqn:E; [|reflexivity].
    apply Reqb_true in E; destruct sz; cbn in E; lra.
  - destruct v; reflexivity.
Qed.

(** A draw in [0, 1) makes [2 + floor(r * 2)] two or three. *)
Lemma fragment_count (r : R) :
  0 <= r < 1 -> (2 + Zfloor (r * 2) = 2 \/ 2 + Zfloor (r * 2) = 3)%Z.
Proof.
  intros Hr; pose proof (Zfloor_bound (r * 2)) as [Hl Hu].
  assert (-1 < Zfloor (r * 2))%Z by (apply lt_IZR; lra).
  assert (Zfloor (r * 2) < 2)%Z by (apply lt_IZR; lra).
  lia.
Qed.

(** C4.  On unit draws, [split] returns no fragment for an asteroid of
    size [small]; for an asteroid of any other size it returns two or
    three fragments, all of the next-smaller size class (so a [medium]
    asteroid yields two or three [small] ones).  Each fragment moves with
    the parent's velocity plus a kick of speed in [50, 150) along some
    angle, and sits at the parent's position moved by half the parent's
    radius along that same angle. *)
Theorem split_fragments (a : t) (s : Stream) :
  unit_draws s ->
  let frags := fst (split a s) in
  (size a = small -> frags = [])
  /\ (forall newSize, nextSmaller (size a) = Some newSize ->
      (List.length frags = 2%nat \/ List.length frags = 3%nat)
      /\ Forall
           (fun f =>
              size f = newSize
              /\ exists angle speed,
                   50 <= speed < 150
                   /\ PhysicsBody.velocity (body f)
                      = Vector2D.add (Vector2D.fromAngle angle speed)
                                     (PhysicsBody.velocity (body a))
                   /\ PhysicsBody.position (body f)
                      = Vector2D.add (PhysicsBody.position (body a))
                          (Vector2D.fromAngle angle (radius a * 0.5)))
           frags)
  /\ (size a = medium ->
      (List.length frags = 2%nat \/ List.length frags = 3%nat)
      /\ Forall (fun f => size f = small) frags).
Proof.
  intros Hs frags.
  assert (Hmain : forall newSize, nextSmaller (size a) = Some newSize ->
      (List.length frags = 2%nat \/ List.length frags = 3%nat)
      /\ Forall
           (fun f =>
              size f = newSize
              /\ exists angle speed,
                   50 <= speed < 150
                   /\ PhysicsBody.velocity (body f)
                      = Vector2D.add (Vector2D.fromAngle angle speed)
                                     (PhysicsBody.velocity (body a))
                   /\ PhysicsBody.position (body f)
                      = Vector2D.add (PhysicsBody.position (body a))
                          (Vector2D.fromAngle angle (radius a * 0.5)))
           frags).
  { intros newSize Hnext; subst frags; unfold split.
    assert (Hbranch :
      (indexOf sizeHierarchy (size a) <? List.length sizeHierarchy - 1)%nat
      = true
      /\ nth_error sizeHierarchy (indexOf sizeHierarchy (size a) + 1)
         = Some newSize).
    { destruct (size a); cbn in Hnext |- *; try discriminate;
        inversion Hnext; subst; split; reflexivity. }
    destruct Hbranch as [Hlt Hnth]; rewrite Hlt, Hnth.
    rewrite bind_fst; cbn [random fst snd].
    split.
    - rewrite mapR_length, length_seq.
      destruct (fragment_count (s 0%nat) (Hs 0%nat)) as [E|E]; rewrite E;
        [left | right]; reflexivity.
    - apply mapR_Forall.
      + intros i; apply keeps_fragment.
      + intros i s' Hs'; unfold fragment.
        rewrite !bind_fst; cbn [random fst snd].
        match goal with
        | |- context [new ?x ?y ?sz (Some ?v) ?st] =>
            destruct (new_fields x y sz v st) as (Hsz & _ & Hp & Hv & _)
        end.
        split; [exact Hsz|].
        eexists _, (50 + s' 1%nat * 100); split; [|split].
        * specialize (Hs' 1%nat); lra.
        * rewrite Hv; reflexivity.
        * rewrite Hp; reflexivity.
      + apply (keeps_random s Hs). }
  split; [|split].
  - intros Hsmall; subst frags; unfold split; rewrite Hsmall; reflexivity.
  - exact Hmain.
  - intros Hmed.
    destruct (Hmain small) as [Hlen Hall]; [rewrite Hmed; reflexivity|].
    split; [exact Hlen|].
    eapply Forall_impl; [|exact Hall]; cbn; intros f [Hf _]; exact Hf.
Qed.

End Split.

(** ** Frame lemmas for the engine

    [Rel e0 e] relates the engine [e0] at some earlier point with the
    engine [e] now.  Each hypothesis says that one primitive mutation keeps
    the relation; each lemma lifts that to an engine routine, for every
    stream of draws. *)

Section Frame.
Import GameEngine.
Context `{MathLib}.
Variable Rel : t -> t -> Prop.

Hypothesis Rel_score : forall e0 e v, Rel e0 e -> Rel e0 (set_score e v).
Hypothesis Rel_kills :
  forall e0 e, Rel e0 e -> Rel e0 (set_kills e (S (kills e))).
Hypothesis Rel_asteroids :
  forall e0 e l, Rel e0 e -> Rel e0 (set_asteroids e l).
Hypothesis Rel_projectiles :
  forall e0 e l, Rel e0 e -> Rel e0 (set_projectiles e l).
Hypothesis Rel_powerUps :
  forall e0 e l, Rel e0 e -> Rel e0 (set_powerUps e l).
Hypothesis Rel_hazards : forall e0 e l, Rel e0 e -> Rel e0 (set_hazards e l).
Hypothesis Rel_timeouts :
  forall e0 e l, Rel e0 e -> Rel e0 (set_timeouts e l).
Hypothesis Rel_upgradeSystem :
  forall e0 e u, Rel e0 e -> Rel e0 (set_upgradeSystem e u).
Hypothesis Rel_weaponSystem :
  forall e0 e w, Rel e0 e -> Rel e0 (set_weaponSystem e w).
Hypothesis Rel_bossSystem :
  forall e0 e b, Rel e0 e -> Rel e0 (set_bossSystem e b).
Hypothesis Rel_player :
  forall e0 e p, Rel e0 e -> ship_pos p = ship_pos (player e) ->
                 Rel e0 (set_player e p).
Hypothesis Rel_maxSpeedX :
  forall e0 e v, Rel e0 e ->
                 Rel e0 (set_config e (cfg_set_maxSpeedX (config e) v)).
Hypothesis Rel_scoreKill :
  forall e0 e a, Rel e0 e -> Rel e0 (scoreKill e a).
Hypothesis Rel_comboTimer :
  forall e0 e dt, Rel e0 e -> Rel e0 (comboTimer e dt).
Hypothesis Rel_asteroidSpawnTimer :
  forall e0 e v, Rel e0 e -> Rel e0 (set_asteroidSpawnTimer e v).
Hypothesis Rel_hazardSpawnTimer :
  forall e0 e v, Rel e0 e -> Rel e0 (set_hazardSpawnTimer e v).
Hypothesis Rel_waveTimer :
  forall e0 e v, Rel e0 e -> Rel e0 (set_waveTimer e v).
Hypothesis Rel_nextWave : forall e0 e, Rel e0 e -> Rel e0 (nextWave e).

(** One syntax-directed step through a routine in the draw monad. *)
Ltac fr_step :=
  lazy beta;
  match goal with
  | |- Rel _ (fst (ret _ _)) => unfold ret at 1; cbn [fst]
  | |- Rel _ (fst (bind ?m ?k ?s)) => rewrite (bind_fst m k s)
  | |- Rel _ (fst ((let x := _ in _) _)) => lazy zeta
  | |- Rel _ (fst ((if ?c then _ else _) _)) => destruct c eqn:?
  | |- Rel _ (fst (match ?c with _ => _ end _)) => destruct c eqn:?
  | |- Rel _ (let x := _ in _) => lazy zeta
  | |- Rel _ (if ?c then _ else _) => destruct c eqn:?
  | |- Rel _ (match ?c with _ => _ end) => destruct c eqn:?
  end.

(** Close a leaf: the relation across a stack of primitive mutations. *)
Ltac fr_leaf := solve [auto 12].

Lemma frame_autoUpgrade e0 e s :
  Rel e0 e -> Rel e0 (fst (autoUpgrade e s)).
Proof.
  intros HR; unfold autoUpgrade; repeat fr_step; fr_leaf.
Qed.

Lemma frame_levelUps fuel e0 e s :
  Rel e0 e -> Rel e0 (fst (levelUps fuel e s)).
Proof.
  revert e s; induction fuel as [|fuel IH]; intros e s HR; cbn [levelUps].
  - exact HR.
  - repeat fr_step; auto. apply IH, frame_autoUpgrade; auto.
Qed.

Lemma frame_addExperience e0 e amount s :
  Rel e0 e -> Rel e0 (fst (addExperience e amount s)).
Proof. intros HR; unfold addExperience; apply frame_levelUps; auto. Qed.

Lemma frame_playerFire e0 e s :
  Rel e0 e -> Rel e0 (fst (playerFire e s)).
Proof.
  intros HR; unfold playerFire.
  assert (Hfire : forall p, ship_pos (fst (Spaceship.fire p)) = ship_pos p).
  { intros p; unfold Spaceship.fire; destruct (_ <? _); reflexivity. }
  match goal with
  | |- context [Spaceship.fire ?p] =>
      specialize (Hfire p); destruct (Spaceship.fire p) as [p' pd]
  end.
  cbn [fst] in Hfire.
  assert (HR' : Rel e0 (set_player e p'))
    by (apply Rel_player; [exact HR | rewrite Hfire; reflexivity]).
  destruct pd as [pd|]; [|exact HR'].
  repeat fr_step; fr_leaf.
Qed.

Lemma frame_fireKeys e0 e s : Rel e0 e -> Rel e0 (fst (fireKeys e s)).
Proof.
  intros HR; unfold fireKeys; destruct (_ || _); [|exact HR].
  now apply frame_playerFire.
Qed.

Lemma frame_shieldKeys e0 e : Rel e0 e -> Rel e0 (shieldKeys e).
Proof.
  intros HR; unfold shieldKeys; destruct (_ || _); apply Rel_player; auto.
  unfold Spaceship.activateShield; destruct (_ <? _); reflexivity.
Qed.

Lemma frame_spawnPowerUp e0 e x y s :
  Rel e0 e -> Rel e0 (fst (spawnPowerUp e x y s)).
Proof. intros HR; unfold spawnPowerUp; repeat fr_step; fr_leaf. Qed.

Lemma frame_spawnAsteroid e0 e s :
  Rel e0 e -> Rel e0 (fst (spawnAsteroid e s)).
Proof. intros HR; unfold spawnAsteroid; repeat fr_step; fr_leaf. Qed.

Lemma frame_spawnBoss e0 e s : Rel e0 e -> Rel e0 (fst (spawnBoss e s)).
Proof. intros HR; unfold spawnBoss; repeat fr_step; fr_leaf. Qed.

Lemma frame_spawnHazard e0 e s : Rel e0 e -> Rel e0 (fst (spawnHazard e s)).
Proof. intros HR; unfold spawnHazard; repeat fr_step; fr_leaf. Qed.

Lemma frame_chainLoop position radius todo :
  forall kept frags e0 e s,
    Rel e0 e -> Rel e0 (fst (chainLoop position radius todo kept frags e s)).
Proof.
  induction todo as [|a todo IH]; intros kept frags e0 e s HR;
    cbn [chainLoop].
  - fr_step; fr_leaf.
  - repeat fr_step; apply IH; fr_leaf.
Qed.

Lemma frame_checkChainReaction e0 e position radius s :
  Rel e0 e -> Rel e0 (fst (checkChainReaction e position radius s)).
Proof. intros HR; now apply frame_chainLoop. Qed.

Lemma frame_collectPowerUp e0 e p s :
  Rel e0 e -> Rel e0 (fst (collectPowerUp e p s)).
Proof.
  intros HR; unfold collectPowerUp.
  fr_step; apply frame_addExperience, Rel_score.
  repeat fr_step; try fr_leaf.
  apply Rel_player; [exact HR|].
  unfold Spaceship.activateShield; destruct (_ <? _); reflexivity.
Qed.

Lemma frame_bossPowerUps k a :
  forall e0 e s, Rel e0 e -> Rel e0 (fst (bossPowerUps k a e s)).
Proof.
  induction k as [|k IH]; intros e0 e s HR; cbn [bossPowerUps];
    [exact HR|].
  repeat fr_step; apply IH, frame_spawnPowerUp, HR.
Qed.

Lemma frame_onKill e0 e a before after s :
  Rel e0 e -> Rel e0 (fst (onKill e a before after s)).
Proof.
  intros HR; unfold onKill.
  do 3 fr_step.
  apply frame_checkChainReaction.
  destruct (Asteroid.isBoss a); cbn [negb].
  - fr_step. apply Rel_asteroids, frame_bossPowerUps, Rel_bossSystem,
      frame_addExperience, Rel_scoreKill, HR.
  - repeat fr_step;
      try apply frame_spawnPowerUp;
      apply Rel_asteroids, frame_addExperience, Rel_scoreKill, HR.
Qed.

Lemma frame_projectileLoop dt todo :
  forall kept e0 e s,
    Rel e0 e -> Rel e0 (fst (projectileLoop dt todo kept e s)).
Proof.
  induction todo as [|p todo IH]; intros kept e0 e s HR;
    cbn [projectileLoop].
  - fr_step; fr_leaf.
  - repeat fr_step; apply IH; repeat fr_step;
      try apply frame_onKill; fr_leaf.
Qed.

Lemma frame_powerUpLoop dt todo :
  forall kept e0 e s,
    Rel e0 e -> Rel e0 (fst (powerUpLoop dt todo kept e s)).
Proof.
  induction todo as [|p todo IH]; intros kept e0 e s HR;
    cbn [powerUpLoop].
  - fr_step; fr_leaf.
  - repeat fr_step; apply IH; repeat fr_step;
      try apply frame_collectPowerUp; fr_leaf.
Qed.

Lemma frame_updateHazard e0 e h dt s :
  Rel e0 e -> Rel e0 (snd (fst (updateHazard e h dt s))).
Proof.
  intros HR; unfold updateHazard.
  destruct (h_type h).
  - destruct (_ && _); cbn [ret fst snd];
      lazy zeta; destruct (_ || _); auto.
  - destruct (_ <? _); cbn [ret fst snd]; auto.
  - lazy zeta; destruct (_ <=? _); cbn [ret fst snd]; auto.
    rewrite !bind_fst; cbn [ret fst snd]; auto.
Qed.

Lemma frame_hazardLoop dt todo :
  forall kept e0 e s,
    Rel e0 e -> Rel e0 (fst (hazardLoop dt todo kept e s)).
Proof.
  induction todo as [|h todo IH]; intros kept e0 e s HR;
    cbn [hazardLoop].
  - fr_step; fr_leaf.
  - lazy zeta.
    destruct (_ <=? _); [now apply IH|].
    assert (Hgo : Rel e0
              (fst ((' (hazard, e) <-
                       updateHazard e (h_set_timer h (h_timer h + dt)) dt;;
                     hazardLoop dt todo (hazard :: kept) e)%rand s))).
    { rewrite bind_fst.
      match goal with
      | |- context [updateHazard ?e ?h ?dt ?s] =>
          pose proof (frame_updateHazard e0 e h dt s HR) as HU;
          destruct (updateHazard e h dt s) as [[h' e'] s']
      end.
      cbn [fst snd] in *; now apply IH. }
    destruct (mode (config e)); [|exact Hgo].
    destruct (_ <? _); [now apply IH | exact Hgo].
Qed.


Lemma frame_weaponTimer e0 e dt : Rel e0 e -> Rel e0 (weaponTimer e dt).
Proof. intros HR; unfold weaponTimer; repeat fr_step; fr_leaf. Qed.

Lemma frame_spawnTimer e0 e dt s :
  Rel e0 e -> Rel e0 (fst (spawnTimer e dt s)).
Proof.
  intros HR; unfold spawnTimer; repeat fr_step;
    try apply frame_spawnAsteroid; fr_leaf.
Qed.

Lemma frame_hazardTimer e0 e dt s :
  Rel e0 e -> Rel e0 (fst (hazardTimer e dt s)).
Proof.
  intros HR; unfold hazardTimer; repeat fr_step;
    try apply frame_spawnHazard; fr_leaf.
Qed.

Lemma frame_waveProgression e0 e dt s :
  Rel e0 e -> Rel e0 (fst (waveProgression e dt s)).
Proof.
  intros HR; unfold waveProgression; repeat fr_step;
    try apply frame_spawnBoss; fr_leaf.
Qed.

Lemma frame_updateRest e0 e dt s :
  Rel e0 e -> Rel e0 (fst (updateRest e dt s)).
Proof.
  intros HR; unfold updateRest; repeat fr_step.
  apply frame_waveProgression, frame_hazardTimer, frame_spawnTimer,
    frame_hazardLoop, frame_weaponTimer, Rel_comboTimer,
    frame_powerUpLoop, frame_projectileLoop, HR.
Qed.

(** [takeDamage] leaves the ship where it is. *)
Lemma takeDamage_pos (p : Ship) (amount : R) :
  ship_pos (fst (Spaceship.takeDamage p amount)) = ship_pos p.
Proof.
  unfold Spaceship.takeDamage.
  destruct (Spaceship.invulnerable p); [reflexivity|].
  destruct (_ && _); reflexivity.
Qed.

Lemma asteroidLoop_pos height dt todo :
  forall kept frags p b s,
    ship_pos (fst (fst (fst (fst (asteroidLoop height dt todo kept frags
                                               p b s)))))
    = ship_pos p.
Proof.
  induction todo as [|a todo IH]; intros kept frags p b s;
    cbn [asteroidLoop]; [reflexivity|].
  lazy zeta.
  destruct (_ <? _); [apply IH|].
  destruct (CollisionSystem.checkCircleCollision _ _ _ _); [|apply IH].
  pose proof (takeDamage_pos p
                (num_or (Asteroid.damage (Asteroid.update a dt)) 20)) as Hp.
  destruct (Spaceship.takeDamage p _) as [p' destroyed]; cbn [fst] in Hp.
  rewrite bind_fst; destruct destroyed; cbn [ret fst].
  - exact Hp.
  - rewrite IH; exact Hp.
Qed.

Lemma frame_updateAsteroids e0 e dt s :
  Rel e0 e -> Rel e0 (fst (fst (updateAsteroids e dt s))).
Proof.
  intros HR; unfold updateAsteroids; rewrite bind_fst.
  pose proof (asteroidLoop_pos (height e) dt (rev (asteroids e)) [] []
                (player e) (bossSystem e) s) as Hp.
  destruct (asteroidLoop _ _ _ _ _ _ _ s) as [[[[p b] asts] lethal] s'].
  cbn [fst snd ret] in *.
  apply Rel_asteroids, Rel_bossSystem, Rel_player; auto.
Qed.

(** The routines that move the player need the relation to survive any
    change of the ship. *)
Hypothesis Rel_anyPlayer :
  forall e0 e p, Rel e0 e -> Rel e0 (set_player e p).
Hypothesis Rel_laneMovement :
  forall e0 e l, Rel e0 e -> Rel e0 (set_laneMovement e l).
Hypothesis Rel_time : forall e0 e v, Rel e0 e -> Rel e0 (set_time e v).
Hypothesis Rel_gameOver : forall e0 e, Rel e0 e -> Rel e0 (gameOver e).

Lemma frame_handleInput e0 e dt s :
  Rel e0 e -> Rel e0 (fst (handleInput e dt s)).
Proof.
  intros HR; unfold handleInput.
  destruct (negb _); [exact HR|].
  destruct (mode (config e)); lazy zeta; rewrite bind_fst; cbn [ret fst].
  - unfold laneLock; apply Rel_anyPlayer, frame_shieldKeys,
      frame_fireKeys, Rel_anyPlayer, Rel_laneMovement, HR.
  - apply frame_shieldKeys, frame_fireKeys.
    unfold simMove; apply Rel_anyPlayer, HR.
Qed.

Lemma frame_updatePlayer e0 e dt : Rel e0 e -> Rel e0 (updatePlayer e dt).
Proof.
  intros HR; unfold updatePlayer; destruct (mode (config e));
    apply Rel_anyPlayer, HR.
Qed.

Lemma frame_update e0 e dt s : Rel e0 e -> Rel e0 (fst (update e dt s)).
Proof.
  intros HR; unfold update.
  destruct (negb _); [exact HR|].
  lazy zeta; rewrite bind_fst.
  set (e1 := updatePlayer _ _).
  assert (H1 : Rel e0 e1)
    by (apply frame_updatePlayer, frame_handleInput, Rel_time, HR).
  clearbody e1.
  destruct (Spaceship.isDestroyed (player e1)); [now apply Rel_gameOver|].
  rewrite bind_fst.
  match goal with
  | |- context [updateAsteroids e1 ?d ?st] =>
      pose proof (frame_updateAsteroids e0 e1 d st H1) as H2;
      destruct (updateAsteroids e1 d st) as [[e2 lethal] s2]
  end.
  cbn [fst snd] in *.
  destruct lethal; [now apply Rel_gameOver|].
  now apply frame_updateRest.
Qed.

Lemma frame_step e0 e c s :
  (forall e0 e, Rel e0 e -> Rel e0 (start e)) ->
  (forall e0 e, Rel e0 e -> Rel e0 (pause e)) ->
  (forall e0 e, Rel e0 e -> Rel e0 (resume e)) ->
  (forall e0 e w h, Rel e0 e -> Rel e0 (resize e w h)) ->
  (forall e0 e k, Rel e0 e -> Rel e0 (set_keys e k)) ->
  (forall e0 e m, Rel e0 e -> Rel e0 (set_mouse e m)) ->
  Rel e0 e -> Rel e0 (fst (step e c s)).
Proof.
  intros Hstart Hpause Hresume Hresize Hkeys Hmouse HR.
  destruct c; cbn [step ret fst]; unfold setKey; auto.
  - now apply frame_update.
  - lazy zeta; destruct (State_eqb _ _); cbn [ret fst]; auto.
    apply frame_playerFire; auto.
  - destruct (timeouts e) as [|[position radius] pending]; [exact HR|].
    apply frame_checkChainReaction; auto.
Qed.

(** A run keeps what every step keeps. *)
Lemma frame_run cs :
  (forall e0 e, Rel e0 e -> Rel e0 (start e)) ->
  (forall e0 e, Rel e0 e -> Rel e0 (pause e)) ->
  (forall e0 e, Rel e0 e -> Rel e0 (resume e)) ->
  (forall e0 e w h, Rel e0 e -> Rel e0 (resize e w h)) ->
  (forall e0 e k, Rel e0 e -> Rel e0 (set_keys e k)) ->
  (forall e0 e m, Rel e0 e -> Rel e0 (set_mouse e m)) ->
  forall e0 e s, Rel e0 e -> Rel e0 (fst (run e cs s)).
Proof.
  intros Hstart Hpause Hresume Hresize Hkeys Hmouse.
  induction cs as [|c cs IH]; intros e0 e s HR; cbn [run ret fst];
    [exact HR|].
  rewrite bind_fst; apply IH, frame_step; auto.
Qed.

End Frame.
(** ** The level-up loop runs to its end *)

Section LevelUps.
Import GameEngine.

Lemma autoUpgrade_experience (e : t) (s : Stream) :
  let e' := fst (autoUpgrade e s) in
  experience (upgradeSystem e') = experience (upgradeSystem e)
  /\ experienceToNext (upgradeSystem e')
     = experienceToNext (upgradeSystem e).
Proof.
  unfold autoUpgrade; rewrite bind_fst.
  destruct (nth_error _ _) as [[]|]; cbn; split; reflexivity.
Qed.

(** With more rounds than [experience] has units, the loop stops on its
    own condition. *)
Lemma levelUps_stops (fuel : nat) :
  forall (e : t) (s : Stream),
    1 <= experienceToNext (upgradeSystem e) ->
    experience (upgradeSystem e) < INR fuel ->
    let e' := fst (levelUps fuel e s) in
    experience (upgradeSystem e') < experienceToNext (upgradeSystem e').
Proof.
  induction fuel as [|fuel IH]; intros e s Hn Hx.
  - cbn in *; lra.
  - cbn [levelUps]; lazy zeta.
    destruct (experience (upgradeSystem e) >=? experienceToNext (upgradeSystem e))
      eqn:E; cmp_facts; [|cbn; lra].
    rewrite bind_fst.
    match goal with
    | |- context [autoUpgrade ?x s] =>
        pose proof (autoUpgrade_experience x s) as HA; lazy zeta in HA;
        destruct HA as [Hx' Hn']
    end.
    rewrite S_INR in Hx.
    apply IH.
    + rewrite Hn'; cbn.
      apply Rle_trans with (Math_floor 1).
      * change 1 with (IZR 1) at 2; rewrite Math_floor_IZR; lra.
      * apply Math_floor_mono; lra.
    + rewrite Hx'; cbn; lra.
Qed.

(** The fuel [addExperience] passes is enough: on return the condition of
    the [while] loop is false. *)
Lemma levelUps_enough_fuel (e : t) (amount : R) (s : Stream) :
  1 <= experienceToNext (upgradeSystem e) ->
  let e' := fst (addExperience e amount s) in
  experience (upgradeSystem e') < experienceToNext (upgradeSystem e').
Proof.
  intros Hn; unfold addExperience; lazy zeta.
  apply levelUps_stops; [exact Hn|].
  unfold set_upgradeSystem; cbn [upgradeSystem experience].
  set (x := experience (upgradeSystem e) + amount).
  rewrite S_INR.
  destruct (Rle_dec 0 x) as [Hx|Hx].
  - rewrite INR_IZR_INZ, Z2Nat.id.
    + pose proof (Zfloor_bound x); lra.
    + apply le_IZR. change (IZR 0) with 0.
      pose proof (Math_floor_nonneg x Hx) as Hf; unfold Math_floor in Hf; lra.
  - pose proof (pos_INR (Z.to_nat (Zfloor x))); lra.
Qed.

End LevelUps.

(** ** C8: the run-phase state machine *)

Section StateMachine.
Import GameEngine.
Context `{MathLib}.

(** Discharge the side conditions of a frame lemma for a relation that
    only reads fields the mutation does not write. *)
Ltac frame_side :=
  intros; unfold scoreKill, increaseCombo, nextWave, gameOver in *;
  cbn in *; auto.

Lemma comboTimer_shape (e : t) (dt : R) :
  exists c v, comboTimer e dt = set_score (set_comboSystem e c) v.
Proof.
  unfold comboTimer.
  destruct (0 <? count (comboSystem e))%nat;
    [|exists (comboSystem e), (score e); now destruct e].
  lazy zeta.
  match goal with
  | |- context [if ?c then resetCombo ?x else _] => destruct c
  end.
  - unfold resetCombo.
    match goal with
    | |- context [if ?c then set_score _ _ else _] => destruct c
    end; destruct e; unfold set_comboSystem, set_score; cbn;
      eexists _, _; reflexivity.
  - destruct e; unfold set_comboSystem, set_score; cbn;
      eexists _, _; reflexivity.
Qed.

Lemma state_comboTimer (e : t) (dt : R) : state (comboTimer e dt) = state e.
Proof. destruct (comboTimer_shape e dt) as (c & v & ->); reflexivity. Qed.

Lemma state_start (e : t) : state (start e) = playing.
Proof.
  unfold start; lazy zeta.
  repeat match goal with
         | |- context [match ?x with _ => _ end] => destruct x
         end; reflexivity.
Qed.

(** An engine that is not playing ignores [update]. *)
Lemma update_not_playing (e : t) (dt : R) (s : Stream) :
  state e <> playing -> update e dt s = (e, s).
Proof.
  intros Hs; unfold update.
  destruct (state e); try contradiction; reflexivity.
Qed.

(** A playing engine is playing or over after [update]. *)
Lemma update_playing (e : t) (dt : R) (s : Stream) :
  state e = playing ->
  state (fst (update e dt s)) = playing
  \/ state (fst (update e dt s)) = gameover.
Proof.
  intros Hs; revert Hs.
  apply (frame_update
           (fun e0 e => state e0 = playing ->
                        state e = playing \/ state e = gameover))
    with (e0 := e); try solve [frame_side].
  intros e0 e1 d Hr Hp; rewrite state_comboTimer; auto.
Qed.

(** Firing and chain reactions leave the run phase alone. *)
Lemma state_playerFire (e : t) (s : Stream) :
  state (fst (playerFire e s)) = state e.
Proof.
  apply (frame_playerFire (fun e0 e => state e = state e0)) with (e0 := e);
    solve [frame_side].
Qed.

Lemma state_checkChainReaction (e : t) (p : Vec) (r : R) (s : Stream) :
  state (fst (checkChainReaction e p r s)) = state e.
Proof.
  apply (frame_checkChainReaction (fun e0 e => state e = state e0))
    with (e0 := e); solve [frame_side].
Qed.

(** C8.  The run phase only moves along menu -> playing, playing ->
    paused, paused -> playing, playing -> gameover and gameover -> playing,
    whatever command, input event or timer reaches the engine.  [pause]
    acts only on a playing engine and [resume] only on a paused one; in
    every other phase they return the engine unchanged.  An engine that is
    over stays over under every command but [start], and [start] always
    ends in playing. *)
Theorem state_machine (e : t) (c : Command) (s : Stream) :
  let e' := fst (step e c s) in
  (state e' = state e
   \/ (state e = menu /\ state e' = playing /\ c = Start)
   \/ (state e = playing /\ state e' = paused /\ c = Pause)
   \/ (state e = paused /\ state e' = playing /\ (c = Resume \/ c = Start))
   \/ (state e = playing /\ state e' = gameover
       /\ exists dt, c = Update dt)
   \/ (state e = gameover /\ state e' = playing /\ c = Start))
  /\ (state e = playing -> state (pause e) = paused)
  /\ (state e <> playing -> pause e = e)
  /\ (state e = paused -> state (resume e) = playing)
  /\ (state e <> paused -> resume e = e)
  /\ (state e = gameover -> c <> Start -> state e' = gameover)
  /\ state (start e) = playing.
Proof.
  intros e'.
  assert (Hpause1 : state e = playing -> state (pause e) = paused)
    by (intros Hs; unfold pause; rewrite Hs; reflexivity).
  assert (Hpause2 : state e <> playing -> pause e = e)
    by (intros Hs; unfold pause; destruct (state e); try reflexivity;
        contradiction).
  assert (Hresume1 : state e = paused -> state (resume e) = playing)
    by (intros Hs; unfold resume; rewrite Hs; reflexivity).
  assert (Hresume2 : state e <> paused -> resume e = e)
    by (intros Hs; unfold resume; destruct (state e); try reflexivity;
        contradiction).
  assert (Hmove :
    state e' = state e
    \/ (state e = menu /\ state e' = playing /\ c = Start)
    \/ (state e = playing /\ state e' = paused /\ c = Pause)
    \/ (state e = paused /\ state e' = playing /\ (c = Resume \/ c = Start))
    \/ (state e = playing /\ state e' = gameover
        /\ exists dt, c = Update dt)
    \/ (state e = gameover /\ state e' = playing /\ c = Start)).
  { subst e'; destruct c; cbn [step ret fst].
    - (* Start *)
      pose proof (state_start e) as Hst; rewrite Hst.
      destruct (state e); intuition.
    - (* Pause *)
      destruct (State_eqb (state e) playing) eqn:E.
      + assert (Hp : state e = playing) by (destruct (state e); easy).
        rewrite (Hpause1 Hp); intuition.
      + left; rewrite Hpause2; [reflexivity|].
        intros Hp; rewrite Hp in E; discriminate.
    - (* Resume *)
      destruct (State_eqb (state e) paused) eqn:E.
      + assert (Hp : state e = paused) by (destruct (state e); easy).
        rewrite (Hresume1 Hp); intuition.
      + left; rewrite Hresume2; [reflexivity|].
        intros Hp; rewrite Hp in E; discriminate.
    - (* Update *)
      destruct (State_eqb (state e) playing) eqn:E.
      + assert (Hp : state e = playing) by (destruct (state e); easy).
        destruct (update_playing e deltaTime s Hp) as [Hq|Hq];
          rewrite Hq, Hp; [now left|].
        right; right; right; right; left; eauto.
      + left; rewrite update_not_playing; [reflexivity|].
        intros Hp; rewrite Hp in E; discriminate.
    - now left.
    - now left.
    - now left.
    - now left.
    - (* MouseDown *)
      left; lazy zeta; destruct (State_eqb _ _); cbn [ret fst];
        [rewrite state_playerFire|]; reflexivity.
    - now left.
    - (* ChainTimer *)
      left; destruct (timeouts e) as [|[p r] pending]; [reflexivity|].
      rewrite state_checkChainReaction; reflexivity.
  }
  split; [exact Hmove|]. split; [exact Hpause1|]. split; [exact Hpause2|].
  split; [exact Hresume1|]. split; [exact Hresume2|].
  split; [|apply state_start].
  intros Hover Hc.
  destruct Hmove as [Hm|[Hm|[Hm|[Hm|[Hm|Hm]]]]];
    try (rewrite Hm; exact Hover);
    destruct Hm as (Hs & _ & Hrest); congruence.
Qed.

End StateMachine.

(** ** C9: the lane clamp *)

Section LaneClamp.
Import GameEngine.
Context `{MathLib}.

Ltac frame_side :=
  intros; unfold scoreKill, increaseCombo, nextWave, gameOver in *;
  cbn in *; auto.

(** The clamp after integration puts the ship between the margins of any
    playfield that is wide enough to have such a position. *)
Lemma clampUpdate_bounds (w : R) (p : Ship) :
  2 * margin <= w ->
  margin <= Vector2D.x (ship_pos (clampUpdate w p)) <= w - margin.
Proof.
  intros Hw; unfold clampUpdate.
  destruct (Vector2D.x (ship_pos p) <? margin) eqn:E1; cmp_facts;
    lazy zeta.
  - match goal with
    | |- context [if ?c then _ else _] => destruct c eqn:E2
    end; cmp_facts; cbn in *; lra.
  - destruct (Vector2D.x (ship_pos p) >? w - margin) eqn:E2; cmp_facts;
      cbn in *; lra.
Qed.

Lemma samePlace_refl (e : t) : samePlace e e.
Proof. repeat split. Qed.

Lemma samePlace_comboTimer e0 e dt :
  samePlace e0 e -> samePlace e0 (comboTimer e dt).
Proof.
  destruct (comboTimer_shape e dt) as (c & v & ->); intros HR; exact HR.
Qed.

Lemma samePlace_player e0 e p :
  samePlace e0 e -> ship_pos p = ship_pos (player e) ->
  samePlace e0 (set_player e p).
Proof.
  unfold samePlace, player_pos, ship_pos; cbn; intros (Hp & Hw & Hm) Hq.
  rewrite Hq; auto.
Qed.

(** Discharge the side conditions of a frame lemma for [samePlace]. *)
Ltac place_side :=
  first [ exact samePlace_player
        | exact samePlace_comboTimer
        | exact (samePlace_refl _)
        | solve [unfold samePlace, player_pos in *; frame_side] ].

Lemma samePlace_updateRest (e : t) (dt : R) (s : Stream) :
  samePlace e (fst (updateRest e dt s)).
Proof. apply (frame_updateRest samePlace); place_side. Qed.

Lemma samePlace_updateAsteroids (e : t) (dt : R) (s : Stream) :
  samePlace e (fst (fst (updateAsteroids e dt s))).
Proof. apply (frame_updateAsteroids samePlace); place_side. Qed.

Lemma samePlace_playerFire (e : t) (s : Stream) :
  samePlace e (fst (playerFire e s)).
Proof. apply (frame_playerFire samePlace); place_side. Qed.

Lemma samePlace_checkChainReaction (e : t) (p : Vec) (r : R) (s : Stream) :
  samePlace e (fst (checkChainReaction e p r s)).
Proof. apply (frame_checkChainReaction samePlace); place_side. Qed.

(** [handleInput] may move the ship but keeps the playfield and mode. *)
Lemma handleInput_field (e : t) (dt : R) (s : Stream) :
  width (fst (handleInput e dt s)) = width e
  /\ mode (config (fst (handleInput e dt s))) = mode (config e).
Proof.
  apply (frame_handleInput
           (fun e0 e => width e = width e0
                        /\ mode (config e) = mode (config e0)))
    with (e0 := e); try solve [frame_side].
Qed.

(** One frame of a playing engine in lane mode ends between the margins,
    wherever the ship was and whatever is held. *)
Lemma update_inBounds (e : t) (dt : R) (s : Stream) :
  mode (config e) = lane_shooter ->
  state e = playing ->
  2 * margin <= width e ->
  inBounds (fst (update e dt s))
  /\ width (fst (update e dt s)) = width e
  /\ mode (config (fst (update e dt s))) = lane_shooter.
Proof.
  intros Hmode Hstate Hw; unfold update; rewrite Hstate; cbn [State_eqb negb].
  lazy zeta; rewrite bind_fst.
  match goal with
  | |- context [handleInput ?e0 ?d ?s0] =>
      destruct (handleInput_field e0 d s0) as [Hw1 Hm1];
      destruct (handleInput e0 d s0) as [e1 s1]
  end.
  cbn [fst snd] in *; cbn in Hw1, Hm1.
  set (e2 := updatePlayer e1 _).
  assert (H2 : inBounds e2 /\ width e2 = width e
               /\ mode (config e2) = lane_shooter).
  { subst e2; unfold updatePlayer; rewrite Hm1, Hmode; cbn.
    unfold inBounds, player_pos; cbn.
    split; [|split; [exact Hw1 | now rewrite Hm1]].
    rewrite <- Hw1 in Hw.
    pose proof (clampUpdate_bounds (width e1)
                  (Spaceship.update (player e1) (Rmin dt 0.1)) Hw) as Hb.
    unfold ship_pos in Hb; exact Hb. }
  clearbody e2.
  assert (Hkeep : forall e3, samePlace e2 e3 ->
            inBounds e3 /\ width e3 = width e
            /\ mode (config e3) = lane_shooter).
  { intros e3 (Hp & Hw3 & Hm3); destruct H2 as ((Hl & Hu) & Hw2 & Hm2).
    unfold inBounds; rewrite Hp, Hw3, Hm3; auto. }
  destruct (Spaceship.isDestroyed (player e2)).
  - apply Hkeep; repeat split.
  - rewrite bind_fst.
    pose proof (samePlace_updateAsteroids e2 (Rmin dt 0.1) s1) as Ha.
    destruct (updateAsteroids e2 (Rmin dt 0.1) s1) as [[e3 lethal] s3].
    cbn [fst snd] in *.
    destruct lethal.
    + apply Hkeep; destruct Ha as (Hp & Hw3 & Hm3); repeat split; auto.
    + pose proof (samePlace_updateRest e3 (Rmin dt 0.1) s3)
        as (Hp' & Hw' & Hm').
      destruct Ha as (Hp & Hw3 & Hm3).
      apply Hkeep; repeat split; congruence.
Qed.

(** On a playfield too narrow to hold a position between the margins the
    second test of the clamp, the one against the right margin, always
    fires and has the last word. *)
Lemma clampUpdate_narrow (w : R) (p : Ship) :
  w < 2 * margin ->
  Vector2D.x (ship_pos (clampUpdate w p)) = w - margin.
Proof.
  intros Hw; unfold clampUpdate.
  destruct (Vector2D.x (ship_pos p) <? margin) eqn:E1; cmp_facts;
    lazy zeta.
  - match goal with
    | |- context [if ?c then _ else _] => destruct c eqn:E2
    end; cmp_facts; cbn in *; [reflexivity | lra].
  - destruct (Vector2D.x (ship_pos p) >? w - margin) eqn:E2; cmp_facts;
      cbn in *; [reflexivity | lra].
Qed.

(** Where a frame of a playing engine in lane mode leaves the ship: where
    the clamp after integration has put it. *)
Lemma update_clamped (e : t) (dt : R) (s : Stream) :
  mode (config e) = lane_shooter ->
  state e = playing ->
  exists p,
    player_pos (fst (update e dt s)) = ship_pos (clampUpdate (width e) p)
    /\ width (fst (update e dt s)) = width e.
Proof.
  intros Hmode Hstate; unfold update; rewrite Hstate; cbn [State_eqb negb].
  lazy zeta; rewrite bind_fst.
  match goal with
  | |- context [handleInput ?e0 ?d ?s0] =>
      destruct (handleInput_field e0 d s0) as [Hw1 Hm1];
      destruct (handleInput e0 d s0) as [e1 s1]
  end.
  cbn [fst snd] in *; cbn in Hw1, Hm1.
  exists (Spaceship.update (player e1) (Rmin dt 0.1)).
  set (e2 := updatePlayer e1 _).
  assert (H2 : player_pos e2
               = ship_pos (clampUpdate (width e)
                             (Spaceship.update (player e1) (Rmin dt 0.1)))
               /\ width e2 = width e).
  { subst e2; unfold updatePlayer; rewrite Hm1, Hmode, Hw1; cbn.
    split; [reflexivity | exact Hw1]. }
  clearbody e2; destruct H2 as [Hp2 Hw2].
  assert (Hkeep : forall e3, samePlace e2 e3 ->
            player_pos e3
            = ship_pos (clampUpdate (width e)
                          (Spaceship.update (player e1) (Rmin dt 0.1)))
            /\ width e3 = width e).
  { intros e3 (Hp & Hw3 & Hm3); rewrite Hp, Hw3; auto. }
  destruct (Spaceship.isDestroyed (player e2)).
  - apply Hkeep; repeat split.
  - rewrite bind_fst.
    pose proof (samePlace_updateAsteroids e2 (Rmin dt 0.1) s1) as Ha.
    destruct (updateAsteroids e2 (Rmin dt 0.1) s1) as [[e3 lethal] s3].
    cbn [fst snd] in *.
    destruct lethal.
    + apply Hkeep; destruct Ha as (Hp & Hw3 & Hm3); repeat split; auto.
    + pose proof (samePlace_updateRest e3 (Rmin dt 0.1) s3)
        as (Hp' & Hw' & Hm').
      destruct Ha as (Hp & Hw3 & Hm3).
      apply Hkeep; repeat split; congruence.
Qed.

(** A new game puts the ship in the middle of the playfield. *)
Lemma start_inBounds (e : t) :
  mode (config e) = lane_shooter ->
  2 * margin <= width e ->
  inBounds (start e) /\ width (start e) = width e
  /\ mode (config (start e)) = lane_shooter.
Proof.
  intros Hmode Hw; unfold start; lazy zeta.
  unfold inBounds, player_pos, setupPlayer; cbn.
  repeat (rewrite Hmode; cbn).
  unfold margin in *; repeat split; lra.
Qed.

(** Every command but a resize keeps the ship between the margins. *)
Lemma step_inBounds (e : t) (c : Command) (s : Stream) :
  mode (config e) = lane_shooter ->
  2 * margin <= width e ->
  inBounds e ->
  notResize c ->
  inBounds (fst (step e c s)) /\ width (fst (step e c s)) = width e
  /\ mode (config (fst (step e c s))) = lane_shooter.
Proof.
  intros Hmode Hw Hin Hc.
  assert (Hkeep : forall e', samePlace e e' ->
            inBounds e' /\ width e' = width e
            /\ mode (config e') = lane_shooter).
  { intros e' (Hp & Hw' & Hm'); unfold inBounds.
    rewrite Hp, Hw', Hm'; destruct Hin; auto. }
  destruct c; cbn [step ret fst]; try contradiction.
  - now apply start_inBounds.
  - apply Hkeep; unfold pause; destruct (State_eqb _ _); repeat split.
  - apply Hkeep; unfold resume; destruct (State_eqb _ _); repeat split.
  - destruct (State_eqb (state e) playing) eqn:E.
    + apply update_inBounds; auto. destruct (state e); easy.
    + rewrite update_not_playing; [apply Hkeep; repeat split|].
      intros Hp; rewrite Hp in E; discriminate.
  - apply Hkeep; repeat split.
  - apply Hkeep; repeat split.
  - apply Hkeep; repeat split.
  - lazy zeta; destruct (State_eqb _ _); cbn [ret fst].
    + apply Hkeep.
      match goal with
      | |- context [playerFire ?e1 s] =>
          pose proof (samePlace_playerFire e1 s) as Hf
      end.
      exact Hf.
    + apply Hkeep; repeat split.
  - apply Hkeep; repeat split.
  - destruct (timeouts e) as [|[p r] pending]; cbn [ret fst].
    + apply Hkeep; repeat split.
    + apply Hkeep.
      match goal with
      | |- context [checkChainReaction ?e1 p r s] =>
          pose proof (samePlace_checkChainReaction e1 p r s) as Hf
      end.
      exact Hf.
Qed.

(** C9.  In lane mode, on a playfield wide enough to hold a position
    between the two margins (width at least twice the margin), every
    frame of a playing engine ends with the ship's x between the left
    margin and the width minus the margin, whatever keys are held and
    wherever the ship was.  Hence, from an engine whose ship is between
    the margins, every run of frames, key and pointer events, pauses,
    restarts and timer callbacks leaves it there: holding left can never
    push the ship past the left margin. *)
Theorem lane_clamp (e : t) :
  mode (config e) = lane_shooter ->
  2 * margin <= width e ->
  (forall dt s, state e = playing -> inBounds (fst (update e dt s)))
  /\ (inBounds e ->
      forall cs s, Forall notResize cs -> inBounds (fst (run e cs s))).
Proof.
  intros Hmode Hw; split.
  - intros dt s Hs; now apply update_inBounds.
  - intros Hin cs; revert e Hmode Hw Hin.
    induction cs as [|c cs IH]; intros e Hmode Hw Hin s Hcs;
      cbn [run ret fst]; [exact Hin|].
    inversion Hcs as [|? ? Hc Hcs']; subst.
    rewrite bind_fst.
    destruct (step_inBounds e c s Hmode Hw Hin Hc) as (Hin' & Hw' & Hm').
    apply IH; auto; rewrite Hw'; exact Hw.
Qed.

End LaneClamp.

(** ** C5: combo multiplier and kill score *)

Section Scoring.
Import GameEngine.
Context `{MathLib}.
Hypothesis Hrnd : rounding.

Ltac frame_side :=
  intros; unfold scoreKill, increaseCombo, nextWave, gameOver in *;
  cbn in *; auto.

Lemma rnd_nonneg (x : R) : 0 <= x -> 0 <= rnd x.
Proof.
  destruct Hrnd as (Hmono & H0 & _); intros Hx.
  rewrite <- H0; now apply Hmono.
Qed.

(** The multiplier formula never gives less than 1. *)
Lemma formula_ge_1 (n : nat) (cap : R) :
  1 <= cap -> 1 <= Rmin (rnd (1.0 + rnd (INR n * rnd 0.1))) cap.
Proof.
  intros Hcap; destruct Hrnd as (Hmono & H0 & H1).
  assert (Ht : 0 <= rnd 0.1) by (apply rnd_nonneg; lra).
  assert (Hp : 0 <= rnd (INR n * rnd 0.1)).
  { apply rnd_nonneg; pose proof (pos_INR n); nra. }
  assert (Hs : 1 <= rnd (1.0 + rnd (INR n * rnd 0.1)))
    by (rewrite <- H1 at 1; apply Hmono; lra).
  unfold Rmin; destruct (Rle_dec _ _); lra.
Qed.

Lemma formula_0 : Rmin (rnd (1.0 + rnd (INR 0 * rnd 0.1))) 8.0 = 1.0.
Proof.
  destruct Hrnd as (_ & H0 & H1).
  replace (INR 0 * rnd 0.1) with 0 by (cbn; ring).
  rewrite H0. replace (1.0 + 0) with 1 by lra. rewrite H1.
  unfold Rmin; destruct (Rle_dec _ _); lra.
Qed.

Lemma comboInv_increaseCombo (e : t) :
  maxMultiplier (comboSystem e) = 8.0 -> comboInv (increaseCombo e).
Proof. intros Hm; unfold comboInv, increaseCombo; cbn; auto. Qed.

Lemma comboInv_resetCombo (e : t) :
  maxMultiplier (comboSystem e) = 8.0 -> comboInv (resetCombo e).
Proof.
  intros Hm; unfold comboInv, resetCombo.
  destruct (_ <=? _)%nat; cbn [comboSystem set_comboSystem set_score
    maxMultiplier multiplier count]; rewrite Hm;
    (split; [reflexivity | symmetry; exact formula_0]).
Qed.

Lemma comboInv_comboTimer (e : t) (dt : R) :
  comboInv e -> comboInv (comboTimer e dt).
Proof.
  intros [Hm Hc]; unfold comboTimer.
  destruct (_ <? _)%nat; [|split; assumption].
  lazy zeta.
  match goal with
  | |- context [if ?c then resetCombo ?x else _] => destruct c
  end.
  - apply comboInv_resetCombo; exact Hm.
  - split; cbn; assumption.
Qed.

(** The combo record at rest, as the constructor and [start] set it. *)
Lemma comboInv_rest (e : t) :
  comboSystem e = mkCombo 0 0 3.0 1.0 8.0 -> comboInv e.
Proof.
  intros E; unfold comboInv; rewrite E; cbn [maxMultiplier multiplier count].
  split; [reflexivity | symmetry; exact formula_0].
Qed.

Lemma comboSystem_start (e : t) :
  comboSystem (start e) = mkCombo 0 0 3.0 1.0 8.0.
Proof.
  unfold start; lazy zeta.
  repeat match goal with
         | |- context [match ?x with _ => _ end] => destruct x
         end; reflexivity.
Qed.

Lemma comboInv_start (e : t) : comboInv (start e).
Proof. apply comboInv_rest, comboSystem_start. Qed.

(** The invariant is kept by the frame and by every other command. *)
Lemma comboInv_update (e : t) (dt : R) (s : Stream) :
  comboInv e -> comboInv (fst (update e dt s)).
Proof.
  intros He.
  apply (frame_update (fun _ e => comboInv e)) with (e0 := e);
    try solve [unfold comboInv; frame_side]; auto.
  - intros _ e1 a He1; unfold scoreKill; cbn.
    apply comboInv_increaseCombo, He1.
  - intros _ e1 d He1; now apply comboInv_comboTimer.
Qed.

Lemma comboInv_run (cs : list Command) :
  forall e s, comboInv e -> comboInv (fst (run e cs s)).
Proof.
  intros e s He.
  apply (frame_run (fun _ e => comboInv e)) with (e0 := e);
    try solve [unfold comboInv; frame_side]; auto.
  - intros _ e1 a He1; unfold scoreKill; cbn.
    apply comboInv_increaseCombo, He1.
  - intros _ e1 d He1; now apply comboInv_comboTimer.
  - intros _ e1 _; apply comboInv_start.
  - intros _ e1 He1; unfold pause; destruct (State_eqb _ _); auto.
  - intros _ e1 He1; unfold resume; destruct (State_eqb _ _); auto.
Qed.

Lemma comboInv_new (w h : R) (c : Config) : comboInv (new w h c).
Proof. apply comboInv_rest; reflexivity. Qed.

Lemma multiplier_pos (e : t) : comboInv e -> 1 <= multiplier (comboSystem e).
Proof. intros [Hm Hc]; rewrite Hc, Hm; apply formula_ge_1; lra. Qed.

(** An award is never negative. *)
Lemma award_nonneg (base m : R) :
  0 <= base -> 0 <= m -> 0 <= Math_floor (rnd (base * m)).
Proof. intros Hb Hm; apply Math_floor_nonneg, rnd_nonneg; nra. Qed.

Lemma chainAwards_nonneg (m : R) (l : list Asteroid.t) :
  0 <= m -> 0 <= total (map (chainAward m) l).
Proof.
  intros Hm; induction l as [|a l IH]; cbn [map total]; [lra|].
  assert (0 <= chainAward m a).
  { unfold chainAward; apply award_nonneg; [|exact Hm].
    destruct (Asteroid.size a); cbn; lra. }
  lra.
Qed.

End Scoring.

Section KillPaths.
Import GameEngine.
Context `{MathLib}.

(** [takeDamage] reports "destroyed" by the health that is left, whatever
    it draws for the crack pattern, and changes nothing the scoring
    reads. *)
Lemma takeDamage_fields (a : Asteroid.t) (amount : R) (s : Stream) :
  let r := Asteroid.takeDamage a amount s in
  snd (fst r) = (Asteroid.health a - amount <=? 0)
  /\ Asteroid.size (fst (fst r)) = Asteroid.size a
  /\ Asteroid.isBoss (fst (fst r)) = Asteroid.isBoss a
  /\ Asteroid.scoreValue (fst (fst r)) = Asteroid.scoreValue a
  /\ Asteroid.body (fst (fst r)) = Asteroid.body a
  /\ Asteroid.radius (fst (fst r)) = Asteroid.radius a.
Proof.
  unfold Asteroid.takeDamage; lazy zeta.
  rewrite !bind_fst; cbn [random fst snd].
  destruct (_ <? _); [rewrite !bind_fst|]; cbn; repeat split; reflexivity.
Qed.

(** A chain reaction leaves the combo alone; it counts and scores what it
    destroys, each at the multiplier it found. *)
Lemma chainLoop_tally (position : Vec) (radius : R)
    (todo : list Asteroid.t) :
  forall kept frags e s,
    let e' := fst (chainLoop position radius todo kept frags e s) in
    let killed := filter (chainHit position radius) todo in
    comboSystem e' = comboSystem e
    /\ kills e' = (kills e + List.length killed)%nat
    /\ score e' = score e
                  + total (map (chainAward (multiplier (comboSystem e)))
                               killed).
Proof.
  induction todo as [|a todo IH]; intros kept frags e s;
    cbn [chainLoop filter].
  - cbn; repeat split; [lia | lra].
  - lazy zeta.
    assert (Hh : chainHit position radius a
                 = (Vector2D.distance position (asteroid_pos a) <? radius)
                   && (Asteroid.health a - 20 <=? 0)) by reflexivity.
    rewrite Hh; clear Hh.
    destruct (Vector2D.distance position (asteroid_pos a) <? radius);
      cbn [andb]; [|apply IH].
    rewrite bind_fst.
    destruct (takeDamage_fields a 20 s) as (Hd & Hsz & _).
    destruct (Asteroid.takeDamage a 20 s) as [[a' damaged] s1].
    cbn [fst snd] in *; rewrite <- Hd.
    destruct damaged; [|apply IH].
    rewrite bind_fst.
    destruct (Asteroid.split a' s1) as [fragments s2]; cbn [fst snd].
    match goal with
    | |- context [chainLoop position radius todo kept ?fr ?e1 s2] =>
        destruct (IH kept fr e1 s2) as (Hc & Hk & Hs)
    end.
    cbn [comboSystem set_timeouts set_kills set_score kills score] in *.
    split; [exact Hc|]. split.
    + rewrite Hk; cbn [List.length]; lia.
    + rewrite Hs; cbn [map total]; unfold chainAward at 2.
      rewrite Hsz; lra.
Qed.

(** What [scoreKill] does to the combo, the score and the kill counter. *)
Lemma scoreKill_fields (e : t) (a : Asteroid.t) :
  comboSystem (scoreKill e a) = comboSystem (increaseCombo e)
  /\ score (scoreKill e a) = score e + finalScore (increaseCombo e) a
  /\ kills (scoreKill e a) = S (kills e).
Proof. repeat split. Qed.

(** The firing of a pending chain-reaction timeout. *)
Lemma step_chainTimer (e : t) (position : Vec) (radius : R)
    (pending : list (Vec * R)) (s : Stream) :
  timeouts e = (position, radius) :: pending ->
  step e ChainTimer s
  = checkChainReaction (set_timeouts e pending) position radius s.
Proof. intros E; cbn [step]; rewrite E; reflexivity. Qed.

Lemma sameTally_refl (e : t) : sameTally e e.
Proof. repeat split. Qed.

Ltac tally_side :=
  first [ exact (sameTally_refl _)
        | solve [intros; unfold sameTally in *; cbn in *; auto] ].

(** The kill block up to its chain reaction: after [scoreKill] nothing
    touches the combo, the score or the kill counter. *)
Lemma onKill_mid (e : t) (a : Asteroid.t) (before after : list Asteroid.t)
    (s : Stream) :
  exists e1 s1,
    onKill e a before after s
    = checkChainReaction e1 (asteroid_pos a) (Asteroid.radius a * 2) s1
    /\ sameTally (scoreKill e a) e1.
Proof.
  unfold onKill; lazy zeta.
  rewrite bind_fst.
  assert (H1 : sameTally (scoreKill e a)
                 (fst (addExperience (scoreKill e a) (baseScore a / 10) s)))
    by (apply (frame_addExperience sameTally); tally_side).
  destruct (addExperience (scoreKill e a) (baseScore a / 10) s) as [e1 s1].
  cbn [fst snd] in *.
  rewrite bind_fst.
  match goal with
  | |- context [(if Asteroid.isBoss a then ?A else ?B) s1] =>
      set (m2 := (if Asteroid.isBoss a then A else B) s1)
  end.
  assert (H2 : sameTally (scoreKill e a) (fst m2)).
  { subst m2; destruct (Asteroid.isBoss a); [|exact H1].
    lazy zeta; apply (frame_bossPowerUps sameTally); tally_side. }
  destruct m2 as [e2 s2]; cbn [fst snd] in *; clear H1.
  rewrite bind_fst.
  match goal with
  | |- context [(if negb (Asteroid.isBoss a) then ?A else ?B) s2] =>
      set (m3 := (if negb (Asteroid.isBoss a) then A else B) s2)
  end.
  assert (H3 : sameTally (scoreKill e a) (fst m3)).
  { subst m3; destruct (negb (Asteroid.isBoss a)).
    - rewrite bind_fst.
      destruct (Asteroid.split a s2) as [fragments s3]; cbn [fst snd].
      lazy zeta; rewrite bind_fst; cbn [random fst snd].
      destruct (_ <? _).
      + apply (frame_spawnPowerUp sameTally); tally_side.
      + tally_side.
    - tally_side. }
  destruct m3 as [e3 s3]; cbn [fst snd] in *.
  exists e3, s3; split; [reflexivity | exact H3].
Qed.

(** A frame of a playing engine either ends the game or reaches its tail,
    which starts with the projectile loop. *)
Lemma update_reaches_rest (e : t) (dt : R) (s : Stream) :
  state e = playing ->
  state (fst (update e dt s)) = gameover
  \/ exists e1 s1,
       update e dt s = updateRest e1 (Rmin dt 0.1) s1
       /\ (forall P : t -> Prop,
             P e ->
             (forall e0 v, P e0 -> P (set_time e0 v)) ->
             (forall e0 d s0, P e0 -> P (fst (handleInput e0 d s0))) ->
             (forall e0 d, P e0 -> P (updatePlayer e0 d)) ->
             (forall e0 d s0, P e0 ->
                              P (fst (fst (updateAsteroids e0 d s0)))) ->
             P e1).
Proof.
  intros Hs; unfold update; rewrite Hs; cbn [State_eqb negb]; lazy zeta.
  rewrite bind_fst.
  set (e0 := set_time e _).
  set (e1 := updatePlayer (fst (handleInput e0 (Rmin dt 0.1) s)) _).
  destruct (Spaceship.isDestroyed (player e1)); [left; reflexivity|].
  rewrite bind_fst.
  destruct (updateAsteroids e1 (Rmin dt 0.1)
              (snd (handleInput e0 (Rmin dt 0.1) s)))
    as [[e2 lethal] s2] eqn:Ea.
  cbn [fst snd].
  destruct lethal; [left; reflexivity|].
  right; exists e2, s2; split; [reflexivity|].
  intros P He Htime Hinput Hplayer Hast.
  replace e2 with (fst (fst (updateAsteroids e1 (Rmin dt 0.1)
                     (snd (handleInput e0 (Rmin dt 0.1) s)))))
    by (rewrite Ea; reflexivity).
  apply Hast, Hplayer, Hinput, Htime, He.
Qed.

End KillPaths.

Section KillScoring.
Import GameEngine.
Context `{MathLib}.

Ltac frame_side :=
  intros; unfold scoreKill, increaseCombo, nextWave, gameOver in *;
  cbn in *; auto.


End KillScoring.

(** ** C6: combo decay *)

Section ComboDecay.
Import GameEngine.
Context `{MathLib}.

Ltac frame_side :=
  intros; unfold scoreKill, increaseCombo, nextWave, gameOver in *;
  cbn in *; auto.

(** The combo timer block acts on the combo record as [tick] does. *)
Lemma comboTimer_tick (e : t) (dt : R) :
  comboSystem (comboTimer e dt) = tick (comboSystem e) dt
  /\ kills (comboTimer e dt) = kills e
  /\ state (comboTimer e dt) = state e.
Proof.
  unfold comboTimer, tick.
  destruct (0 <? count (comboSystem e))%nat; [|auto].
  lazy zeta; cbn [comboSystem set_comboSystem timer maxTime].
  match goal with
  | |- context [if ?c then resetCombo ?x else _] => destruct c
  end; [|cbn; auto].
  unfold resetCombo.
  match goal with
  | |- context [if ?c then set_score _ _ else _] => destruct c
  end; cbn; auto.
Qed.

Lemma noKill_refl (e : t) : noKill e e.
Proof. repeat split; auto. Qed.

Ltac nokill_side :=
  first [ exact (noKill_refl _)
        | solve [unfold noKill; frame_side]
        | solve [unfold noKill; intros; cbn in *; intuition lia] ].

Lemma noKill_projectileLoop e dt todo kept s :
  noKill e (fst (projectileLoop dt todo kept e s)).
Proof. apply (frame_projectileLoop noKill); nokill_side. Qed.

Lemma noKill_powerUpLoop e0 e dt todo kept s :
  noKill e0 e -> noKill e0 (fst (powerUpLoop dt todo kept e s)).
Proof. apply (frame_powerUpLoop noKill); nokill_side. Qed.

Lemma noKill_weaponTimer e0 e dt :
  noKill e0 e -> noKill e0 (weaponTimer e dt).
Proof. apply (frame_weaponTimer noKill); nokill_side. Qed.

Lemma noKill_hazardLoop e0 e dt todo kept s :
  noKill e0 e -> noKill e0 (fst (hazardLoop dt todo kept e s)).
Proof. apply (frame_hazardLoop noKill); nokill_side. Qed.

Lemma noKill_spawnTimer e0 e dt s :
  noKill e0 e -> noKill e0 (fst (spawnTimer e dt s)).
Proof. apply (frame_spawnTimer noKill); nokill_side. Qed.

Lemma noKill_hazardTimer e0 e dt s :
  noKill e0 e -> noKill e0 (fst (hazardTimer e dt s)).
Proof. apply (frame_hazardTimer noKill); nokill_side. Qed.

Lemma noKill_waveProgression e0 e dt s :
  noKill e0 e -> noKill e0 (fst (waveProgression e dt s)).
Proof. apply (frame_waveProgression noKill); nokill_side. Qed.

Lemma noKill_handleInput e0 e dt s :
  noKill e0 e -> noKill e0 (fst (handleInput e dt s)).
Proof. apply (frame_handleInput noKill); nokill_side. Qed.

Lemma noKill_updateAsteroids e0 e dt s :
  noKill e0 e -> noKill e0 (fst (fst (updateAsteroids e dt s))).
Proof. apply (frame_updateAsteroids noKill); nokill_side. Qed.

(** The tail of a frame: without a kill, the combo record is advanced by
    the timer block and by nothing else. *)
Lemma updateRest_combo (e : t) (dt : R) (s : Stream) :
  let e' := fst (updateRest e dt s) in
  (kills e <= kills e')%nat
  /\ state e' = state e
  /\ (kills e' = kills e -> comboSystem e' = tick (comboSystem e) dt).
Proof.
  unfold updateRest.
  rewrite bind_fst.
  pose proof (noKill_projectileLoop e dt (rev (projectiles e)) [] s) as H1.
  destruct (projectileLoop dt (rev (projectiles e)) [] e s) as [e1 s1].
  cbn [fst snd] in *.
  rewrite bind_fst.
  pose proof (noKill_powerUpLoop e e1 dt (rev (powerUps e1)) [] s1 H1) as H2.
  destruct (powerUpLoop dt (rev (powerUps e1)) [] e1 s1) as [e2 s2].
  cbn [fst snd] in *; clear H1.
  lazy zeta.
  destruct (comboTimer_tick e2 dt) as (Hc & Hk & Hs).
  set (e3 := comboTimer e2 dt) in *.
  pose proof (noKill_weaponTimer e3 e3 dt (noKill_refl e3)) as H4.
  set (e4 := weaponTimer e3 dt) in *.
  rewrite bind_fst.
  pose proof (noKill_hazardLoop e3 e4 dt (rev (hazards e4)) [] s2 H4) as H5.
  destruct (hazardLoop dt (rev (hazards e4)) [] e4 s2) as [e5 s5].
  cbn [fst snd] in *; clear H4.
  rewrite bind_fst.
  pose proof (noKill_spawnTimer e3 e5 dt s5 H5) as H6.
  destruct (spawnTimer e5 dt s5) as [e6 s6].
  cbn [fst snd] in *; clear H5.
  rewrite bind_fst.
  pose proof (noKill_hazardTimer e3 e6 dt s6 H6) as H7.
  destruct (hazardTimer e6 dt s6) as [e7 s7].
  cbn [fst snd] in *; clear H6.
  pose proof (noKill_waveProgression e3 e7 dt s7 H7) as H8.
  destruct (waveProgression e7 dt s7) as [e8 s8].
  cbn [fst snd] in *.
  destruct H2 as (K2 & C2 & S2), H8 as (K8 & C8 & S8).
  split; [lia|]. split; [congruence|].
  intros Hsame.
  rewrite C8 by lia. rewrite Hc, C2 by lia. reflexivity.
Qed.

(** One frame of a playing engine, as far as the combo is concerned. *)
Lemma update_combo (e : t) (dt : R) (s : Stream) :
  let e' := fst (update e dt s) in
  (kills e <= kills e')%nat
  /\ (state e' = playing -> state e = playing)
  /\ (state e' = playing -> kills e' = kills e ->
      comboSystem e' = tick (comboSystem e) (Rmin dt 0.1)).
Proof.
  destruct (State_eqb (state e) playing) eqn:Est.
  2:{ rewrite update_not_playing
        by (intros Hp; rewrite Hp in Est; discriminate).
      cbn [fst]; repeat split; auto.
      intros Hp; rewrite Hp in Est; discriminate. }
  assert (Hplay : state e = playing) by (destruct (state e); easy).
  unfold update; rewrite Est; cbn [negb]; lazy zeta.
  rewrite bind_fst.
  match goal with
  | |- context [handleInput ?e0 ?d ?s0] =>
      assert (H1 : noKill e (fst (handleInput e0 d s0)))
        by (apply noKill_handleInput; repeat split; auto);
      destruct (handleInput e0 d s0) as [e1 s1]
  end.
  cbn [fst snd] in *.
  set (e2 := updatePlayer e1 _).
  assert (H2 : noKill e e2).
  { subst e2; unfold updatePlayer; destruct H1 as (K1 & C1 & S1).
    destruct (mode (config e1)); repeat split; cbn; auto. }
  clearbody e2; clear H1.
  destruct (Spaceship.isDestroyed (player e2)).
  - cbn [ret fst]; unfold gameOver; cbn.
    destruct H2 as (K2 & C2 & S2).
    split; [exact K2|]. split; intros; discriminate.
  - rewrite bind_fst.
    pose proof (noKill_updateAsteroids e e2 (Rmin dt 0.1) s1 H2) as H3.
    destruct (updateAsteroids e2 (Rmin dt 0.1) s1) as [[e3 lethal] s3].
    cbn [fst snd] in *; clear H2.
    destruct H3 as (K3 & C3 & S3).
    destruct lethal.
    + cbn [ret fst]; unfold gameOver; cbn.
      split; [exact K3|]. split; intros; discriminate.
    + destruct (updateRest_combo e3 (Rmin dt 0.1) s3) as (K4 & S4 & C4).
      split; [lia|]. split; [auto|].
      intros _ Hsame.
      rewrite C4 by lia. rewrite C3 by lia. reflexivity.
Qed.


End ComboDecay.

(** ** C7: boss gating *)

Section BossGating.
Import GameEngine.
Context `{MathLib}.

Ltac frame_side :=
  intros; unfold scoreKill, increaseCombo, nextWave, gameOver in *;
  cbn in *; auto.

Lemma bossCount_app (l1 l2 : list Asteroid.t) :
  bossCount (l1 ++ l2) = (bossCount l1 + bossCount l2)%nat.
Proof. unfold bossCount; now rewrite filter_app, length_app. Qed.

Lemma bossCount_cons (a : Asteroid.t) (l : list Asteroid.t) :
  bossCount (a :: l)
  = ((if Asteroid.isBoss a then 1 else 0) + bossCount l)%nat.
Proof. unfold bossCount; cbn; destruct (Asteroid.isBoss a); reflexivity. Qed.

Lemma bossCount_rev (l : list Asteroid.t) : bossCount (rev l) = bossCount l.
Proof.
  induction l as [|a l IH]; [reflexivity|]; cbn [rev].
  rewrite bossCount_app, IH, !bossCount_cons; cbn; lia.
Qed.

(** Fresh asteroids are no bosses. *)
Lemma new_isBoss (x y : R) (sz : Asteroid.Size) (v : option Vec)
    (s : Stream) :
  Asteroid.isBoss (fst (Asteroid.new x y sz v s)) = false.
Proof. unfold Asteroid.new; rewrite !bind_fst; reflexivity. Qed.

Lemma mapR_all {A B} (P : B -> Prop) (f : A -> Rand B) (l : list A) :
  (forall a s, P (fst (f a s))) ->
  forall s, Forall P (fst (mapR f l s)).
Proof.
  intros HP; induction l as [|a l IH]; intros s; cbn [mapR].
  - constructor.
  - rewrite !bind_fst; cbn; constructor; auto.
Qed.

Lemma bossCount_none (l : list Asteroid.t) :
  Forall (fun a => Asteroid.isBoss a = false) l -> bossCount l = 0%nat.
Proof.
  induction 1 as [|a l Ha _ IH]; [reflexivity|].
  rewrite bossCount_cons, Ha, IH; reflexivity.
Qed.

Lemma split_noBoss (a : Asteroid.t) (s : Stream) :
  bossCount (fst (Asteroid.split a s)) = 0%nat.
Proof.
  apply bossCount_none; unfold Asteroid.split.
  destruct (_ <? _)%nat; [|constructor].
  destruct (nth_error _ _); [|constructor].
  rewrite bind_fst; apply mapR_all.
  intros i s'; unfold Asteroid.fragment; rewrite !bind_fst.
  apply new_isBoss.
Qed.

Lemma takeDamage_isBoss (a : Asteroid.t) (amount : R) (s : Stream) :
  Asteroid.isBoss (fst (fst (Asteroid.takeDamage a amount s)))
  = Asteroid.isBoss a.
Proof.
  unfold Asteroid.takeDamage; rewrite !bind_fst; cbn [random fst snd].
  destruct (_ <? _); [rewrite !bind_fst|]; reflexivity.
Qed.

Lemma bossRel_refl (e : t) : bossRel e e.
Proof. split; auto. Qed.

Lemma bossRel_trans (a b c : t) : bossRel a b -> bossRel b c -> bossRel a c.
Proof.
  intros [L1 [E1|S1]] [L2 [E2|S2]]; split; try lia;
    solve [left; congruence | right; lia].
Qed.

Lemma sameField_bossRel (e0 e : t) : sameField e0 e -> bossRel e0 e.
Proof. intros [Ha Hb]; split; [rewrite Ha; lia | now left]. Qed.

Lemma sameField_refl (e : t) : sameField e e.
Proof. split; reflexivity. Qed.

Lemma sameField_comboTimer e0 e dt :
  sameField e0 e -> sameField e0 (comboTimer e dt).
Proof.
  destruct (comboTimer_shape e dt) as (c & v & ->); intros HR; exact HR.
Qed.

Ltac field_side :=
  first [ exact (sameField_refl _)
        | exact sameField_comboTimer
        | solve [unfold sameField; frame_side] ].

Lemma sameField_addExperience e amount s :
  sameField e (fst (addExperience e amount s)).
Proof. apply (frame_addExperience sameField); field_side. Qed.

Lemma sameField_spawnPowerUp e x y s :
  sameField e (fst (spawnPowerUp e x y s)).
Proof. apply (frame_spawnPowerUp sameField); field_side. Qed.

Lemma sameField_bossPowerUps k a e s :
  sameField e (fst (bossPowerUps k a e s)).
Proof. apply (frame_bossPowerUps sameField); field_side. Qed.

Lemma sameField_powerUpLoop e dt todo kept s :
  sameField e (fst (powerUpLoop dt todo kept e s)).
Proof. apply (frame_powerUpLoop sameField); field_side. Qed.

Lemma sameField_weaponTimer e dt : sameField e (weaponTimer e dt).
Proof. apply (frame_weaponTimer sameField); field_side. Qed.

Lemma sameField_hazardTimer e dt s :
  sameField e (fst (hazardTimer e dt s)).
Proof. apply (frame_hazardTimer sameField); field_side. Qed.

Lemma sameField_handleInput e dt s :
  sameField e (fst (handleInput e dt s)).
Proof. apply (frame_handleInput sameField); field_side. Qed.

Lemma sameField_playerFire e s : sameField e (fst (playerFire e s)).
Proof. apply (frame_playerFire sameField); field_side. Qed.

#[local] Arguments bossCount : simpl never.

Lemma bossCount_nil : bossCount [] = 0%nat.
Proof. reflexivity. Qed.

Lemma sameBoss_bossRel (e0 e : t) : sameBoss e0 e -> bossRel e0 e.
Proof. intros [Hb Hc]; split; [rewrite Hc; lia | now left]. Qed.

Lemma sameField_sameBoss (e0 e : t) : sameField e0 e -> sameBoss e0 e.
Proof. intros [Ha Hb]; split; [exact Hb | now rewrite Ha]. Qed.

Lemma sameBoss_trans (a b c : t) : sameBoss a b -> sameBoss b c -> sameBoss a c.
Proof. intros [B1 C1] [B2 C2]; split; congruence. Qed.

(** Chain reactions never touch the boss system and add no boss. *)
Lemma chainLoop_boss position radius todo :
  forall kept frags e s,
    let e' := fst (chainLoop position radius todo kept frags e s) in
    bossSystem e' = bossSystem e
    /\ (bossCount (asteroids e')
        <= bossCount todo + bossCount kept + bossCount frags)%nat.
Proof.
  induction todo as [|a todo IH]; intros kept frags e s; cbn [chainLoop].
  - cbn; rewrite bossCount_app, bossCount_nil; split; [reflexivity | lia].
  - lazy zeta.
    assert (Hkeep :
      forall a' s', Asteroid.isBoss a' = Asteroid.isBoss a ->
        let e' := fst (chainLoop position radius todo (a' :: kept) frags e s')
        in bossSystem e' = bossSystem e
           /\ (bossCount (asteroids e')
               <= bossCount (a :: todo) + bossCount kept + bossCount frags
              )%nat).
    { intros a' s' Ha; destruct (IH (a' :: kept) frags e s') as [Hb Hc].
      split; [exact Hb|].
      rewrite !bossCount_cons in *; rewrite Ha in Hc; lia. }
    destruct (_ <? radius); [|now apply Hkeep].
    rewrite bind_fst.
    pose proof (takeDamage_isBoss a 20 s) as Hd.
    destruct (Asteroid.takeDamage a 20 s) as [[a' damaged] s1].
    cbn [fst snd] in *.
    destruct damaged; [|now apply Hkeep].
    rewrite bind_fst.
    pose proof (split_noBoss a' s1) as Hf.
    destruct (Asteroid.split a' s1) as [fragments s2]; cbn [fst snd] in *.
    match goal with
    | |- context [chainLoop position radius todo kept ?fr ?e1 s2] =>
        destruct (IH kept fr e1 s2) as [Hb Hc]
    end.
    split; [rewrite Hb; reflexivity|].
    rewrite bossCount_app, Hf in Hc; rewrite bossCount_cons; lia.
Qed.

Lemma checkChainReaction_boss e position radius s :
  let e' := fst (checkChainReaction e position radius s) in
  bossSystem e' = bossSystem e
  /\ (bossCount (asteroids e') <= bossCount (asteroids e))%nat.
Proof.
  unfold checkChainReaction.
  destruct (chainLoop_boss position radius (rev (asteroids e)) [] [] e s)
    as [Hb Hc].
  split; [exact Hb|]; rewrite bossCount_rev, bossCount_nil in Hc; lia.
Qed.

(** A projectile kill takes the destroyed asteroid off the field; it
    touches the boss system only when that asteroid is a boss. *)
Lemma onKill_boss e a before after s :
  let e' := fst (onKill e a before after s) in
  (bossCount (asteroids e') <= bossCount (before ++ after))%nat
  /\ (Asteroid.isBoss a = false -> bossSystem e' = bossSystem e).
Proof.
  unfold onKill; lazy zeta.
  rewrite bind_fst.
  pose proof (sameField_addExperience (scoreKill e a) (baseScore a / 10) s)
    as [_ B1].
  destruct (addExperience (scoreKill e a) (baseScore a / 10) s) as [e1 s1].
  cbn [fst snd] in *.
  assert (B1' : bossSystem e1 = bossSystem e) by (rewrite B1; reflexivity).
  clear B1.
  rewrite bind_fst.
  destruct (Asteroid.isBoss a) eqn:Eboss; cbn [negb].
  - (* a boss: the system is reset, the asteroid removed *)
    match goal with
    | |- context [bossPowerUps 3 a ?e2 s1] =>
        destruct (bossPowerUps 3 a e2 s1) as [e3 s3]
    end.
    cbn [fst snd]; rewrite bind_fst; cbn [ret fst snd].
    match goal with
    | |- context [checkChainReaction ?e4 ?p ?r ?s4] =>
        destruct (checkChainReaction_boss e4 p r s4) as [Hb Hc]
    end.
    cbn [asteroids set_asteroids] in Hc.
    split; [exact Hc | discriminate].
  - cbn [ret fst snd]; rewrite !bind_fst.
    pose proof (split_noBoss a s1) as Hf.
    destruct (Asteroid.split a s1) as [fragments s2]; cbn [fst snd] in *.
    cbn [random fst snd].
    match goal with
    | |- context [checkChainReaction ?e4 ?p ?r ?s4] =>
        destruct (checkChainReaction_boss e4 p r s4) as [Hb Hc];
        assert (He4 : asteroids e4 = (before ++ after) ++ fragments
                      /\ bossSystem e4 = bossSystem e)
    end.
    { destruct (_ <? _); cbn [ret fst]; [|split; [reflexivity|exact B1']].
      match goal with
      | |- context [spawnPowerUp ?e5 ?x ?y ?s5] =>
          destruct (sameField_spawnPowerUp e5 x y s5) as [A5 B5]
      end.
      rewrite A5, B5; split; [reflexivity|exact B1']. }
    destruct He4 as [A4 B4].
    rewrite A4, bossCount_app, Hf in Hc.
    split; [lia|]. intros _; rewrite Hb; exact B4.
Qed.

Lemma splitLast_eq {A} (f : A -> bool) (l before after : list A) (a : A) :
  splitLast f l = Some (before, a, after) -> l = before ++ a :: after.
Proof.
  revert before; induction l as [|x l IH]; intros before; cbn [splitLast];
    [discriminate|].
  destruct (splitLast f l) as [[[b h] r]|].
  - intros E; inversion E; subst; cbn; f_equal; now apply IH.
  - destruct (f x); [|discriminate].
    intros E; inversion E; subst; reflexivity.
Qed.

Lemma projectileLoop_boss dt todo :
  forall kept e0 e s,
    bossRel e0 e -> bossRel e0 (fst (projectileLoop dt todo kept e s)).
Proof.
  induction todo as [|p todo IH]; intros kept e0 e s HR;
    cbn [projectileLoop]; [exact HR|].
  lazy zeta.
  destruct (_ || _); [now apply IH|].
  destruct (splitLast _ _) as [[[before a] after]|] eqn:Esplit;
    [|now apply IH].
  apply splitLast_eq in Esplit.
  rewrite !bind_fst.
  match goal with
  | |- context [Asteroid.takeDamage a ?amt s] =>
      pose proof (takeDamage_isBoss a amt s) as Hd;
      destruct (Asteroid.takeDamage a amt s) as [[a' destroyed] s1]
  end.
  cbn [fst snd] in *.
  rewrite bind_fst.
  apply IH.
  set (e1 := set_asteroids e (before ++ a' :: after)).
  assert (H1 : sameBoss e e1).
  { subst e1; split; [reflexivity|]; cbn; rewrite Esplit.
    rewrite !bossCount_app, !bossCount_cons, Hd; reflexivity. }
  destruct destroyed; cbn [ret fst].
  - eapply bossRel_trans; [exact HR|].
    eapply bossRel_trans; [apply sameBoss_bossRel, H1|].
    destruct (onKill_boss e1 a' before after s1) as [Hc Hb].
    assert (Hcount : bossCount (asteroids e1)
                     = ((if Asteroid.isBoss a' then 1 else 0)
                        + bossCount (before ++ after))%nat).
    { subst e1; cbn; rewrite !bossCount_app, bossCount_cons; lia. }
    split; [lia|].
    destruct (Asteroid.isBoss a'); [right; lia | left; now apply Hb].
  - eapply bossRel_trans; [exact HR | apply sameBoss_bossRel, H1].
Qed.

(** The asteroid loop: a boss only leaves, and the boss system is only
    reset when one does. *)
Lemma asteroidLoop_boss height dt todo :
  forall kept frags p b s,
    let r := fst (asteroidLoop height dt todo kept frags p b s) in
    let asts := snd (fst r) in
    let b' := snd (fst (fst r)) in
    (bossCount asts <= bossCount todo + bossCount kept + bossCount frags)%nat
    /\ (b' = b
        \/ (bossCount asts
            < bossCount todo + bossCount kept + bossCount frags)%nat).
Proof.
  induction todo as [|a todo IH]; intros kept frags p b s;
    cbn [asteroidLoop].
  - cbn; rewrite bossCount_app, bossCount_nil; split; [lia | now left].
  - lazy zeta.
    set (a1 := Asteroid.update a dt).
    assert (Ha1 : Asteroid.isBoss a1 = Asteroid.isBoss a) by reflexivity.
    clearbody a1.
    rewrite bossCount_cons, <- Ha1.
    destruct (_ <? _).
    { (* gone below the playfield *)
      match goal with
      | |- context [asteroidLoop height dt todo kept frags p ?b1 s] =>
          destruct (IH kept frags p b1 s) as [Hc Hb]
      end.
      cbv zeta in *.
      destruct (Asteroid.isBoss a1); lazy iota in *; split; try lia;
        first [ right; lia
              | destruct Hb as [Hb|Hb]; [left; exact Hb | right; lia] ]. }
    destruct (CollisionSystem.checkCircleCollision _ _ _ _).
    { (* hits the player: replaced by its fragments *)
      destruct (Spaceship.takeDamage p _) as [p' destroyed].
      rewrite bind_fst.
      pose proof (split_noBoss a1 s) as Hf.
      destruct (Asteroid.split a1 s) as [fragments s1]; cbn [fst snd] in *.
      destruct destroyed.
      - cbn [ret fst snd].
        rewrite !bossCount_app, bossCount_rev, Hf.
        split; [lia | now left].
      - destruct (IH kept (frags ++ fragments) p' b s1) as [Hc Hb].
        cbv zeta in *; rewrite bossCount_app, Hf in Hc, Hb.
        split; [lia|]. destruct Hb as [Hb|Hb]; [now left | right; lia]. }
    destruct (IH (a1 :: kept) frags p b s) as [Hc Hb].
    cbv zeta in *; rewrite bossCount_cons in Hc, Hb.
    split; [lia|]. destruct Hb as [Hb|Hb]; [now left | right; lia].
Qed.

Lemma updateAsteroids_boss e dt s :
  bossRel e (fst (fst (updateAsteroids e dt s))).
Proof.
  unfold updateAsteroids; rewrite bind_fst.
  pose proof (asteroidLoop_boss (height e) dt (rev (asteroids e)) [] []
                (player e) (bossSystem e) s) as [Hc Hb].
  destruct (asteroidLoop _ _ _ _ _ _ _ s) as [[[[p b] asts] lethal] s'].
  cbn [fst snd ret] in *.
  rewrite bossCount_rev, bossCount_nil in Hc, Hb.
  split; cbn; [lia|].
  destruct Hb as [Hb|Hb]; [left; exact Hb | right; lia].
Qed.

Lemma bossCount_map (f : Asteroid.t -> Asteroid.t) (l : list Asteroid.t) :
  (forall a, Asteroid.isBoss (f a) = Asteroid.isBoss a) ->
  bossCount (map f l) = bossCount l.
Proof.
  intros Hf; induction l as [|a l IH]; [reflexivity|]; cbn [map].
  now rewrite !bossCount_cons, Hf, IH.
Qed.

Lemma updateHazard_boss e h dt s :
  sameBoss e (snd (fst (updateHazard e h dt s))).
Proof.
  unfold updateHazard, sameBoss.
  destruct (h_type h).
  - destruct (_ && _); cbn [ret fst snd]; lazy zeta;
      destruct (_ || _); cbn; auto;
      (split; [reflexivity|]; apply bossCount_map; intros a;
       destruct (_ <? _); reflexivity).
  - destruct (_ <? _); cbn [ret fst snd]; cbn; auto.
  - lazy zeta; destruct (_ <=? _); cbn [ret fst snd]; auto.
    rewrite !bind_fst; cbn [ret fst snd random].
    split; [reflexivity|]; cbn [asteroids set_asteroids]; unfold push.
    rewrite bossCount_app, bossCount_cons, new_isBoss, bossCount_nil; lia.
Qed.

Lemma hazardLoop_boss dt todo :
  forall kept e0 e s,
    sameBoss e0 e -> sameBoss e0 (fst (hazardLoop dt todo kept e s)).
Proof.
  induction todo as [|h todo IH]; intros kept e0 e s HR;
    cbn [hazardLoop]; [exact HR|].
  lazy zeta.
  destruct (_ <=? _); [now apply IH|].
  assert (Hgo : sameBoss e0
            (fst ((' (hazard, e) <-
                     updateHazard e (h_set_timer h (h_timer h + dt)) dt;;
                   hazardLoop dt todo (hazard :: kept) e)%rand s))).
  { rewrite bind_fst.
    match goal with
    | |- context [updateHazard ?e ?h ?dt ?s] =>
        pose proof (updateHazard_boss e h dt s) as HU;
        destruct (updateHazard e h dt s) as [[h' e'] s']
    end.
    cbn [fst snd] in *; apply IH; eapply sameBoss_trans; eauto. }
  destruct (mode (config e)); [|exact Hgo].
  destruct (_ <? _); [now apply IH | exact Hgo].
Qed.

Lemma spawnAsteroid_boss e s : sameBoss e (fst (spawnAsteroid e s)).
Proof.
  unfold spawnAsteroid.
  destruct (_ <=? _); [split; reflexivity|].
  destruct (active (bossSystem e)); [split; reflexivity|].
  rewrite bind_fst; cbn [ret fst].
  assert (Hn : Asteroid.isBoss (fst (newAsteroid e s)) = false).
  { unfold newAsteroid; lazy zeta; rewrite !bind_fst; cbn [random fst snd].
    repeat match goal with
           | |- context [if ?c then _ else _] => destruct c
           end; rewrite ?bind_fst; cbn [ret fst snd];
      try apply new_isBoss;
      unfold asteroid_set_pos; cbn; apply new_isBoss. }
  split; [reflexivity|]; cbn [asteroids set_asteroids]; unfold push.
  rewrite bossCount_app, bossCount_cons, Hn, bossCount_nil; lia.
Qed.

Lemma spawnTimer_boss e dt s : sameBoss e (fst (spawnTimer e dt s)).
Proof.
  unfold spawnTimer; lazy zeta.
  destruct (_ <=? _); cbn [ret fst]; [|split; reflexivity].
  match goal with
  | |- context [spawnAsteroid ?e1 s] =>
      destruct (spawnAsteroid_boss e1 s) as [Hb Hc]
  end.
  split; [exact Hb | exact Hc].
Qed.

(** The guard of the periodic spawner. *)
Lemma spawnAsteroid_gated (e : t) (s : Stream) :
  active (bossSystem e) = true -> spawnAsteroid e s = (e, s).
Proof.
  intros Ha; unfold spawnAsteroid; rewrite Ha.
  destruct (_ <=? _); reflexivity.
Qed.

(** What [spawnBoss] adds. *)
Lemma spawnBoss_spec (e : t) (s : Stream) :
  let e' := fst (spawnBoss e s) in
  active (bossSystem e') = true
  /\ wave e' = wave e
  /\ exists boss,
       asteroids e' = asteroids e ++ [boss]
       /\ Asteroid.isBoss boss = true
       /\ Asteroid.scoreValue boss = Some 1000
       /\ Asteroid.size boss = Asteroid.huge.
Proof.
  unfold spawnBoss; lazy zeta; rewrite bind_fst; cbn [ret fst].
  split; [reflexivity|]. split; [reflexivity|].
  eexists; split; [reflexivity|].
  split; [reflexivity|]. split; [reflexivity|].
  unfold Asteroid.new; rewrite !bind_fst; reflexivity.
Qed.

Lemma waveProgression_boss e dt s :
  let e' := fst (waveProgression e dt s) in
  active (bossSystem e') = true \/ sameField e e'.
Proof.
  unfold waveProgression; lazy zeta.
  destruct (_ <=? _); cbn [ret fst]; [|right; split; reflexivity].
  destruct (_ =? 0)%Z; cbn [ret fst]; [|right; split; reflexivity].
  left; apply spawnBoss_spec.
Qed.

(** The tail of a frame either ends with the boss system active or has
    only let bosses leave. *)
Lemma updateRest_boss (e : t) (dt : R) (s : Stream) :
  let e' := fst (updateRest e dt s) in
  active (bossSystem e') = true \/ bossRel e e'.
Proof.
  unfold updateRest.
  rewrite bind_fst.
  pose proof (projectileLoop_boss dt (rev (projectiles e)) [] e e s
                (bossRel_refl e)) as H1.
  destruct (projectileLoop dt (rev (projectiles e)) [] e s) as [e1 s1].
  cbn [fst snd] in *.
  rewrite bind_fst.
  pose proof (sameField_powerUpLoop e1 dt (rev (powerUps e1)) [] s1) as H2.
  destruct (powerUpLoop dt (rev (powerUps e1)) [] e1 s1) as [e2 s2].
  cbn [fst snd] in *.
  lazy zeta.
  pose proof (sameField_comboTimer e2 e2 dt (sameField_refl e2)) as H3.
  set (e3 := comboTimer e2 dt) in *.
  pose proof (sameField_weaponTimer e3 dt) as H4.
  set (e4 := weaponTimer e3 dt) in *.
  rewrite bind_fst.
  pose proof (hazardLoop_boss dt (rev (hazards e4)) [] e4 e4 s2
                (conj eq_refl eq_refl)) as H5.
  destruct (hazardLoop dt (rev (hazards e4)) [] e4 s2) as [e5 s5].
  cbn [fst snd] in *.
  rewrite bind_fst.
  pose proof (spawnTimer_boss e5 dt s5) as H6.
  destruct (spawnTimer e5 dt s5) as [e6 s6].
  cbn [fst snd] in *.
  rewrite bind_fst.
  pose proof (sameField_hazardTimer e6 dt s6) as H7.
  destruct (hazardTimer e6 dt s6) as [e7 s7].
  cbn [fst snd] in *.
  destruct (waveProgression_boss e7 dt s7) as [H8|H8]; [now left|].
  right.
  eapply bossRel_trans; [exact H1|].
  eapply bossRel_trans; [apply sameField_bossRel, H2|].
  eapply bossRel_trans; [apply sameField_bossRel, H3|].
  eapply bossRel_trans; [apply sameField_bossRel, H4|].
  eapply bossRel_trans; [apply sameBoss_bossRel, H5|].
  eapply bossRel_trans; [apply sameBoss_bossRel, H6|].
  eapply bossRel_trans; [apply sameField_bossRel, H7|].
  apply sameField_bossRel, H8.
Qed.

Lemma update_boss (e : t) (dt : R) (s : Stream) :
  let e' := fst (update e dt s) in
  active (bossSystem e') = true \/ bossRel e e'.
Proof.
  destruct (State_eqb (state e) playing) eqn:Est.
  2:{ rewrite update_not_playing
        by (intros Hp; rewrite Hp in Est; discriminate).
      right; apply bossRel_refl. }
  unfold update; rewrite Est; cbn [negb]; lazy zeta.
  rewrite bind_fst.
  match goal with
  | |- context [handleInput ?e0 ?d ?s0] =>
      pose proof (sameField_handleInput e0 d s0) as H1;
      destruct (handleInput e0 d s0) as [e1 s1]
  end.
  cbn [fst snd] in *.
  set (e2 := updatePlayer e1 _).
  assert (H2 : sameField e e2).
  { subst e2; unfold updatePlayer; destruct H1 as [A1 B1].
    destruct (mode (config e1)); split; cbn; auto. }
  clearbody e2; clear H1.
  destruct (Spaceship.isDestroyed (player e2)).
  - right; cbn [ret fst]; apply sameField_bossRel.
    destruct H2; split; auto.
  - rewrite bind_fst.
    pose proof (updateAsteroids_boss e2 (Rmin dt 0.1) s1) as H3.
    destruct (updateAsteroids e2 (Rmin dt 0.1) s1) as [[e3 lethal] s3].
    cbn [fst snd] in *.
    assert (H3' : bossRel e e3)
      by (eapply bossRel_trans; [apply sameField_bossRel, H2 | exact H3]).
    destruct lethal.
    + right; cbn [ret fst]; destruct H3' as [C3 B3]; split; auto.
    + destruct (updateRest_boss e3 (Rmin dt 0.1) s3) as [H4|H4];
        [now left|].
      right; eapply bossRel_trans; eauto.
Qed.

(** C7.  With a boss interval of 5, the wave-progression step that takes
    the engine from wave 4 to wave 5 appends exactly one asteroid to the
    field, a boss, and turns the boss system on.  While the boss system is
    on, [spawnAsteroid] returns the engine as it is, and so does the
    periodic spawner apart from its timer.  The boss system goes from on to
    off only in a new game ([start]) or in a frame of a playing engine that
    ends with fewer bosses on the field than it began with: a boss was
    destroyed or left the playfield. *)
Theorem boss_gating (e : t) (s : Stream) :
  (forall dt,
     wave e = 4%Z -> bossWaveInterval (config e) = 5%Z ->
     waveInterval e <= waveTimer e + dt ->
     let e' := fst (waveProgression e dt s) in
     wave e' = 5%Z
     /\ active (bossSystem e') = true
     /\ (exists boss,
           asteroids e' = asteroids e ++ [boss]
           /\ Asteroid.isBoss boss = true)
     /\ bossCount (asteroids e') = S (bossCount (asteroids e)))
  /\ (active (bossSystem e) = true ->
      spawnAsteroid e s = (e, s)
      /\ forall dt, asteroids (fst (spawnTimer e dt s)) = asteroids e)
  /\ (forall c,
        active (bossSystem e) = true ->
        active (bossSystem (fst (step e c s))) = false ->
        c = Start
        \/ (exists dt, c = Update dt)
           /\ state e = playing
           /\ (bossCount (asteroids (fst (step e c s)))
               < bossCount (asteroids e))%nat).
Proof.
  split; [|split].
  - intros dt Hw Hi Ht e'; subst e'.
    unfold waveProgression; lazy zeta.
    assert (Hge : (waveTimer (set_waveTimer e (waveTimer e + dt))
                   >=? waveInterval (set_waveTimer e (waveTimer e + dt)))
                  = true) by (apply Rleb_true; cbn; lra).
    rewrite Hge.
    set (e1 := nextWave _).
    assert (Hw1 : wave e1 = 5%Z) by (subst e1; cbn; rewrite Hw; reflexivity).
    assert (Hi1 : bossWaveInterval (config e1) = 5%Z)
      by (subst e1; cbn; exact Hi).
    assert (Ha1 : asteroids e1 = asteroids e) by reflexivity.
    clearbody e1.
    rewrite Hw1, Hi1; cbn [Z.rem Z.eqb Z.quotrem]; cbn -[spawnBoss].
    destruct (spawnBoss_spec e1 s) as (Hact & Hwave & boss & Hl & Hb & _).
    split; [rewrite Hwave; exact Hw1|]. split; [exact Hact|].
    split; [exists boss; rewrite Hl, Ha1; auto|].
    rewrite Hl, Ha1, bossCount_app, bossCount_cons, Hb, bossCount_nil; lia.
  - intros Ha; split; [now apply spawnAsteroid_gated|].
    intros dt; unfold spawnTimer; lazy zeta.
    destruct (_ <=? _); cbn [ret fst]; [|reflexivity].
    rewrite spawnAsteroid_gated by exact Ha; reflexivity.
  - intros c Hon Hoff.
    assert (Hsame : forall e', sameField e e' ->
                               active (bossSystem e') = false -> False).
    { intros e' [_ Hb] Hf; rewrite Hb, Hon in Hf; discriminate. }
    destruct c; cbn [step ret fst] in *.
    + now left.
    + exfalso; apply (Hsame (pause e)); [|exact Hoff].
      unfold pause; destruct (State_eqb _ _); split; reflexivity.
    + exfalso; apply (Hsame (resume e)); [|exact Hoff].
      unfold resume; destruct (State_eqb _ _); split; reflexivity.
    + right; split; [eauto|].
      destruct (State_eqb (state e) playing) eqn:Est.
      * split; [destruct (state e); easy|].
        destruct (update_boss e deltaTime s) as [Ht|[Hc [Hb|Hlt]]].
        -- rewrite Ht in Hoff; discriminate.
        -- rewrite Hb, Hon in Hoff; discriminate.
        -- exact Hlt.
      * rewrite update_not_playing in Hoff
          by (intros Hp; rewrite Hp in Est; discriminate).
        cbn [fst] in Hoff; rewrite Hon in Hoff; discriminate.
    + exfalso; eapply Hsame; [|exact Hoff]; split; reflexivity.
    + exfalso; eapply Hsame; [|exact Hoff]; split; reflexivity.
    + exfalso; eapply Hsame; [|exact Hoff]; split; reflexivity.
    + exfalso; eapply Hsame; [|exact Hoff]; split; reflexivity.
    + exfalso; revert Hoff; lazy zeta.
      destruct (State_eqb _ _); cbn [ret fst]; intros Hoff.
      * match type of Hoff with
        | context [playerFire ?e1 s] =>
            pose proof (sameField_playerFire e1 s) as [_ Hb]
        end.
        rewrite Hb in Hoff; cbn in Hoff; congruence.
      * cbn in Hoff; congruence.
    + exfalso; eapply Hsame; [|exact Hoff]; split; reflexivity.
    + exfalso; revert Hoff.
      destruct (timeouts e) as [|[p r] pending]; cbn [ret fst]; intros Hoff.
      * congruence.
      * match type of Hoff with
        | context [checkChainReaction ?e1 p r s] =>
            destruct (checkChainReaction_boss e1 p r s) as [Hb _]
        end.
        rewrite Hb in Hoff; cbn in Hoff; congruence.
Qed.

End BossGating.
(** ** The hypotheses of the theorems hold of concrete objects *)

(** A ship with a full, active shield takes a hit of 30. *)
Lemma shield_precedence_full_shield :
  let s := Spaceship.set_shield
             (Spaceship.new 0 0
                (Spaceship.mkConfig None None None None None None None None
                                    None))
             (Spaceship.mkShield true 100 100 10 30 false 0) in
  snd (Spaceship.takeDamage s 30) = false
  /\ Spaceship.health (fst (Spaceship.takeDamage s 30)) = Spaceship.health s.
Proof.
  intros s.
  assert (Ha : Spaceship.active (Spaceship.shield s) = true) by reflexivity.
  assert (Hs : 0 < Spaceship.strength (Spaceship.shield s)) by (cbn; lra).
  destruct (shield_precedence s 30 Ha Hs) as (Hr & Hh & _).
  split; [exact Hr | exact Hh].
Defined.

(** A medium rock splits on the draws that are all one half. *)
Lemma split_fragments_medium_rock :
  let rock := Asteroid.mk (PhysicsBody.new 0 0 1.0) Asteroid.medium 35 35 35
                          "rgba(180, 150, 140, 0.9)" [] [] 0 100 0 false
                          None in
  let draws : Stream := fun _ => 1 / 2 in
  unit_draws draws
  /\ Forall (fun f => Asteroid.size f = Asteroid.small)
            (fst (Asteroid.split rock draws)).
Proof.
  intros rock draws.
  assert (Hd : unit_draws draws) by (intros n; unfold draws; lra).
  split; [exact Hd|].
  destruct (split_fragments rock draws Hd) as (_ & _ & Hm).
  apply Hm; reflexivity.
Defined.

(** A freshly started lane game on an 800 x 600 canvas, one frame of
    50 ms on the draws that are all one half. *)
Lemma lane_clamp_fresh_game :
  let e := GameEngine.start
             (GameEngine.new 800 600 GameEngine.defaultConfig) in
  GameEngine.mode (GameEngine.config e) = GameEngine.lane_shooter
  /\ 2 * GameEngine.margin <= GameEngine.width e
  /\ GameEngine.state e = GameEngine.playing
  /\ inBounds (fst (GameEngine.update e 0.05 (fun _ => 1 / 2))).
Proof.
  intros e.
  assert (Hm : GameEngine.mode (GameEngine.config e)
               = GameEngine.lane_shooter) by reflexivity.
  assert (Hw : 2 * GameEngine.margin <= GameEngine.width e)
    by (unfold GameEngine.margin; cbn; lra).
  assert (Hp : GameEngine.state e = GameEngine.playing) by reflexivity.
  split; [exact Hm|]. split; [exact Hw|]. split; [exact Hp|].
  exact (proj1 (lane_clamp e Hm Hw) 0.05 (fun _ => 1 / 2) Hp).
Defined.

(** A lane game on a canvas 60 wide: the first frame leaves the ship at
    x = 10, left of the left margin of 50. *)
Lemma lane_clamp_narrow_canvas :
  let e := GameEngine.start
             (GameEngine.new 60 600 GameEngine.defaultConfig) in
  let e' := fst (GameEngine.update e 0.05 (fun _ => 1 / 2)) in
  GameEngine.mode (GameEngine.config e) = GameEngine.lane_shooter
  /\ GameEngine.state e = GameEngine.playing
  /\ Vector2D.x (GameEngine.player_pos e') = 10
  /\ ~ inBounds e'.
Proof.
  intros e e'.
  assert (Hm : GameEngine.mode (GameEngine.config e)
               = GameEngine.lane_shooter) by reflexivity.
  assert (Hp : GameEngine.state e = GameEngine.playing) by reflexivity.
  destruct (update_clamped e 0.05 (fun _ => 1 / 2) Hm Hp) as (p & Hx & Hw).
  fold e' in Hx, Hw.
  assert (Hw60 : GameEngine.width e' = 60) by (rewrite Hw; reflexivity).
  assert (Hx10 : Vector2D.x (GameEngine.player_pos e') = 10).
  { rewrite Hx, clampUpdate_narrow;
      change (GameEngine.width e) with 60; unfold GameEngine.margin; lra. }
  split; [exact Hm|]. split; [exact Hp|]. split; [exact Hx10|].
  unfold inBounds; rewrite Hx10, Hw60; unfold GameEngine.margin; lra.
Defined.

(** A body of mass 2 pushed along x, integrated over 100 ms. *)
Lemma update_pushed_body :
  let b := PhysicsBody.applyForce (PhysicsBody.new 0 0 2) (Vector2D.mk 4 0) in
  PhysicsBody.isStatic b = false
  /\ PhysicsBody.force (PhysicsBody.update b 0.1) = Vector2D.mk 0 0
  /\ PhysicsBody.torque (PhysicsBody.update b 0.1) = 0.
Proof.
  intros b.
  assert (Hs : PhysicsBody.isStatic b = false) by reflexivity.
  split; [exact Hs|].
  destruct (proj1 (update_semi_implicit_euler b 0.1) Hs)
    as (_ & _ & _ & _ & _ & _ & Hf & Ht & _).
  split; [exact Hf | exact Ht].
Defined.

(** A unit mass moving right meets a resting body of mass 2. *)
Lemma resolveCollision_head_on :
  let a := PhysicsBody.set_velocity (PhysicsBody.new 0 0 1)
                                    (Vector2D.mk 1 0) in
  let b := PhysicsBody.new 1 0 2 in
  (0 < PhysicsBody.mass a /\ 0 < PhysicsBody.mass b)
  /\ totalMomentum (fst (CollisionSystem.resolveCollision a b 0.8))
                   (snd (CollisionSystem.resolveCollision a b 0.8))
     = totalMomentum a b.
Proof.
  intros a b.
  assert (Hma : 0 < PhysicsBody.mass a) by (cbn; lra).
  assert (Hmb : 0 < PhysicsBody.mass b) by (cbn; lra).
  assert (Hia : PhysicsBody.inverseMass a = 1 / PhysicsBody.mass a).
  { cbn. rewrite (proj2 (Rltb_true 0 1)) by lra. reflexivity. }
  assert (Hib : PhysicsBody.inverseMass b = 1 / PhysicsBody.mass b).
  { cbn. rewrite (proj2 (Rltb_true 0 2)) by lra. reflexivity. }
  split; [split; assumption|].
  apply (proj1 (resolveCollision_momentum a b 0.8)
           eq_refl eq_refl Hma Hmb Hia Hib eq_refl).
Defined.

(** A ship inside its invulnerability window is hit for 50. *)
Lemma invulnerability_window_open :
  let s := Spaceship.set_invulnerable
             (Spaceship.new 0 0
                (Spaceship.mkConfig None None None None None None None None
                                    None))
             true 1.0 in
  Spaceship.invulnerable s = true
  /\ Spaceship.takeDamage s 50 = (s, false).
Proof.
  intros s.
  assert (Hi : Spaceship.invulnerable s = true) by reflexivity.
  split; [exact Hi|].
  exact (proj1 (proj1 (invulnerability_window s 50) Hi)).
Defined.

(** Exact arithmetic is a rounding in the sense of [rounding]. *)
Lemma exact_rounding : rounding.
Proof. unfold rounding; cbn; repeat split; auto. Qed.


(** With exact arithmetic the first kill of a combo brings the
    multiplier to 1.1. *)
Lemma first_kill_multiplier (e0 : GameEngine.t) :
  GameEngine.comboSystem e0 = GameEngine.mkCombo 0 0 3.0 1.0 8.0 ->
  GameEngine.multiplier
    (GameEngine.comboSystem (GameEngine.increaseCombo e0)) = 1.1.
Proof.
  intros E0; unfold GameEngine.increaseCombo.
  cbn [GameEngine.comboSystem GameEngine.set_comboSystem
       GameEngine.multiplier GameEngine.count GameEngine.maxMultiplier].
  rewrite E0.
  cbn [GameEngine.multiplier GameEngine.count GameEngine.maxMultiplier
       rnd realMath INR].
  unfold Rmin; destruct (Rle_dec _ _); lra.
Qed.

Lemma wornBoss_in_blast : chainHit (Vector2D.mk 400 100) 100 wornBoss = true.
Proof.
  unfold chainHit, wornBoss, GameEngine.asteroid_pos, Vector2D.distance,
    Vector2D.distanceTo, PhysicsBody.new;
    cbn [Asteroid.body Asteroid.health PhysicsBody.position
         Vector2D.x Vector2D.y].
  apply andb_true_intro; split.
  - apply Rltb_true.
    replace ((400 - 400) * (400 - 400) + (100 - 100) * (100 - 100))
      with 0 by ring.
    rewrite sqrt_0; lra.
  - apply Rleb_true; lra.
Qed.

Lemma hugeRock_base : GameEngine.baseScore hugeRock = 10.
Proof.
  unfold GameEngine.baseScore, num_or, GameEngine.scoreMap, hugeRock;
    cbn [Asteroid.isBoss Asteroid.size].
  rewrite (proj2 (Reqb_false 10 0)) by lra; reflexivity.
Qed.

(** The chain reaction on the worn boss, from any engine whose combo is at
    rest, with exact arithmetic. *)
Lemma chain_boss_award (e0 : GameEngine.t) :
  GameEngine.comboSystem e0 = GameEngine.mkCombo 0 0 3.0 1.0 8.0 ->
  let e1 := GameEngine.set_timeouts
              (GameEngine.set_asteroids (GameEngine.scoreKill e0 hugeRock)
                                        [wornBoss])
              [(Vector2D.mk 400 100, 100)] in
  let e2 := fst (GameEngine.step e1 GameEngine.ChainTimer
                                 (fun _ => 1 / 2)) in
  GameEngine.multiplier (GameEngine.comboSystem e1) = 1.1
  /\ GameEngine.score e1 - GameEngine.score e0 = 11
  /\ GameEngine.comboSystem e2 = GameEngine.comboSystem e1
  /\ GameEngine.kills e2 = S (GameEngine.kills e1)
  /\ GameEngine.score e2 - GameEngine.score e1 = 5
  /\ Math_floor (rnd (GameEngine.baseScore wornBoss
                      * GameEngine.multiplier (GameEngine.comboSystem e2)))
     = 1100.
Proof.
  intros E0 e1 e2.
  destruct (scoreKill_fields e0 hugeRock) as (C1 & S1 & K1).
  pose proof (first_kill_multiplier e0 E0) as Em0.
  assert (Em : GameEngine.multiplier (GameEngine.comboSystem e1) = 1.1).
  { rewrite <- Em0, <- C1; reflexivity. }
  assert (Es : GameEngine.score e1 - GameEngine.score e0 = 11).
  { replace (GameEngine.score e1)
      with (GameEngine.score (GameEngine.scoreKill e0 hugeRock))
      by reflexivity.
    rewrite S1; unfold GameEngine.finalScore.
    rewrite Em0, hugeRock_base; cbn [rnd realMath].
    rewrite (Math_floor_eq 11) by lra. lra. }
  assert (T1 : GameEngine.timeouts e1 = [(Vector2D.mk 400 100, 100)])
    by reflexivity.
  assert (E2 : e2 = fst (GameEngine.chainLoop (Vector2D.mk 400 100) 100
                           [wornBoss] [] [] (GameEngine.set_timeouts e1 [])
                           (fun _ => 1 / 2))).
  { unfold e2; rewrite (step_chainTimer e1 _ _ [] _ T1); reflexivity. }
  destruct (chainLoop_tally (Vector2D.mk 400 100) 100 [wornBoss] [] []
              (GameEngine.set_timeouts e1 []) (fun _ => 1 / 2))
    as (Hc & Hk & Hsc).
  rewrite <- E2 in Hc, Hk, Hsc.
  cbn [filter] in Hk, Hsc; rewrite wornBoss_in_blast in Hk, Hsc.
  replace (GameEngine.comboSystem (GameEngine.set_timeouts e1 []))
    with (GameEngine.comboSystem e1) in Hc, Hsc by reflexivity.
  replace (GameEngine.score (GameEngine.set_timeouts e1 []))
    with (GameEngine.score e1) in Hsc by reflexivity.
  replace (GameEngine.kills (GameEngine.set_timeouts e1 []))
    with (GameEngine.kills e1) in Hk by reflexivity.
  rewrite Em in Hsc.
  assert (Ea : chainAward 1.1 wornBoss = 5).
  { unfold chainAward, wornBoss;
      cbn [Asteroid.size GameEngine.chainScoreMap rnd realMath].
    rewrite (Math_floor_eq 5) by lra; reflexivity. }
  cbn [map total List.length] in Hk, Hsc; rewrite Ea in Hsc.
  split; [exact Em|]. split; [exact Es|]. split; [exact Hc|].
  split; [rewrite Hk; lia|]. split; [rewrite Hsc; lra|].
  assert (Eb : GameEngine.baseScore wornBoss = 1000) by reflexivity.
  rewrite Hc, Em, Eb; cbn [rnd realMath].
  rewrite (Math_floor_eq 1100) by lra; reflexivity.
Qed.



(** The last frame of wave 4, and a spawner call during a boss fight. *)
Lemma boss_gating_wave_five :
  let g := GameEngine.start
             (GameEngine.new 800 600 GameEngine.defaultConfig) in
  let e := GameEngine.set_waveTimer (GameEngine.set_wave g 4) 29.95 in
  let f := GameEngine.set_bossSystem g (GameEngine.mkBoss true None 1 3) in
  let draws : Stream := fun _ => 1 / 2 in
  (GameEngine.wave e = 4%Z
   /\ GameEngine.waveInterval e <= GameEngine.waveTimer e + 0.1
   /\ GameEngine.active (GameEngine.bossSystem f) = true)
  /\ GameEngine.active
       (GameEngine.bossSystem (fst (GameEngine.waveProgression e 0.1 draws)))
     = true
  /\ GameEngine.spawnAsteroid f draws = (f, draws).
Proof.
  intros g e f draws.
  assert (Hw : GameEngine.wave e = 4%Z) by reflexivity.
  assert (Hi : GameEngine.bossWaveInterval (GameEngine.config e) = 5%Z)
    by reflexivity.
  assert (Ht : GameEngine.waveInterval e <= GameEngine.waveTimer e + 0.1)
    by (cbn; lra).
  assert (Ha : GameEngine.active (GameEngine.bossSystem f) = true)
    by reflexivity.
  split; [repeat split; assumption|].
  split.
  - exact (proj1 (proj2 (proj1 (boss_gating e draws) 0.1 Hw Hi Ht))).
  - exact (proj1 (proj1 (proj2 (boss_gating f draws)) Ha)).
Defined.

(** A running game is paused. *)
Lemma state_machine_pause_running :
  let e := GameEngine.start
             (GameEngine.new 800 600 GameEngine.defaultConfig) in
  GameEngine.state e = GameEngine.playing
  /\ GameEngine.state (GameEngine.pause e) = GameEngine.paused
  /\ GameEngine.resume e = e.
Proof.
  intros e.
  assert (Hp : GameEngine.state e = GameEngine.playing) by reflexivity.
  assert (Hn : GameEngine.state e <> GameEngine.paused)
    by (rewrite Hp; discriminate).
  destruct (state_machine e GameEngine.Pause (fun _ => 1 / 2))
    as (_ & Hpause & _ & _ & Hresume & _).
  split; [exact Hp|].
  split; [exact (Hpause Hp) | exact (Hresume Hn)].
Defined.

(** ** Vector2D: lengths *)

Section VectorLength.
Import Vector2D.

Lemma magnitude_nonneg (v : t) : 0 <= magnitude v.
Proof. apply sqrt_pos. Qed.

Lemma magnitudeSquared_nonneg (v : t) : 0 <= magnitudeSquared v.
Proof. unfold magnitudeSquared; nra. Qed.

Lemma magnitude_sqr (v : t) : magnitude v * magnitude v = magnitudeSquared v.
Proof. apply sqrt_sqrt, magnitudeSquared_nonneg. Qed.

Lemma magnitude_zero (v : t) : magnitude v = 0 <-> v = mk 0 0.
Proof.
  split.
  - intros H0; pose proof (magnitude_sqr v) as Hs; rewrite H0 in Hs.
    unfold magnitudeSquared in Hs; destruct v as [a b]; cbn in *.
    assert (a = 0) by nra; assert (b = 0) by nra; subst; reflexivity.
  - intros ->; unfold magnitude; cbn.
    replace (0 * 0 + 0 * 0) with 0 by ring; apply sqrt_0.
Qed.

Lemma magnitude_multiply (v : t) (k : R) :
  magnitude (multiply v k) = magnitude v * Rabs k.
Proof.
  unfold magnitude, multiply; cbn.
  replace (x v * k * (x v * k) + y v * k * (y v * k))
    with ((x v * x v + y v * y v) * Rsqr k) by (unfold Rsqr; ring).
  rewrite sqrt_mult_alt by nra.
  now rewrite sqrt_Rsqr_abs.
Qed.

Lemma normalize_nonzero (v : t) :
  0 < magnitude v -> normalize v = multiply v (/ magnitude v).
Proof.
  intros Hm; unfold normalize, divide; lazy zeta.
  rewrite (proj2 (Rltb_true 0 (magnitude v)) Hm).
  rewrite (proj2 (Reqb_false (magnitude v) 0)) by lra.
  reflexivity.
Qed.

Lemma normalize_zero (v : t) : magnitude v = 0 -> normalize v = v.
Proof.
  intros Hm; unfold normalize; lazy zeta.
  rewrite (proj2 (Rltb_false 0 (magnitude v))) by lra.
  reflexivity.
Qed.

Lemma magnitude_normalize (v : t) :
  0 < magnitude v -> magnitude (normalize v) = 1.
Proof.
  intros Hm; rewrite normalize_nonzero, magnitude_multiply by assumption.
  rewrite Rabs_pos_eq by (left; now apply Rinv_0_lt_compat).
  field; lra.
Qed.

(** The bound behind [limit] and [limitVelocity]. *)
Lemma magnitude_limit (v : t) (max : R) :
  0 <= max -> magnitude (limit v max) <= max.
Proof.
  intros Hmax; unfold limit; lazy zeta.
  destruct (magnitudeSquared v >? max * max) eqn:E; cmp_facts.
  - assert (Hm : 0 < magnitude v).
    { pose proof (magnitude_nonneg v) as Hn; pose proof (magnitude_sqr v).
      destruct Hn as [Hn|Hn]; [exact Hn|]. rewrite <- Hn in *; nra. }
    rewrite magnitude_multiply, magnitude_normalize by assumption.
    rewrite Rabs_pos_eq by assumption; lra.
  - pose proof (magnitude_nonneg v); pose proof (magnitude_sqr v); nra.
Qed.

(** X1.  [normalize] turns every vector but the zero vector into the
    unit vector of the same direction: its length is 1 and scaling it back
    by the old length gives the vector again.  The zero vector, which has
    no direction, is returned as it is. *)
Theorem normalize_unit (v : t) :
  (v <> mk 0 0 ->
   magnitude (normalize v) = 1
   /\ multiply (normalize v) (magnitude v) = v)
  /\ normalize (mk 0 0) = mk 0 0.
Proof.
  split.
  - intros Hv.
    assert (Hm : 0 < magnitude v).
    { destruct (magnitude_nonneg v) as [Hn|Hn]; [exact Hn|].
      symmetry in Hn; apply magnitude_zero in Hn; contradiction. }
    split; [now apply magnitude_normalize|].
    rewrite normalize_nonzero by assumption.
    destruct v as [a b]; unfold multiply; cbn; f_equal; field; lra.
  - apply normalize_zero, magnitude_zero; reflexivity.
Qed.

(** X2.  For a non-negative cap, [limit] returns a vector no longer than
    the cap: a vector within the cap is returned as it is, a longer one is
    cut to exactly the cap, in the same direction. *)
Theorem limit_caps_length (v : t) (max : R) :
  0 <= max ->
  magnitude (limit v max) <= max
  /\ (magnitude v <= max -> limit v max = v)
  /\ (max < magnitude v ->
      magnitude (limit v max) = max
      /\ limit v max = multiply v (max / magnitude v)).
Proof.
  intros Hmax; split; [now apply magnitude_limit|].
  pose proof (magnitude_nonneg v) as Hn; pose proof (magnitude_sqr v) as Hs.
  split; intros Hv; unfold limit; lazy zeta.
  - rewrite (proj2 (Rltb_false (max * max) (magnitudeSquared v)))
      by nra.
    reflexivity.
  - rewrite (proj2 (Rltb_true (max * max) (magnitudeSquared v))) by nra.
    assert (Hm : 0 < magnitude v) by lra.
    split.
    + rewrite magnitude_multiply, magnitude_normalize by assumption.
      rewrite Rabs_pos_eq by assumption; lra.
    + rewrite normalize_nonzero by assumption.
      destruct v as [a b]; unfold multiply; cbn; f_equal; field; lra.
Qed.

(** X3.  [rotate] is a rotation: it keeps the length of the vector,
    rotating by 0 changes nothing, and rotating by [a] and then by [b] is
    rotating by [a + b]. *)
Theorem rotate_rotation (v : t) (a b : R) :
  magnitude (rotate v a) = magnitude v
  /\ rotate v 0 = v
  /\ rotate (rotate v a) b = rotate v (a + b).
Proof.
  split; [|split].
  - unfold magnitude, rotate; cbn; f_equal.
    pose proof (sin2_cos2 a) as Hsc; unfold Rsqr in Hsc.
    replace ((x v * cos a - y v * sin a) * (x v * cos a - y v * sin a)
             + (x v * sin a + y v * cos a) * (x v * sin a + y v * cos a))
      with ((x v * x v + y v * y v) * (sin a * sin a + cos a * cos a))
      by ring.
    rewrite Hsc; ring.
  - destruct v as [p q]; unfold rotate; cbn.
    rewrite cos_0, sin_0; f_equal; ring.
  - unfold rotate; cbn; rewrite cos_plus, sin_plus; f_equal; ring.
Qed.

(** X4.  [setMagnitude] gives every vector but the zero vector the length
    [|mag|]; the zero vector stays the zero vector, whatever length is
    asked for.  [fromAngle] builds a vector of length [|magnitude|]. *)
Theorem setMagnitude_length (v : t) (mag : R) :
  (v <> mk 0 0 -> magnitude (setMagnitude v mag) = Rabs mag)
  /\ setMagnitude (mk 0 0) mag = mk 0 0
  /\ (forall a, magnitude (fromAngle a mag) = Rabs mag).
Proof.
  split; [|split].
  - intros Hv; unfold setMagnitude.
    assert (Hm : 0 < magnitude v).
    { destruct (magnitude_nonneg v) as [Hn|Hn]; [exact Hn|].
      symmetry in Hn; apply magnitude_zero in Hn; contradiction. }
    rewrite magnitude_multiply, magnitude_normalize by assumption; ring.
  - unfold setMagnitude.
    rewrite normalize_zero by (apply magnitude_zero; reflexivity).
    unfold multiply; cbn; f_equal; ring.
  - intros a; unfold fromAngle, magnitude; cbn.
    pose proof (sin2_cos2 a) as Hsc; unfold Rsqr in Hsc.
    replace (cos a * mag * (cos a * mag) + sin a * mag * (sin a * mag))
      with ((sin a * sin a + cos a * cos a) * Rsqr mag)
      by (unfold Rsqr; ring).
    rewrite Hsc, Rmult_1_l; apply sqrt_Rsqr_abs.
Qed.

End VectorLength.

(** ** PhysicsBody: impulses, forces, rest *)

Section BodyDynamics.
Import PhysicsBody.
Context `{MathLib}.

(** X5.  An impulse changes the momentum of a body of positive mass by
    exactly the impulse and leaves its position alone; on a static body
    [applyImpulse] does nothing. *)
Theorem applyImpulse_momentum (b : t) (impulse : Vec) :
  (isStatic b = true -> applyImpulse b impulse = b)
  /\ (isStatic b = false -> 0 < mass b -> inverseMass b = 1 / mass b ->
      getMomentum (applyImpulse b impulse)
      = Vector2D.add (getMomentum b) impulse
      /\ position (applyImpulse b impulse) = position b).
Proof.
  unfold applyImpulse; split; intros Hs; rewrite Hs; [reflexivity|].
  intros Hm Hi; split; [|reflexivity].
  unfold getMomentum, Vector2D.add, Vector2D.multiply; cbn.
  rewrite Hi; f_equal; field; lra.
Qed.

(** The fields [update] writes, for a body that is not static. *)
Lemma update_fields (b : t) (dt : R) :
  isStatic b = false ->
  let b' := update b dt in
  acceleration b' = Vector2D.multiply (force b) (inverseMass b)
  /\ velocity b'
     = Vector2D.multiply
         (Vector2D.add (velocity b)
            (Vector2D.multiply
               (Vector2D.multiply (force b) (inverseMass b)) dt))
         (Math_pow (linearDamping b) (dt * 60))
  /\ position b'
     = Vector2D.add (position b) (Vector2D.multiply (velocity b') dt)
  /\ angularVelocity b'
     = (angularVelocity b + torque b * inverseMass b * dt)
       * Math_pow (angularDamping b) (dt * 60)
  /\ angle b' = angle b + angularVelocity b' * dt
  /\ force b' = Vector2D.mk 0 0
  /\ torque b' = 0
  /\ mass b' = mass b /\ inverseMass b' = inverseMass b
  /\ linearDamping b' = linearDamping b
  /\ isStatic b' = false.
Proof.
  intros Hs; unfold update; rewrite Hs.
  repeat split; reflexivity || assumption.
Qed.

(** X6.  After [stop] a body is at rest: the next [update] leaves its
    position and angle where they were, whatever the damping, and it has
    no velocity and no kinetic energy. *)
Theorem stop_rests (b : t) (dt : R) :
  let b' := update (stop b) dt in
  position b' = position b
  /\ angle b' = angle b
  /\ velocity b' = Vector2D.mk 0 0
  /\ angularVelocity b' = 0
  /\ getKineticEnergy b' = 0.
Proof.
  intros b'; subst b'.
  assert (Hv : forall c : t,
            velocity c = Vector2D.mk 0 0 -> getKineticEnergy c = 0).
  { intros c Hc; unfold getKineticEnergy, Vector2D.magnitudeSquared.
    rewrite Hc; cbn; ring. }
  destruct (isStatic (stop b)) eqn:Hs.
  - unfold update; rewrite Hs.
    repeat split; try reflexivity. now apply Hv.
  - destruct (update_fields (stop b) dt Hs)
      as (_ & Ev & Ep & Ew & Ea & _).
    cbn zeta in *.
    assert (Ev0 : velocity (update (stop b) dt) = Vector2D.mk 0 0).
    { rewrite Ev; unfold stop, Vector2D.multiply, Vector2D.add; cbn.
      f_equal; ring. }
    assert (Ew0 : angularVelocity (update (stop b) dt) = 0).
    { rewrite Ew; unfold stop; cbn; ring. }
    split.
    { rewrite Ep, Ev0; unfold stop; cbn.
      destruct (position b) as [px py].
      unfold Vector2D.multiply, Vector2D.add; cbn; f_equal; ring. }
    split; [rewrite Ea, Ew0; unfold stop; cbn; ring|].
    split; [exact Ev0|]. split; [exact Ew0 | now apply Hv].
Qed.

(** X7.  Forces accumulate until the next integration step and act in
    that step only: two [applyForce] calls equal one with the sum, and
    after the step that consumes them the body, left alone, has no
    acceleration and only its damping changes the velocity. *)
Theorem force_acts_one_step (b : t) (f g : Vec) (dt dt' : R) :
  isStatic b = false ->
  let b1 := update (applyForce (applyForce b f) g) dt in
  applyForce (applyForce b f) g
  = applyForce b (Vector2D.add f g)
  /\ acceleration b1
     = Vector2D.multiply (Vector2D.add (force b) (Vector2D.add f g))
                         (inverseMass b)
  /\ force b1 = Vector2D.mk 0 0
  /\ acceleration (update b1 dt') = Vector2D.mk 0 0
  /\ velocity (update b1 dt')
     = Vector2D.multiply (velocity b1)
                         (Math_pow (linearDamping b) (dt' * 60)).
Proof.
  intros Hs b1.
  assert (Ec : applyForce (applyForce b f) g
               = applyForce b (Vector2D.add f g)).
  { unfold applyForce; rewrite Hs; cbn; rewrite Hs.
    unfold set_force, Vector2D.add; cbn; do 2 f_equal; ring. }
  split; [exact Ec|].
  subst b1; rewrite Ec; clear Ec.
  set (b0 := applyForce b (Vector2D.add f g)).
  assert (Hs0 : isStatic b0 = false)
    by (unfold b0, applyForce; rewrite Hs; exact Hs).
  assert (Hf0 : force b0 = Vector2D.add (force b) (Vector2D.add f g))
    by (unfold b0, applyForce; rewrite Hs; reflexivity).
  assert (Hi0 : inverseMass b0 = inverseMass b)
    by (unfold b0, applyForce; rewrite Hs; reflexivity).
  assert (Hl0 : linearDamping b0 = linearDamping b)
    by (unfold b0, applyForce; rewrite Hs; reflexivity).
  destruct (update_fields b0 dt Hs0)
    as (Ea & _ & _ & _ & _ & Ef & _ & _ & Ei & El & Hs1).
  cbn zeta in *.
  split; [rewrite Ea, Hf0, Hi0; reflexivity|].
  split; [exact Ef|].
  destruct (update_fields (update b0 dt) dt' Hs1) as (Ea' & Ev' & _).
  cbn zeta in *.
  split.
  - rewrite Ea', Ef; unfold Vector2D.multiply; cbn; f_equal; ring.
  - rewrite Ev', Ef, El, Hl0.
    destruct (velocity (update b0 dt)) as [vx vy].
    unfold Vector2D.multiply, Vector2D.add; cbn; f_equal; ring.
Qed.

End BodyDynamics.

(** ** PhysicsBody: turning toward an angle *)

Section RotateTowards.
Import PhysicsBody.

Lemma two_pi_pos : 0 < PI * 2.
Proof. pose proof PI_RGT_0; lra. Qed.

Lemma wrapAbove_spec (fuel : nat) :
  forall d, d <= PI * 2 * INR fuel ->
    let d' := wrapAbove fuel d in
    d' <= PI
    /\ (d <= PI -> d' = d)
    /\ (PI < d -> - PI < d')
    /\ exists k : nat, d' = d - PI * 2 * INR k.
Proof.
  pose proof two_pi_pos as Hp.
  induction fuel as [|fuel IH]; intros d Hd; cbn [wrapAbove].
  - cbn in Hd. repeat split; try lra. exists 0%nat; cbn; ring.
  - rewrite S_INR in Hd.
    destruct (d >? PI) eqn:E; cmp_facts.
    + destruct (IH (d - PI * 2)) as (H1 & H2 & H3 & k & Hk); [lra|].
      cbn zeta in *.
      split; [exact H1|]. split; [lra|]. split.
      * intros _. destruct (Rle_or_lt (d - PI * 2) PI) as [Hle|Hgt].
        -- rewrite H2 by exact Hle; lra.
        -- now apply H3.
      * exists (S k); rewrite S_INR, Hk; ring.
    + repeat split; try lra. exists 0%nat; cbn; ring.
Qed.

Lemma wrapBelow_spec (fuel : nat) :
  forall d, - (PI * 2 * INR fuel) <= d ->
    let d' := wrapBelow fuel d in
    - PI <= d'
    /\ (- PI <= d -> d' = d)
    /\ (d < - PI -> d' < PI)
    /\ exists k : nat, d' = d + PI * 2 * INR k.
Proof.
  pose proof two_pi_pos as Hp.
  induction fuel as [|fuel IH]; intros d Hd; cbn [wrapBelow].
  - cbn in Hd. repeat split; try lra. exists 0%nat; cbn; ring.
  - rewrite S_INR in Hd.
    destruct (d <? - PI) eqn:E; cmp_facts.
    + destruct (IH (d + PI * 2)) as (H1 & H2 & H3 & k & Hk); [lra|].
      cbn zeta in *.
      split; [exact H1|]. split; [lra|]. split.
      * intros _. destruct (Rle_or_lt (- PI) (d + PI * 2)) as [Hle|Hgt].
        -- rewrite H2 by exact Hle; lra.
        -- now apply H3.
      * exists (S k); rewrite S_INR, Hk; ring.
    + repeat split; try lra. exists 0%nat; cbn; ring.
Qed.

(** The fuel of [rotateTowards] covers the difference. *)
Lemma turns_enough (d : R) : Rabs d <= PI * 2 * INR (turns d).
Proof.
  pose proof two_pi_pos as Hp; unfold turns; rewrite S_INR.
  set (q := Rabs d / (PI * 2)).
  assert (Hq : 0 <= q)
    by (unfold q, Rdiv; apply Rmult_le_pos;
        [apply Rabs_pos | left; now apply Rinv_0_lt_compat]).
  pose proof (Zfloor_bound q) as [Hl Hu].
  assert (Hz : (0 <= Zfloor q)%Z).
  { apply le_IZR. pose proof (Math_floor_nonneg q Hq) as Hf.
    unfold Math_floor in Hf; exact Hf. }
  rewrite INR_IZR_INZ, Z2Nat.id by exact Hz.
  assert (Ed : Rabs d = q * (PI * 2)) by (unfold q; field; lra).
  rewrite Ed; nra.
Qed.

Lemma Math_trunc_near (q : R) : Rabs (q - Math_trunc q) < 1.
Proof.
  unfold Math_trunc; destruct (0 <=? q) eqn:E; cmp_facts.
  - pose proof (Math_floor_bound q). apply Rabs_def1; lra.
  - pose proof (Math_floor_bound (- q)). apply Rabs_def1; lra.
Qed.

Lemma Math_trunc_small (q : R) : Rabs q < 1 -> Math_trunc q = 0.
Proof.
  intros Hq; apply Rabs_def2 in Hq; destruct Hq as [Hu Hl].
  unfold Math_trunc, Math_floor; destruct (0 <=? q) eqn:E; cmp_facts.
  - replace (Zfloor q) with 0%Z; [reflexivity|].
    symmetry; apply Zfloor_eq; cbn; lra.
  - replace (Zfloor (- q)) with 0%Z; [cbn; ring|].
    symmetry; apply Zfloor_eq; cbn; lra.
Qed.

(** The remainder is smaller than the divisor, and a number already
    smaller than the divisor is its own remainder. *)
Lemma js_rem_bound (a b : R) :
  0 < b -> Rabs (js_rem a b) < b /\ (Rabs a < b -> js_rem a b = a).
Proof.
  intros Hb; unfold js_rem; split.
  - replace (a - b * Math_trunc (a / b))
      with (b * (a / b - Math_trunc (a / b))) by (field; lra).
    rewrite Rabs_mult, (Rabs_pos_eq b) by lra.
    pose proof (Math_trunc_near (a / b)); nra.
  - intros Ha; rewrite Math_trunc_small; [ring|].
    unfold Rdiv; rewrite Rabs_mult, (Rabs_pos_eq (/ b))
      by (left; now apply Rinv_0_lt_compat).
    apply Rmult_lt_reg_r with b; [exact Hb|].
    rewrite Rmult_assoc, Rinv_l by lra; lra.
Qed.

(** X8.  [rotateTowards] always leaves the angle strictly inside one full
    turn, [(-2 PI, 2 PI)].  It measures the turn still to make along the
    shorter way round, a difference within [-PI, PI] that equals
    [targetAngle - angle] up to full turns; when that is less than
    [rotationSpeed * deltaTime] the body snaps to the target angle (reduced
    by [% 2 PI]), and in particular a target it already faces is kept. *)
Theorem rotateTowards_bounded (b : t) (targetAngle rotationSpeed deltaTime : R) :
  let b' := rotateTowards b targetAngle rotationSpeed deltaTime in
  let diff := wrapBelow (turns (targetAngle - angle b))
                (wrapAbove (turns (targetAngle - angle b))
                           (targetAngle - angle b)) in
  Rabs (angle b') < PI * 2
  /\ - PI <= diff <= PI
  /\ (exists k : Z, diff = targetAngle - angle b + PI * 2 * IZR k)
  /\ (Rabs diff < rotationSpeed * deltaTime ->
      angle b' = js_rem targetAngle (PI * 2)
      /\ (Rabs targetAngle < PI * 2 -> angle b' = targetAngle)).
Proof.
  intros b' diff; pose proof two_pi_pos as Hp.
  set (d := targetAngle - angle b) in *.
  pose proof (turns_enough d) as Hfuel.
  assert (Hd : d <= PI * 2 * INR (turns d) /\ - (PI * 2 * INR (turns d)) <= d)
    by (unfold Rabs in Hfuel; destruct (Rcase_abs d); lra).
  destruct Hd as [Hup Hlo].
  destruct (wrapAbove_spec (turns d) d Hup) as (A1 & A2 & A3 & ka & Hka).
  cbn zeta in *.
  set (d1 := wrapAbove (turns d) d) in *.
  assert (Hlo1 : - (PI * 2 * INR (turns d)) <= d1).
  { destruct (Rle_or_lt d PI) as [Hle|Hgt].
    - rewrite A2 by exact Hle; exact Hlo.
    - pose proof (A3 Hgt). pose proof (pos_INR (turns d)).
      unfold turns in *; rewrite S_INR in *.
      pose proof (pos_INR (Z.to_nat (Zfloor (Rabs d / (PI * 2))))). nra. }
  destruct (wrapBelow_spec (turns d) d1 Hlo1) as (B1 & B2 & B3 & kb & Hkb).
  cbn zeta in *.
  fold diff in B1, B2, B3, Hkb.
  assert (Hrange : - PI <= diff <= PI).
  { split; [exact B1|].
    destruct (Rle_or_lt (- PI) d1) as [Hle|Hgt].
    - rewrite B2 by exact Hle; exact A1.
    - left; now apply B3. }
  assert (Hang : forall a, angle (set_angle (set_angle b a)
                                   (js_rem a (PI * 2)))
                           = js_rem a (PI * 2)) by reflexivity.
  assert (Hb' : exists a, angle b' = js_rem a (PI * 2)
                /\ (Rabs diff < rotationSpeed * deltaTime -> a = targetAngle)).
  { subst b'; unfold rotateTowards; lazy zeta.
    fold d; fold d1; fold diff.
    destruct (Rabs diff <? rotationSpeed * deltaTime) eqn:E; cmp_facts.
    - exists targetAngle; split; [reflexivity | auto].
    - eexists; split; [reflexivity | intros; lra]. }
  destruct Hb' as (a & Ha & Hsnap).
  split; [rewrite Ha; apply js_rem_bound, Hp|].
  split; [exact Hrange|].
  split.
  - exists (Z.of_nat kb - Z.of_nat ka)%Z.
    rewrite minus_IZR, <- !INR_IZR_INZ, Hkb, Hka; ring.
  - intros Hs; rewrite Ha, (Hsnap Hs); split; [reflexivity|].
    intros Ht; now apply js_rem_bound.
Qed.

End RotateTowards.

(** ** CollisionSystem: circles, separation, segments, bounds *)

Section CollisionGeometry.
Import PhysicsBody CollisionSystem.

Lemma distanceTo_magnitude (v w : Vec) :
  Vector2D.distanceTo v w = Vector2D.magnitude (Vector2D.subtract v w).
Proof. reflexivity. Qed.

Lemma distanceTo_sym (v w : Vec) :
  Vector2D.distanceTo v w = Vector2D.distanceTo w v.
Proof. unfold Vector2D.distanceTo; lazy zeta; f_equal; ring. Qed.

Lemma distanceSquaredTo_sqr (v w : Vec) :
  Vector2D.distanceSquaredTo v w
  = Vector2D.distanceTo v w * Vector2D.distanceTo v w.
Proof.
  rewrite distanceTo_magnitude, magnitude_sqr.
  unfold Vector2D.distanceSquaredTo, Vector2D.magnitudeSquared; reflexivity.
Qed.

(** X9.  The squared test of [checkCircleCollision] is the distance test:
    for radii whose sum is not negative it answers true exactly when the
    centres are closer than the sum of the radii.  The answer does not
    depend on the order of the two objects. *)
Theorem checkCircleCollision_distance (a b : Body) (radius1 radius2 : R) :
  checkCircleCollision a b radius1 radius2
  = checkCircleCollision b a radius2 radius1
  /\ (0 <= radius1 + radius2 ->
      (checkCircleCollision a b radius1 radius2 = true
       <-> Vector2D.distanceTo (position a) (position b)
           < radius1 + radius2)).
Proof.
  unfold checkCircleCollision; lazy zeta; split.
  - f_equal; [unfold Vector2D.distanceSquaredTo; lazy zeta; ring | ring].
  - intros Hr; rewrite Rltb_true, distanceSquaredTo_sqr.
    pose proof (magnitude_nonneg
                  (Vector2D.subtract (position a) (position b))) as Hd.
    rewrite <- distanceTo_magnitude in Hd.
    split; intros Hlt; nra.
Qed.

(** Where [separateObjects] puts two overlapping bodies, in terms of the
    vector [n] between the centres. *)
Lemma separation_vector (n : Vec) (k : R) :
  0 < Vector2D.magnitude n ->
  Vector2D.magnitude
    (Vector2D.add n
       (Vector2D.multiply (Vector2D.normalize n) k))
  = Rabs (Vector2D.magnitude n + k).
Proof.
  intros Hm; rewrite normalize_nonzero by assumption.
  replace (Vector2D.add n
             (Vector2D.multiply
                (Vector2D.multiply n (/ Vector2D.magnitude n)) k))
    with (Vector2D.multiply n
            ((Vector2D.magnitude n + k) / Vector2D.magnitude n)).
  - rewrite magnitude_multiply.
    unfold Rdiv; rewrite Rabs_mult.
    rewrite (Rabs_pos_eq (/ Vector2D.magnitude n))
      by (left; now apply Rinv_0_lt_compat).
    field; lra.
  - destruct n as [nx ny]; unfold Vector2D.multiply, Vector2D.add; cbn.
    f_equal; field; cbn in Hm; lra.
Qed.

(** X10.  [separateObjects] acts only on two bodies that overlap and do
    not share a centre.  Two bodies that are not static are each moved
    half the overlap apart, along the line through their centres: the
    distance between the centres becomes [radius1 + radius2], and their
    midpoint does not move.  When the first body is static only the second
    one moves, by half the overlap, so half of the overlap remains. *)
Theorem separateObjects_touch (a b : Body) (radius1 radius2 : R) :
  let a' := fst (separateObjects a b radius1 radius2) in
  let b' := snd (separateObjects a b radius1 radius2) in
  let d := Vector2D.distanceTo (position b) (position a) in
  (d = 0 \/ radius1 + radius2 <= d -> a' = a /\ b' = b)
  /\ (0 < d < radius1 + radius2 -> isStatic a = false ->
      isStatic b = false ->
      Vector2D.distanceTo (position b') (position a') = radius1 + radius2
      /\ Vector2D.add (position a') (position b')
         = Vector2D.add (position a) (position b))
  /\ (0 < d < radius1 + radius2 -> isStatic a = true ->
      isStatic b = false ->
      a' = a
      /\ Vector2D.distanceTo (position b') (position a')
         = (d + (radius1 + radius2)) / 2).
Proof.
  intros a' b' d; subst a' b' d; unfold separateObjects; lazy zeta.
  set (n := Vector2D.subtract (position b) (position a)).
  change (Vector2D.distanceTo (position b) (position a))
    with (Vector2D.magnitude n).
  set (d := Vector2D.magnitude n).
  pose proof (magnitude_nonneg n) as Hn; fold d in Hn.
  split; [|split].
  - intros Hd.
    assert (E : (radius1 + radius2 - d >? 0) && (d >? 0) = false).
    { destruct Hd as [Hd|Hd].
      - rewrite (proj2 (Rltb_false 0 d)) by lra; apply andb_false_r.
      - rewrite (proj2 (Rltb_false 0 (radius1 + radius2 - d))) by lra.
        reflexivity. }
    rewrite E; split; reflexivity.
  - intros [Hd0 Hd1] Hsa Hsb.
    rewrite (proj2 (Rltb_true 0 (radius1 + radius2 - d))) by lra.
    rewrite (proj2 (Rltb_true 0 d)) by lra.
    rewrite Hsa, Hsb; cbn [andb negb fst snd].
    set (sep := Vector2D.multiply (Vector2D.normalize n)
                  ((radius1 + radius2 - d) / 2)).
    assert (Ediff :
      Vector2D.subtract
        (position (set_position b (Vector2D.add (position b) sep)))
        (position (set_position a (Vector2D.subtract (position a) sep)))
      = Vector2D.add n
          (Vector2D.multiply (Vector2D.normalize n)
                             (radius1 + radius2 - d))).
    { unfold sep, n.
      destruct (Vector2D.normalize
                  (Vector2D.subtract (position b) (position a)))
        as [ux uy].
      unfold Vector2D.subtract, Vector2D.add, Vector2D.multiply; cbn.
      f_equal; field. }
    assert (Edist :
      Vector2D.distanceTo
        (position (set_position b (Vector2D.add (position b) sep)))
        (position (set_position a (Vector2D.subtract (position a) sep)))
      = radius1 + radius2).
    { rewrite distanceTo_magnitude, Ediff, separation_vector by exact Hd0.
      fold d; rewrite Rabs_pos_eq by lra; ring. }
    split; [exact Edist|].
    unfold Vector2D.subtract, Vector2D.add; cbn; f_equal; ring.
  - intros [Hd0 Hd1] Hsa Hsb.
    rewrite (proj2 (Rltb_true 0 (radius1 + radius2 - d))) by lra.
    rewrite (proj2 (Rltb_true 0 d)) by lra.
    rewrite Hsa, Hsb; cbn [andb negb fst snd].
    split; [reflexivity|].
    set (sep := Vector2D.multiply (Vector2D.normalize n)
                  ((radius1 + radius2 - d) / 2)).
    assert (Ediff :
      Vector2D.subtract
        (position (set_position b (Vector2D.add (position b) sep)))
        (position a)
      = Vector2D.add n sep).
    { unfold n; destruct sep as [sx sy].
      unfold Vector2D.subtract, Vector2D.add; cbn; f_equal; ring. }
    rewrite distanceTo_magnitude, Ediff; unfold sep.
    rewrite separation_vector by exact Hd0.
    fold d; rewrite Rabs_pos_eq by lra; field.
Qed.

(** X11.  What [lineCircleIntersection] reports is a point of the segment
    that lies on the circle: the parameter is within [0, 1], the point is
    the start moved by that share of the segment, and its distance from
    the centre is the radius.  A segment of length zero never reports a
    hit. *)
Theorem lineCircleIntersection_sound
    (lineStart lineEnd circlePos : Vec) (radius : R) :
  match lineCircleIntersection lineStart lineEnd circlePos radius with
  | Some hit =>
      0 <= t hit <= 1
      /\ point hit
         = Vector2D.add lineStart
             (Vector2D.multiply (Vector2D.subtract lineEnd lineStart)
                                (t hit))
      /\ Vector2D.distanceSquaredTo (point hit) circlePos = radius * radius
      /\ lineStart <> lineEnd
  | None => True
  end
  /\ lineCircleIntersection lineStart lineStart circlePos radius = None.
Proof.
  split.
  - unfold lineCircleIntersection; lazy zeta.
    set (line := Vector2D.subtract lineEnd lineStart).
    set (cts := Vector2D.subtract lineStart circlePos).
    set (qa := Vector2D.dot line line).
    set (qb := 2 * Vector2D.dot cts line).
    set (qc := Vector2D.dot cts cts - radius * radius).
    set (D := qb * qb - 4 * qa * qc).
    destruct (D <? 0) eqn:ED; [exact I|]; cmp_facts.
    destruct (qa =? 0) eqn:Ea; [exact I|]; cmp_facts.
    set (t1 := (- qb - sqrt D) / (2 * qa)).
    set (t2 := (- qb + sqrt D) / (2 * qa)).
    destruct (((t1 >=? 0) && (t1 <=? 1)) || ((t2 >=? 0) && (t2 <=? 1)))
      eqn:Ein; [|exact I].
    cbn [point t].
    assert (Hs : sqrt D * sqrt D = D) by (apply sqrt_sqrt; exact ED).
    assert (Hroot : forall u, u = t1 \/ u = t2 ->
              qa * u * u + qb * u + qc = 0).
    { subst t1 t2; set (sD := sqrt D) in *; clearbody sD.
      unfold D in Hs.
      intros u [-> | ->]; (field_simplify_eq; [|exact Ea]);
        replace (sD ^ 2) with (sD * sD) by ring; rewrite Hs; ring. }
    assert (Hon : forall u, qa * u * u + qb * u + qc = 0 ->
              Vector2D.distanceSquaredTo
                (Vector2D.add lineStart (Vector2D.multiply line u))
                circlePos = radius * radius).
    { intros u Hu.
      unfold qa, qb, qc, cts, line in Hu.
      unfold Vector2D.distanceSquaredTo, Vector2D.add, Vector2D.multiply,
        Vector2D.subtract, Vector2D.dot in *; cbn in *; lazy zeta.
      lra || nra. }
    assert (Hne : lineStart <> lineEnd).
    { intros ->; apply Ea; unfold qa, line, Vector2D.dot,
        Vector2D.subtract; cbn; ring. }
    destruct ((t1 >=? 0) && (t1 <=? 1)) eqn:E1.
    + apply andb_prop in E1; destruct E1 as [E1a E1b]; cmp_facts.
      repeat split; auto.
    + cbn [orb] in Ein.
      apply andb_prop in Ein; destruct Ein as [E2a E2b]; cmp_facts.
      repeat split; auto.
  - unfold lineCircleIntersection; lazy zeta.
    destruct (_ <? 0); [reflexivity|].
    rewrite (proj2 (Reqb_true _ 0)); [reflexivity|].
    unfold Vector2D.dot, Vector2D.subtract; cbn; ring.
Qed.

(** The new place of a body that [bounceOffBounds] has handled. *)
Lemma bounceOffBounds_position (body : Body)
    (width height boundsWidth boundsHeight restitution : R) :
  width <= boundsWidth -> height <= boundsHeight ->
  let b' := bounceOffBounds body width height boundsWidth boundsHeight
                            restitution in
  width / 2 <= Vector2D.x (position b') <= boundsWidth - width / 2
  /\ height / 2 <= Vector2D.y (position b') <= boundsHeight - height / 2.
Proof.
  intros Hw Hh; unfold bounceOffBounds; lazy zeta.
  destruct (Vector2D.x (position body) - width / 2 <? 0) eqn:E1;
    [|destruct (Vector2D.x (position body) + width / 2 >? boundsWidth)
        eqn:E2];
    cbn [position velocity set_position set_velocity Vector2D.x Vector2D.y
         Vector2D.set_x Vector2D.set_y];
    (destruct (Vector2D.y (position body) - height / 2 <? 0) eqn:E3;
     [|destruct (Vector2D.y (position body) + height / 2 >? boundsHeight)
         eqn:E4]);
    cbn [position velocity set_position set_velocity Vector2D.x Vector2D.y
         Vector2D.set_x Vector2D.set_y];
    cmp_facts; lra.
Qed.

(** X12.  Inside bounds that are at least as large as the object,
    [bounceOffBounds] leaves the body within them ([isInBounds] holds
    afterwards), a body already inside is not touched, and with a
    restitution between 0 and 1 no velocity component grows. *)
Theorem bounceOffBounds_inside (body : Body)
    (width height boundsWidth boundsHeight restitution : R) :
  width <= boundsWidth -> height <= boundsHeight ->
  let b' := bounceOffBounds body width height boundsWidth boundsHeight
                            restitution in
  isInBounds (position b') width height boundsWidth boundsHeight = true
  /\ (isInBounds (position body) width height boundsWidth boundsHeight
      = true -> b' = body)
  /\ (0 <= restitution <= 1 ->
      Rabs (Vector2D.x (velocity b')) <= Rabs (Vector2D.x (velocity body))
      /\ Rabs (Vector2D.y (velocity b'))
         <= Rabs (Vector2D.y (velocity body))).
Proof.
  intros Hw Hh b'.
  destruct (bounceOffBounds_position body width height boundsWidth
              boundsHeight restitution Hw Hh) as [[Hx1 Hx2] [Hy1 Hy2]].
  fold b' in Hx1, Hx2, Hy1, Hy2.
  split; [|split].
  - unfold isInBounds.
    rewrite !(proj2 (Rleb_true _ _)) by assumption; reflexivity.
  - unfold isInBounds; intros Hin.
    apply andb_prop in Hin; destruct Hin as [Hin H4].
    apply andb_prop in Hin; destruct Hin as [Hin H3].
    apply andb_prop in Hin; destruct Hin as [H1 H2]; cmp_facts.
    subst b'; unfold bounceOffBounds; lazy zeta.
    rewrite (proj2 (Rltb_false (Vector2D.x (position body) - width / 2) 0))
      by lra.
    rewrite (proj2 (Rltb_false boundsWidth
                      (Vector2D.x (position body) + width / 2))) by lra.
    rewrite (proj2 (Rltb_false (Vector2D.y (position body) - height / 2) 0))
      by lra.
    rewrite (proj2 (Rltb_false boundsHeight
                      (Vector2D.y (position body) + height / 2))) by lra.
    reflexivity.
  - intros Hr; subst b'; unfold bounceOffBounds; lazy zeta.
    assert (Hk : forall v, Rabs (Rabs v * restitution) <= Rabs v).
    { intros v; pose proof (Rabs_pos v).
      rewrite Rabs_pos_eq by nra; nra. }
    assert (Hk' : forall v, Rabs (- Rabs v * restitution) <= Rabs v).
    { intros v; pose proof (Rabs_pos v).
      replace (- Rabs v * restitution) with (- (Rabs v * restitution))
        by ring.
      rewrite Rabs_Ropp; apply Hk. }
    destruct (Vector2D.x (position body) - width / 2 <? 0) eqn:E1;
      [|destruct (Vector2D.x (position body) + width / 2 >? boundsWidth)
          eqn:E2];
      cbn [position velocity set_position set_velocity Vector2D.x
           Vector2D.y Vector2D.set_x Vector2D.set_y];
      (destruct (Vector2D.y (position body) - height / 2 <? 0) eqn:E3;
       [|destruct (Vector2D.y (position body) + height / 2 >? boundsHeight)
           eqn:E4]);
      cbn [position velocity set_position set_velocity Vector2D.x
           Vector2D.y Vector2D.set_x Vector2D.set_y];
      split; auto; apply Rle_refl.
Qed.

(** X13.  [wrapAround] brings a position that has left the playfield by
    more than half the object's size back in on the opposite side, so the
    result is always within half a size of the playfield; a position that
    [isInBounds] accepts is never moved. *)
Theorem wrapAround_range (position : Vec)
    (width height boundsWidth boundsHeight : R) :
  0 <= width -> 0 <= height -> 0 <= boundsWidth -> 0 <= boundsHeight ->
  let p' := wrapAround position width height boundsWidth boundsHeight in
  (- width / 2 <= Vector2D.x p' <= boundsWidth + width / 2
   /\ - height / 2 <= Vector2D.y p' <= boundsHeight + height / 2)
  /\ (isInBounds position width height boundsWidth boundsHeight = true ->
      p' = position).
Proof.
  intros Hw Hh HW HH p'; subst p'; unfold wrapAround; lazy zeta; split.
  - destruct (Vector2D.x position <? - width / 2) eqn:E1;
      cbn [Vector2D.x Vector2D.y Vector2D.set_x Vector2D.set_y];
      (match goal with
       | |- context [if ?c >? boundsWidth + width / 2 then _ else _] =>
           destruct (c >? boundsWidth + width / 2) eqn:E2
       end;
       cbn [Vector2D.x Vector2D.y Vector2D.set_x Vector2D.set_y]);
      (destruct (Vector2D.y position <? - height / 2) eqn:E3;
       cbn [Vector2D.x Vector2D.y Vector2D.set_x Vector2D.set_y]);
      (match goal with
       | |- context [if ?c >? boundsHeight + height / 2 then _ else _] =>
           destruct (c >? boundsHeight + height / 2) eqn:E4
       end;
       cbn [Vector2D.x Vector2D.y Vector2D.set_x Vector2D.set_y]);
      cmp_facts; lra.
  - unfold isInBounds; intros Hin.
    apply andb_prop in Hin; destruct Hin as [Hin H4].
    apply andb_prop in Hin; destruct Hin as [Hin H3].
    apply andb_prop in Hin; destruct Hin as [H1 H2]; cmp_facts.
    rewrite (proj2 (Rltb_false (Vector2D.x position) (- width / 2))) by lra.
    rewrite (proj2 (Rltb_false (boundsWidth + width / 2)
                      (Vector2D.x position))) by lra.
    rewrite (proj2 (Rltb_false (Vector2D.y position) (- height / 2)))
      by lra.
    rewrite (proj2 (Rltb_false (boundsHeight + height / 2)
                      (Vector2D.y position))) by lra.
    reflexivity.
Qed.

End CollisionGeometry.

(** ** Spaceship: what each block of [update] touches *)

Section ShipStages.
Import Spaceship.

Ltac split_ifs :=
  repeat match goal with
         | |- context [if ?c then _ else _] => destruct c
         end.

Lemma updatePowerUp_shape (s : t) (dt : R) :
  updatePowerUp s dt
  = set_shield s (shield (updatePowerUp s dt)).
Proof.
  unfold updatePowerUp, deactivateShield; destruct s; cbn -[Rmax Rmin].
  split_ifs; reflexivity.
Qed.

Lemma updateShield_shape (s : t) (dt : R) :
  updateShield s dt
  = set_shield s (shield (updateShield s dt)).
Proof.
  unfold updateShield, deactivateShield; destruct s; cbn -[Rmax Rmin].
  split_ifs; reflexivity.
Qed.

Lemma updateCooldown_shape (s : t) (dt : R) :
  updateCooldown s dt
  = set_weapons s (weapons (updateCooldown s dt)).
Proof.
  unfold updateCooldown, deactivateShield; destruct s; cbn -[Rmax Rmin].
  split_ifs; reflexivity.
Qed.

Lemma updateInvulnerability_shape (s : t) (dt : R) :
  updateInvulnerability s dt
  = set_invulnerable s (invulnerable (updateInvulnerability s dt))
      (invulnerabilityTimer (updateInvulnerability s dt)).
Proof.
  unfold updateInvulnerability, deactivateShield; destruct s; cbn -[Rmax Rmin].
  split_ifs; reflexivity.
Qed.

Lemma updateTrail_shape (s : t) (dt : R) :
  updateTrail s dt
  = set_trail s (trail (updateTrail s dt)) (trailTimer (updateTrail s dt)).
Proof.
  unfold updateTrail, deactivateShield; destruct s; cbn -[Rmax Rmin].
  split_ifs; reflexivity.
Qed.

End ShipStages.

(** Look through one block at the fields it leaves alone. *)
Ltac peel_stage shape :=
  rewrite shape;
  cbn [Spaceship.body Spaceship.width Spaceship.height Spaceship.maxSpeed
       Spaceship.shield Spaceship.weapons Spaceship.health
       Spaceship.maxHealth Spaceship.invulnerable
       Spaceship.invulnerabilityTimer Spaceship.trail
       Spaceship.maxTrailLength Spaceship.trailTimer
       Spaceship.set_shield Spaceship.set_weapons
       Spaceship.set_invulnerable Spaceship.set_trail Spaceship.set_frame
       Spaceship.set_body].

(** ** Spaceship: health, shield, weapon, trail and speed *)

Section ShipInvariants.
Import Spaceship.
Context `{MathLib}.

Lemma update_body (s : t) (dt : R) :
  body (update s dt)
  = PhysicsBody.limitVelocity (PhysicsBody.update (body s) dt) (maxSpeed s).
Proof.
  unfold update; lazy zeta.
  peel_stage updateTrail_shape; peel_stage updateInvulnerability_shape.
  peel_stage updateCooldown_shape; peel_stage updateShield_shape.
  peel_stage updatePowerUp_shape; reflexivity.
Qed.

Lemma update_health (s : t) (dt : R) :
  health (update s dt) = health s /\ maxHealth (update s dt) = maxHealth s.
Proof.
  unfold update; lazy zeta.
  peel_stage updateTrail_shape; peel_stage updateInvulnerability_shape.
  peel_stage updateCooldown_shape; peel_stage updateShield_shape.
  peel_stage updatePowerUp_shape; split; reflexivity.
Qed.

Lemma Rmax_0_nonneg (a : R) : 0 <= Rmax 0 a.
Proof. apply Rmax_l. Qed.

(** X14.  The health of a ship stays between 0 and its maximum: a hit of
    a non-negative amount never raises it and never takes it below 0,
    [heal] of a non-negative amount never lowers it and never takes it
    above the maximum, [update] does not touch it and [reset] restores the
    maximum.  On such a ship [isDestroyed] means that the health is
    exactly 0. *)
Theorem health_stays_in_range (s : t) (amount dt : R) :
  healthOk s -> 0 <= amount ->
  (healthOk (fst (takeDamage s amount))
   /\ health (fst (takeDamage s amount)) <= health s)
  /\ (healthOk (heal s amount) /\ health s <= health (heal s amount))
  /\ (health (update s dt) = health s /\ healthOk (update s dt))
  /\ (forall x y, health (reset s x y) = maxHealth s
                  /\ healthOk (reset s x y))
  /\ (isDestroyed s = true <-> health s = 0).
Proof.
  intros [H0 H1] Ha; unfold healthOk.
  split; [|split; [|split; [|split]]].
  - unfold takeDamage.
    destruct (invulnerable s); [cbn; lra|].
    destruct (_ && _); cbn -[Rmax]; [lra|].
    unfold Rmax; destruct (Rle_dec _ _); lra.
  - unfold heal; cbn -[Rmin]; unfold Rmin; destruct (Rle_dec _ _); lra.
  - destruct (update_health s dt) as [-> ->]; lra.
  - intros x y; unfold reset; cbn; lra.
  - unfold isDestroyed; rewrite Rleb_true; lra.
Qed.

(** What the two shield blocks of [update] do to the shield. *)
Lemma updatePowerUp_shieldOk (s : t) (dt : R) :
  shieldOk s ->
  shieldOk (updatePowerUp s dt)
  /\ regenRate (shield (updatePowerUp s dt)) = regenRate (shield s)
  /\ depletionRate (shield (updatePowerUp s dt)) = depletionRate (shield s).
Proof.
  intros [Hb Ha]; unfold shieldOk, updatePowerUp, deactivateShield.
  destruct (powerUpActive (shield s)); [|auto].
  lazy zeta; destruct (_ <=? 0); cbn; repeat split; try tauto;
    try discriminate; exact Ha.
Qed.

Lemma updateShield_shieldOk (s : t) (dt : R) :
  shieldOk s -> 0 <= dt ->
  0 <= regenRate (shield s) -> 0 <= depletionRate (shield s) ->
  shieldOk (updateShield s dt).
Proof.
  intros [[Hb0 Hb1] Ha] Hdt Hr Hd; unfold shieldOk, updateShield.
  lazy zeta.
  destruct (active (shield s)) eqn:Eact.
  - set (st := Rmax 0 (_ - _)).
    assert (Hst : 0 <= st <= strength (shield s)).
    { unfold st, Rmax; destruct (Rle_dec _ _); nra. }
    destruct (st =? 0) eqn:E0; cmp_facts; cbn -[Rmax]; fold st.
    + repeat split; intros; try discriminate; lra.
    + repeat split; intros; try discriminate; lra.
  - destruct (_ <? _) eqn:El; cmp_facts; cbn -[Rmin].
    + rewrite Eact.
      split; [|discriminate].
      unfold Rmin; destruct (Rle_dec _ _); nra.
    + rewrite Eact; split; [lra | discriminate].
Qed.

(** X15.  A shield never holds more than its maximum or less than 0, and
    is never on with nothing left.  [update] (for a frame of non-negative
    length and the non-negative charge and drain rates every ship is built
    with), [takeDamage] of a non-negative amount, [activateShield],
    [deactivateShield], [toggleShield] and [reset] all keep that. *)
Theorem shield_stays_in_range (s : t) (amount dt : R) :
  shieldOk s -> 0 <= amount -> 0 <= dt ->
  0 <= regenRate (shield s) -> 0 <= depletionRate (shield s) ->
  shieldOk (update s dt)
  /\ shieldOk (fst (takeDamage s amount))
  /\ shieldOk (activateShield s)
  /\ shieldOk (deactivateShield s)
  /\ shieldOk (toggleShield s)
  /\ (forall x y, shieldOk (reset s x y)).
Proof.
  intros Hok Ha Hdt Hr Hd.
  assert (Hact : shieldOk (activateShield s)).
  { destruct Hok as [Hb Hon]; unfold shieldOk, activateShield.
    destruct (_ >? 0) eqn:E; cmp_facts; cbn; auto. }
  assert (Hoff : shieldOk (deactivateShield s)).
  { destruct Hok as [Hb Hon]; unfold shieldOk, deactivateShield; cbn.
    split; [exact Hb | discriminate]. }
  split; [|split; [|split; [exact Hact|split; [exact Hoff|split]]]].
  - unfold update; lazy zeta.
    set (s1 := set_body (set_body s _) _).
    assert (H1 : shieldOk s1) by exact Hok.
    assert (R1 : regenRate (shield s1) = regenRate (shield s)
                 /\ depletionRate (shield s1) = depletionRate (shield s))
      by (split; reflexivity).
    clearbody s1.
    destruct (updatePowerUp_shieldOk s1 dt H1) as (H2 & R2 & D2).
    assert (H3 : shieldOk (updateShield (updatePowerUp s1 dt) dt)).
    { apply updateShield_shieldOk; auto.
      - rewrite R2; destruct R1 as [-> _]; exact Hr.
      - rewrite D2; destruct R1 as [_ ->]; exact Hd. }
    revert H3; unfold shieldOk.
    peel_stage updateTrail_shape; peel_stage updateInvulnerability_shape.
    peel_stage updateCooldown_shape; auto.
  - destruct Hok as [[Hb0 Hb1] Hon]; unfold shieldOk, takeDamage.
    destruct (invulnerable s); [cbn; auto|].
    destruct (active (shield s) && _) eqn:Eabs; [|cbn -[Rmax]; auto].
    lazy zeta.
    set (st := Rmax 0 (_ - _)).
    assert (Hst : 0 <= st <= strength (shield s))
      by (unfold st, Rmax; destruct (Rle_dec _ _); lra).
    cbn -[Rmax]; fold st.
    destruct (st =? 0) eqn:E0; cmp_facts; cbn -[Rmax]; fold st.
    + repeat split; intros; try discriminate; lra.
    + repeat split; intros; try discriminate; lra.
  - unfold toggleShield; destruct (active (shield s)); assumption.
  - intros x y; destruct Hok as [[Hb0 Hb1] Hon]; unfold shieldOk, reset.
    cbn; split; [lra | discriminate].
Qed.

(** The cooldown after one frame. *)
Lemma update_weapons (s : t) (dt : R) :
  weapons (update s dt)
  = if cooldown (weapons s) >? 0
    then mkWeapons (Rmax 0 (cooldown (weapons s) - dt))
                   (fireRate (weapons s)) (projectileSpeed (weapons s))
    else weapons s.
Proof.
  unfold update; lazy zeta.
  peel_stage updateTrail_shape; peel_stage updateInvulnerability_shape.
  unfold updateCooldown at 1; lazy zeta.
  peel_stage updateShield_shape; peel_stage updatePowerUp_shape.
  destruct (_ >? 0); reflexivity.
Qed.

(** From a cooldown that is not negative, frames of non-negative length
    never raise it and never take it below 0. *)
Lemma cooldown_bounds (dts : list R) :
  Forall (fun dt => 0 <= dt) dts ->
  forall s, 0 <= cooldown (weapons s) ->
    0 <= cooldown (weapons (updates s dts)) <= cooldown (weapons s)
    /\ fireRate (weapons (updates s dts)) = fireRate (weapons s).
Proof.
  induction 1 as [|dt dts Hdt Hall IH]; intros s Hc; cbn [updates].
  - split; [lra | reflexivity].
  - pose proof (update_weapons s dt) as Hw.
    assert (Hc' : 0 <= cooldown (weapons (update s dt))
                  <= cooldown (weapons s)
                  /\ fireRate (weapons (update s dt)) = fireRate (weapons s)).
    { rewrite Hw; destruct (_ >? 0) eqn:E; cmp_facts; cbn -[Rmax];
        (split; [|reflexivity]); [|lra].
      unfold Rmax; destruct (Rle_dec _ _); lra. }
    destruct Hc' as [Ec Ef].
    destruct (IH (update s dt)) as [Ec' Ef']; [lra|].
    rewrite Ef', Ef; split; [lra | reflexivity].
Qed.

(** A weapon that is ready stays ready while it is not fired. *)
Lemma cooldown_ready (dts : list R) :
  forall s, cooldown (weapons s) <= 0 ->
            weapons (updates s dts) = weapons s.
Proof.
  induction dts as [|dt dts IH]; intros s Hc; cbn [updates]; [reflexivity|].
  assert (Hw : weapons (update s dt) = weapons s).
  { rewrite update_weapons.
    rewrite (proj2 (Rltb_false 0 (cooldown (weapons s)))) by lra.
    reflexivity. }
  rewrite IH by (rewrite Hw; exact Hc); exact Hw.
Qed.

(** X16.  The weapon fires only when its cooldown has run out.  While the
    cooldown is above 0, [fire] returns nothing and leaves the ship as it
    is; otherwise it returns a shot and sets the cooldown to the fire
    rate.  A frame takes its length off a running cooldown, stopping at
    0, so the weapon is still blocked after the frame exactly when the
    frame was shorter than the cooldown that was left.  Frames of
    non-negative length never raise the cooldown, and a weapon that is
    ready stays ready until it is fired. *)
Theorem fire_rate_limit (s : t) :
  (0 < cooldown (weapons s) -> fire s = (s, None))
  /\ (cooldown (weapons s) <= 0 ->
      snd (fire s) <> None
      /\ cooldown (weapons (fst (fire s))) = fireRate (weapons s))
  /\ (forall dt, 0 < cooldown (weapons s) ->
        cooldown (weapons (update s dt))
        = Rmax 0 (cooldown (weapons s) - dt)
        /\ (snd (fire (update s dt)) = None <-> dt < cooldown (weapons s)))
  /\ (forall dts, Forall (fun dt => 0 <= dt) dts ->
        0 <= cooldown (weapons s) ->
        0 <= cooldown (weapons (updates s dts)) <= cooldown (weapons s)
        /\ fireRate (weapons (updates s dts)) = fireRate (weapons s))
  /\ (forall dts, cooldown (weapons s) <= 0 ->
        snd (fire (updates s dts)) <> None).
Proof.
  assert (Hfire : forall u, cooldown (weapons u) <= 0 -> snd (fire u) <> None).
  { intros u Hu; unfold fire.
    rewrite (proj2 (Rltb_false 0 (cooldown (weapons u)))) by lra.
    cbn; discriminate. }
  split; [|split; [|split; [|split]]].
  - intros Hc; unfold fire.
    rewrite (proj2 (Rltb_true 0 (cooldown (weapons s))) Hc); reflexivity.
  - intros Hc; split; [now apply Hfire|].
    unfold fire.
    rewrite (proj2 (Rltb_false 0 (cooldown (weapons s)))) by lra.
    reflexivity.
  - intros dt Hc.
    assert (Ec : cooldown (weapons (update s dt))
                 = Rmax 0 (cooldown (weapons s) - dt)).
    { rewrite update_weapons.
      rewrite (proj2 (Rltb_true 0 (cooldown (weapons s))) Hc).
      reflexivity. }
    split; [exact Ec|].
    unfold fire at 1.
    destruct (cooldown (weapons (update s dt)) >? 0) eqn:E; cmp_facts;
      cbn [snd]; rewrite Ec in E.
    + split; [intros _ | reflexivity].
      unfold Rmax in E; destruct (Rle_dec _ _); lra.
    + split; [discriminate | intros Hlt].
      unfold Rmax in E; destruct (Rle_dec _ _); lra.
  - intros dts Hdts Hc; now apply cooldown_bounds.
  - intros dts Hc; apply Hfire.
    rewrite cooldown_ready by exact Hc; exact Hc.
Qed.

(** What the trail block leaves in the trail. *)
Lemma updateTrail_bounded (s : t) (dt : R) :
  (List.length (trail s) <= maxTrailLength s)%nat ->
  (List.length (trail (updateTrail s dt)) <= maxTrailLength s)%nat
  /\ Forall (fun p => 0.05 < alpha p) (trail (updateTrail s dt)).
Proof.
  intros Hlen; unfold updateTrail; lazy zeta.
  set (cond := (_ >? 0.02) && _).
  set (fresh := mkTrail _ 1.0 _).
  assert (Hfilter : forall l : list TrailPoint,
            (List.length
               (filter (fun p => alpha p >? 0.05)
                  (map (fun p => mkTrail (trail_position p)
                                         (alpha p * 0.95) (size p)) l))
             <= List.length l)%nat
            /\ Forall (fun p => 0.05 < alpha p)
                 (filter (fun p => alpha p >? 0.05)
                    (map (fun p => mkTrail (trail_position p)
                                           (alpha p * 0.95) (size p)) l))).
  { intros l; split.
    - etransitivity; [apply filter_length_le|].
      rewrite length_map; apply Nat.le_refl.
    - apply Forall_forall; intros p Hp.
      apply filter_In in Hp; destruct Hp as [_ Hp]; cmp_facts; exact Hp. }
  destruct cond.
  - destruct (maxTrailLength s <? List.length (trail s ++ [fresh]))%nat
      eqn:E; cbn [trail set_trail].
    + destruct (Hfilter (shift (trail s ++ [fresh]))) as [Hl Hf].
      split; [|exact Hf].
      etransitivity; [exact Hl|].
      unfold shift; destruct (trail s) as [|p l]; cbn in *; [lia|].
      rewrite length_app in *; cbn in *; lia.
    + destruct (Hfilter (trail s ++ [fresh])) as [Hl Hf].
      split; [|exact Hf].
      apply Nat.ltb_ge in E; lia.
  - cbn [trail set_trail].
    destruct (Hfilter (trail s)) as [Hl Hf]; split; [lia | exact Hf].
Qed.

(** X17.  The engine trail never outgrows its limit: a ship whose trail
    holds at most [maxTrailLength] samples still does after [update], the
    limit itself is not changed, and every sample that is kept has an
    alpha above 0.05. *)
Theorem trail_stays_bounded (s : t) (dt : R) :
  (List.length (trail s) <= maxTrailLength s)%nat ->
  (List.length (trail (update s dt)) <= maxTrailLength (update s dt))%nat
  /\ maxTrailLength (update s dt) = maxTrailLength s
  /\ Forall (fun p => 0.05 < alpha p) (trail (update s dt)).
Proof.
  intros Hlen; unfold update; lazy zeta.
  set (s4 := updateInvulnerability _ dt).
  assert (H4 : trail s4 = trail s /\ maxTrailLength s4 = maxTrailLength s).
  { subst s4.
    peel_stage updateInvulnerability_shape; peel_stage updateCooldown_shape.
    peel_stage updateShield_shape; peel_stage updatePowerUp_shape.
    split; reflexivity. }
  clearbody s4; destruct H4 as [Et Em].
  assert (Hm : maxTrailLength (updateTrail s4 dt) = maxTrailLength s)
    by (peel_stage updateTrail_shape; exact Em).
  destruct (updateTrail_bounded s4 dt) as [Hl Hf];
    [rewrite Et, Em; exact Hlen|].
  change (trail (set_frame ?x _ _ _ _)) with (trail x).
  change (maxTrailLength (set_frame ?x _ _ _ _)) with (maxTrailLength x).
  rewrite Hm; split; [rewrite <- Em; exact Hl|]. split; [reflexivity|].
  exact Hf.
Qed.

(** X18.  After [update] the ship is never faster than its [maxSpeed]
    (for a [maxSpeed] that is not negative), whatever forces were applied
    during the frame. *)
Theorem speed_stays_capped (s : t) (dt : R) :
  0 <= maxSpeed s ->
  PhysicsBody.getSpeed (body (update s dt)) <= maxSpeed s
  /\ maxSpeed (update s dt) = maxSpeed s.
Proof.
  intros Hmax; split.
  - rewrite update_body; unfold PhysicsBody.getSpeed,
      PhysicsBody.limitVelocity; cbn [PhysicsBody.velocity
      PhysicsBody.set_velocity].
    now apply magnitude_limit.
  - unfold update; lazy zeta.
    peel_stage updateTrail_shape; peel_stage updateInvulnerability_shape.
    peel_stage updateCooldown_shape; peel_stage updateShield_shape.
    peel_stage updatePowerUp_shape; reflexivity.
Qed.

End ShipInvariants.

(** ** Asteroid, Projectile, PowerUp: construction and lifetime *)

Section Objects.
Context `{MathLib}.

Lemma magnitude_polar (a d : R) :
  Vector2D.magnitude (Vector2D.mk (cos a * d) (sin a * d)) = Rabs d.
Proof.
  unfold Vector2D.magnitude; cbn.
  pose proof (sin2_cos2 a) as Hsc; unfold Rsqr in Hsc.
  replace (cos a * d * (cos a * d) + sin a * d * (sin a * d))
    with ((sin a * sin a + cos a * cos a) * Rsqr d) by (unfold Rsqr; ring).
  rewrite Hsc, Rmult_1_l; apply sqrt_Rsqr_abs.
Qed.

(** An index [floor(r * n)] for a draw in [0, 1) is below [n]. *)
Lemma floor_index_lt (r : R) (n : nat) :
  0 <= r < 1 -> (0 < n)%nat -> (floor_index (r * INR n) < n)%nat.
Proof.
  intros Hr Hn; unfold floor_index.
  assert (Hpos : 0 < INR n) by (apply lt_0_INR; exact Hn).
  pose proof (Zfloor_bound (r * INR n)) as [Hl Hu].
  assert (H0 : (0 <= Zfloor (r * INR n))%Z).
  { apply le_IZR; pose proof (Math_floor_nonneg (r * INR n)) as Hf.
    unfold Math_floor in Hf; apply Hf; nra. }
  assert (H1 : (Zfloor (r * INR n) < Z.of_nat n)%Z).
  { apply lt_IZR; rewrite <- INR_IZR_INZ; nra. }
  lia.
Qed.

Lemma generateShape_vertices (radius : R) (s : Stream) :
  unit_draws s -> 0 <= radius ->
  let vs := fst (Asteroid.generateShape radius s) in
  (8 <= List.length vs <= 11)%nat
  /\ Forall (fun v => 0.7 * radius <= Vector2D.magnitude v <= radius) vs.
Proof.
  intros Hs Hr; unfold Asteroid.generateShape.
  rewrite bind_fst; cbn [random fst snd]; split.
  - rewrite mapR_length, length_seq.
    pose proof (Hs 0%nat) as H0.
    pose proof (Zfloor_bound (s 0%nat * 4)) as [Hl Hu].
    assert (-1 < Zfloor (s 0%nat * 4))%Z by (apply lt_IZR; lra).
    assert (Zfloor (s 0%nat * 4) < 4)%Z by (apply lt_IZR; lra).
    lia.
  - apply mapR_Forall.
    + intros i; keeps.
    + intros i s' Hs'; rewrite bind_fst; cbn [random ret fst snd].
      rewrite magnitude_polar.
      pose proof (Hs' 0%nat) as Hv.
      rewrite Rabs_pos_eq by nra; nra.
    + apply (keeps_random s Hs).
Qed.

(** X19.  On unit draws the constructor builds a well-formed asteroid of
    any size class: its radius, health and mass are the ones of the class
    (health and maximum health equal the radius), it is not destroyed and
    no boss, it spins at a rate in [-1, 1), its colour is one of the five
    of the palette, and its outline has 8 to 11 vertices, each between 0.7
    and 1 radius from the centre. *)
Theorem new_asteroid_wellformed
    (x y : R) (sz : Asteroid.Size) (v : option Vec) (s : Stream) :
  unit_draws s ->
  let a := fst (Asteroid.new x y sz v s) in
  Asteroid.size a = sz
  /\ Asteroid.radius a = Asteroid.sizeMap sz
  /\ Asteroid.health a = Asteroid.radius a
  /\ Asteroid.maxHealth a = Asteroid.radius a
  /\ PhysicsBody.mass (Asteroid.body a) = Asteroid.massMap sz
  /\ Asteroid.isDestroyed a = false
  /\ Asteroid.isBoss a = false
  /\ -1 <= PhysicsBody.angularVelocity (Asteroid.body a) < 1
  /\ In (Asteroid.color a) Asteroid.colors
  /\ (8 <= List.length (Asteroid.vertices a) <= 11)%nat
  /\ Forall (fun p => 0.7 * Asteroid.radius a <= Vector2D.magnitude p
                      <= Asteroid.radius a)
            (Asteroid.vertices a).
Proof.
  intros Hs a; subst a; unfold Asteroid.new.
  assert (Hsize : num_or (Asteroid.sizeMap sz) 35 = Asteroid.sizeMap sz
                  /\ 0 < Asteroid.sizeMap sz).
  { unfold num_or; destruct (_ =? 0) eqn:E; cmp_facts;
      destruct sz; cbn in *; split; lra. }
  assert (Hmass : num_or (Asteroid.massMap sz) 1.0 = Asteroid.massMap sz).
  { unfold num_or; destruct (_ =? 0) eqn:E; cmp_facts; [|reflexivity].
    destruct sz; cbn in *; lra. }
  destruct Hsize as [Hsize Hpos].
  lazy zeta; rewrite Hsize, Hmass.
  rewrite bind_fst; cbn [random fst snd].
  rewrite bind_fst.
  set (s1 := fun n : nat => s (S n)).
  assert (Hs1 : unit_draws s1) by (intros n; apply (Hs (S n))).
  assert (Hcol : In (fst (Asteroid.getRandomColor s1)) Asteroid.colors
                 /\ unit_draws (snd (Asteroid.getRandomColor s1))).
  { split; [|apply keeps_getRandomColor; exact Hs1].
    unfold Asteroid.getRandomColor; rewrite bind_fst; cbn [random ret fst].
    apply nth_In, floor_index_lt; [apply Hs1 | cbn; lia]. }
  destruct Hcol as [Hcol Hs2].
  destruct (Asteroid.getRandomColor s1) as [color s2]; cbn [fst snd] in *.
  rewrite bind_fst.
  destruct (generateShape_vertices (Asteroid.sizeMap sz) s2 Hs2)
    as [Hlen Hall]; [lra|].
  destruct (Asteroid.generateShape (Asteroid.sizeMap sz) s2)
    as [vertices s3]; cbn [fst snd] in *.
  rewrite bind_fst; cbn [random ret fst snd].
  cbn [Asteroid.size Asteroid.radius Asteroid.health Asteroid.maxHealth
       Asteroid.body Asteroid.isBoss Asteroid.color Asteroid.vertices].
  unfold Asteroid.isDestroyed;
    cbn [Asteroid.health].
  pose proof (Hs 0%nat) as H0.
  repeat split; try assumption; try lia;
    first [ apply Rleb_false; lra
          | destruct v; cbn; first [reflexivity | lra] ].
Qed.

(** What the projectile loop keeps is what [kept] held and projectiles it
    found unexpired after their update. *)
Lemma projectileLoop_unexpired (dt : R) (todo : list Projectile.t) :
  forall kept e s,
    Forall (fun q => Projectile.isExpired q = false) kept ->
    Forall (fun q => Projectile.isExpired q = false)
           (GameEngine.projectiles
              (fst (GameEngine.projectileLoop dt todo kept e s))).
Proof.
  induction todo as [|p todo IH]; intros kept e s Hk;
    cbn [GameEngine.projectileLoop].
  - exact Hk.
  - lazy zeta.
    set (q := GameEngine.steer e (Projectile.update p dt) dt).
    destruct (Projectile.isExpired q) eqn:Eq; cbn [orb]; [now apply IH|].
    destruct (negb _); [now apply IH|].
    destruct (GameEngine.splitLast _ _) as [[[before a] after]|].
    + rewrite bind_fst.
      destruct (Asteroid.takeDamage a (Projectile.damage q) s)
        as [[a' destroyed] s1]; cbn [fst snd].
      rewrite bind_fst; now apply IH.
    + apply IH; constructor; assumption.
Qed.

(** X20.  A projectile is built unexpired, with age 0 and a lifetime of
    3.0.  In flight its damage and its lifetime never change, every frame
    adds its length to the age, and the projectile is expired exactly when
    its age has reached 3.0; with frames of non-negative length an expired
    projectile stays expired.  The projectile loop of [update] drops every
    projectile it finds expired after the frame, so none is left in the
    array. *)
Theorem projectile_lifetime
    (position velocity : Vec) (angle damage : R) (color : string)
    (s : Stream) (dts : list R) :
  let p := fst (Projectile.new position velocity angle damage color s) in
  let q := projectileFrames p dts in
  (Projectile.age p = 0 /\ Projectile.isExpired p = false)
  /\ Projectile.lifetime q = 3.0
  /\ Projectile.damage q = damage
  /\ (Projectile.isExpired q = true <-> 3.0 <= Projectile.age q)
  /\ (forall dt, Projectile.age (Projectile.update q dt)
                 = Projectile.age q + dt)
  /\ (forall more, Forall (fun dt => 0 <= dt) more ->
        Projectile.isExpired q = true ->
        Projectile.isExpired (projectileFrames q more) = true)
  /\ (forall dt todo e s0,
        Forall (fun r => Projectile.isExpired r = false)
               (GameEngine.projectiles
                  (fst (GameEngine.projectileLoop dt todo [] e s0)))).
Proof.
  intros p q.
  assert (Hgen : forall l r,
            Projectile.lifetime (projectileFrames r l)
            = Projectile.lifetime r
            /\ Projectile.damage (projectileFrames r l)
               = Projectile.damage r
            /\ (Forall (fun dt => 0 <= dt) l ->
                Projectile.age r <= Projectile.age (projectileFrames r l))).
  { induction l as [|dt l IH]; intros r; cbn [projectileFrames].
    - repeat split; lra.
    - destruct (IH (Projectile.update r dt)) as (El & Ed & Ea).
      rewrite El, Ed; unfold Projectile.update in *; cbn in *.
      repeat split.
      intros Hall; inversion Hall; subst.
      specialize (Ea ltac:(assumption)); lra. }
  assert (Hp : Projectile.age p = 0 /\ Projectile.lifetime p = 3.0
               /\ Projectile.damage p = damage).
  { subst p; unfold Projectile.new; rewrite bind_fst; cbn; auto. }
  destruct Hp as (Hp0 & Hp1 & Hp2).
  destruct (Hgen dts p) as (El & Ed & _); fold q in El, Ed.
  split.
  { split; [exact Hp0|].
    unfold Projectile.isExpired; rewrite Hp0, Hp1.
    apply Rleb_false; lra. }
  split; [congruence|]. split; [congruence|]. split.
  { unfold Projectile.isExpired; rewrite Rleb_true, El, Hp1; tauto. }
  split; [intros dt; reflexivity|]. split.
  - intros more Hmore.
    destruct (Hgen more q) as (El' & _ & Ea').
    unfold Projectile.isExpired; rewrite !Rleb_true, El'.
    specialize (Ea' Hmore); lra.
  - intros dt todo e s0; apply projectileLoop_unexpired; constructor.
Qed.

(** What the power-up loop keeps is what [kept] held and power-ups it
    found unexpired after their update. *)
Lemma powerUpLoop_unexpired (dt : R) (todo : list PowerUp.t) :
  forall kept e s,
    Forall (fun q => PowerUp.isExpired q = false) kept ->
    Forall (fun q => PowerUp.isExpired q = false)
           (GameEngine.powerUps
              (fst (GameEngine.powerUpLoop dt todo kept e s))).
Proof.
  induction todo as [|p todo IH]; intros kept e s Hk;
    cbn [GameEngine.powerUpLoop].
  - exact Hk.
  - lazy zeta.
    destruct (PowerUp.isExpired (PowerUp.update p dt)) eqn:Eq;
      [now apply IH|].
    match goal with
    | |- context [if match GameEngine.mode ?c with _ => _ end then _ else _] =>
        destruct (match GameEngine.mode c with
                  | GameEngine.lane_shooter => _
                  | GameEngine.space_sim => false
                  end)
    end; [now apply IH|].
    match goal with
    | |- context [if CollisionSystem.checkCircleCollision ?a ?b ?c ?d
                  then _ else _] =>
        destruct (CollisionSystem.checkCircleCollision a b c d)
    end.
    + rewrite bind_fst; now apply IH.
    + apply IH; constructor; [|exact Hk].
      match goal with
      | |- PowerUp.isExpired (if ?c then _ else _) = false => destruct c
      end; exact Eq.
Qed.

(** X21.  A power-up is built uncollected and unexpired, with age 0 and a
    lifetime of 10.0.  No frame collects it or changes its lifetime, and
    it is expired exactly when its age has reached 10.0 or it has been
    collected; with frames of non-negative length an expired power-up
    stays expired.  [collect] makes it expired at once, and no later frame
    brings it back.  The power-up loop of [update] drops every power-up it
    finds expired after the frame, so none is left in the array. *)
Theorem powerUp_lifetime
    (x y : R) (type : PowerUp.Kind) (s : Stream) (dts : list R) :
  let p := fst (PowerUp.new x y type s) in
  let q := powerUpFrames p dts in
  (PowerUp.age p = 0 /\ PowerUp.isExpired p = false)
  /\ PowerUp.lifetime q = 10.0
  /\ PowerUp.collected q = false
  /\ (PowerUp.isExpired q = true <-> 10.0 <= PowerUp.age q)
  /\ (forall dt, PowerUp.age (PowerUp.update q dt) = PowerUp.age q + dt)
  /\ (forall more, Forall (fun dt => 0 <= dt) more ->
        PowerUp.isExpired q = true ->
        PowerUp.isExpired (powerUpFrames q more) = true)
  /\ (forall r more,
        PowerUp.isExpired (powerUpFrames (PowerUp.collect r) more) = true)
  /\ (forall dt todo e s0,
        Forall (fun r => PowerUp.isExpired r = false)
               (GameEngine.powerUps
                  (fst (GameEngine.powerUpLoop dt todo [] e s0)))).
Proof.
  intros p q.
  assert (Hgen : forall l r,
            PowerUp.lifetime (powerUpFrames r l) = PowerUp.lifetime r
            /\ PowerUp.collected (powerUpFrames r l) = PowerUp.collected r
            /\ (Forall (fun dt => 0 <= dt) l ->
                PowerUp.age r <= PowerUp.age (powerUpFrames r l))).
  { induction l as [|dt l IH]; intros r; cbn [powerUpFrames].
    - repeat split; lra.
    - destruct (IH (PowerUp.update r dt)) as (El & Ec & Ea).
      rewrite El, Ec; unfold PowerUp.update in *; cbn in *.
      repeat split.
      intros Hall; inversion Hall; subst.
      specialize (Ea ltac:(assumption)); lra. }
  assert (Hp : PowerUp.age p = 0 /\ PowerUp.lifetime p = 10.0
               /\ PowerUp.collected p = false).
  { subst p; unfold PowerUp.new; rewrite !bind_fst; cbn; auto. }
  destruct Hp as (Hp0 & Hp1 & Hp2).
  destruct (Hgen dts p) as (El & Ec & _); fold q in El, Ec.
  assert (Hq : PowerUp.collected q = false) by congruence.
  split.
  { split; [exact Hp0|].
    unfold PowerUp.isExpired; rewrite Hp0, Hp1, Hp2, orb_false_r.
    apply Rleb_false; lra. }
  split; [congruence|]. split; [exact Hq|]. split.
  { unfold PowerUp.isExpired; rewrite Hq, orb_false_r.
    rewrite Rleb_true, El, Hp1; tauto. }
  split; [intros dt; reflexivity|]. split; [|split].
  - intros more Hmore.
    destruct (Hgen more q) as (El' & Ec' & Ea').
    unfold PowerUp.isExpired; rewrite Ec', Hq, !orb_false_r.
    rewrite !Rleb_true, El'.
    specialize (Ea' Hmore); lra.
  - intros r more; destruct (Hgen more (PowerUp.collect r)) as (_ & Ec' & _).
    unfold PowerUp.isExpired; rewrite Ec'; cbn; apply orb_true_r.
  - intros dt todo e s0; apply powerUpLoop_unexpired; constructor.
Qed.

End Objects.

(** ** GameEngine: clock, pause, restart *)

Section EngineControl.
Import GameEngine.
Context `{MathLib}.

Ltac field_side :=
  intros; unfold scoreKill, increaseCombo, nextWave, gameOver in *;
  cbn in *; auto.

Lemma sameClock_comboTimer e0 e dt :
  sameClock e0 e -> sameClock e0 (comboTimer e dt).
Proof.
  destruct (comboTimer_shape e dt) as (c & v & ->); intros HR; exact HR.
Qed.

Ltac clock_side :=
  first [ exact sameClock_comboTimer
        | solve [unfold sameClock; field_side] ].

Lemma sameClock_tail (e : t) (dt : R) (s : Stream) :
  let e1 := updatePlayer (fst (handleInput e dt s)) dt in
  sameClock e e1
  /\ (forall s1, sameClock e (fst (fst (updateAsteroids e1 dt s1))))
  /\ (forall e2 s2, sameClock e e2 ->
                    sameClock e (fst (updateRest e2 dt s2))).
Proof.
  intros e1.
  assert (H1 : sameClock e e1).
  { subst e1.
    apply (frame_updatePlayer sameClock); [clock_side|].
    apply (frame_handleInput sameClock); clock_side. }
  split; [exact H1|]. split.
  - intros s1; apply (frame_updateAsteroids sameClock);
      solve [clock_side | exact H1].
  - intros e2 s2 H2; apply (frame_updateRest sameClock);
      solve [clock_side | exact H2].
Qed.

(** X22.  [update] runs the simulation on a clamped frame time.  An
    engine that is not playing is returned as it is and consumes no draw.
    A playing engine advances its clock by exactly [min(dt, 0.1)], so a
    frame longer than 100 ms does exactly what a frame of 100 ms does, and
    no frame changes the size of the playfield or the game mode. *)
Theorem update_clock (e : t) (dt : R) (s : Stream) :
  (state e <> playing -> update e dt s = (e, s))
  /\ (state e = playing ->
      let e' := fst (update e dt s) in
      time e' = time e + Rmin dt 0.1
      /\ width e' = width e /\ height e' = height e
      /\ mode (config e') = mode (config e))
  /\ (0.1 <= dt -> update e dt s = update e 0.1 s).
Proof.
  split; [apply update_not_playing|]. split.
  - intros Hs e'; subst e'; unfold update; rewrite Hs.
    cbn [State_eqb negb]; lazy zeta.
    set (d := Rmin dt 0.1).
    set (e0 := set_time e (time e + d)).
    assert (Hgoal : forall x, sameClock e0 x ->
              time x = time e + d /\ width x = width e
              /\ height x = height e /\ mode (config x) = mode (config e)).
    { intros x (Ht & Hw & Hh & Hm); rewrite Ht, Hw, Hh, Hm.
      subst e0; cbn; auto. }
    rewrite bind_fst.
    destruct (sameClock_tail e0 d s) as (H1 & H2 & H3).
    cbn zeta in *.
    set (s1 := snd (handleInput e0 d s)) in *.
    set (e1 := updatePlayer (fst (handleInput e0 d s)) d) in *.
    clearbody e1 s1.
    destruct (Spaceship.isDestroyed (player e1)).
    + apply Hgoal; unfold gameOver; exact H1.
    + rewrite bind_fst.
      specialize (H2 s1).
      destruct (updateAsteroids e1 d s1) as [[e2 lethal] s2].
      cbn [fst snd] in *.
      destruct lethal.
      * apply Hgoal; unfold gameOver; exact H2.
      * apply Hgoal, H3, H2.
  - intros Hdt; unfold update.
    assert (E1 : Rmin dt 0.1 = 0.1)
      by (unfold Rmin; destruct (Rle_dec _ _); lra).
    assert (E2 : Rmin 0.1 0.1 = 0.1)
      by (unfold Rmin; destruct (Rle_dec _ _); lra).
    rewrite E1, E2; reflexivity.
Qed.

Lemma run_frozen (dts : list R) (e : t) (s : Stream) :
  state e <> playing -> run e (map Update dts) s = (e, s).
Proof.
  intros Hs; induction dts as [|dt dts IH]; cbn [map run]; [reflexivity|].
  unfold bind; cbn [step]; rewrite update_not_playing by exact Hs.
  exact IH.
Qed.

(** X23.  A paused game is frozen: whatever frames pass, the engine stays
    exactly as [pause] left it and no random draw is consumed, so
    [resume] gives back exactly the engine that was paused.  Pausing twice
    is pausing once. *)
Theorem pause_freezes (e : t) (dts : list R) (s : Stream) :
  state e = playing ->
  run (pause e) (map Update dts) s = (pause e, s)
  /\ resume (fst (run (pause e) (map Update dts) s)) = e
  /\ pause (pause e) = pause e.
Proof.
  intros Hs.
  assert (Hp : pause e = set_state e paused)
    by (unfold pause; rewrite Hs; reflexivity).
  assert (Hfrozen : run (pause e) (map Update dts) s = (pause e, s)).
  { apply run_frozen; rewrite Hp; cbn; discriminate. }
  split; [exact Hfrozen|]. split.
  - rewrite Hfrozen, Hp; cbn [fst]; unfold resume; cbn.
    destruct e; cbn in *; subst; reflexivity.
  - rewrite Hp; unfold pause; reflexivity.
Qed.

End EngineControl.

Section EngineStart.
Import GameEngine.

Lemma opt_or_100 : opt_or (Some 100) 100 = 100.
Proof. unfold opt_or, num_or; destruct (_ =? 0) eqn:E; cmp_facts; lra. Qed.

(** The engine [start] builds, field by field. *)
Lemma start_shape (e : t) :
  start e
  = let c := config e in
    let c' :=
      mkConfig (mode c) 2.0 (asteroidSpawnIncrease c) (powerUpChance c) 20
               (scrollSpeed c) 1.0 (bossWaveInterval c)
               (match mode c with
                | lane_shooter => Some (height e - 100)
                | space_sim => fixedPlayerY c
                end)
               (maxSpeedX c) (accelX c) (decelX c) (frictionX c)
               (laneCount c) (lanePadding c) in
    let e1 := setupPlayer e in
    let p :=
      match mode c with
      | lane_shooter =>
          let p := ship_set_pos (player e1)
                     (Vector2D.set_y (player_pos e1) (height e - 100)) in
          let b := PhysicsBody.set_angle (Spaceship.body p) 0 in
          let b := PhysicsBody.set_angularVelocity b 0 in
          Spaceship.set_body p b
      | space_sim => player e1
      end in
    mk (width e) (height e) playing 0 1 0 0 p [] [] [] (keys e) (mouse e)
       c' (laneMovement e) (asteroidSpawnTimer e) (waveTimer e)
       (waveInterval e) (mkCombo 0 0 3.0 1.0 8.0) (mkBoss false None 1 3)
       (mkWeaponSystem default 0)
       (mkUpgradeSystem 1 0 100 (skillPoints (upgradeSystem e))
                        (upgrades (upgradeSystem e)))
       [] (hazardSpawnTimer e) (hazardSpawnInterval e) (timeouts e).
Proof.
  destruct e as [w h st sc wv k tm p ast prj pu ks ms cfg lm ast_t wt wi
                 cs bs ws us hz hzt hzi tos].
  destruct cfg as [md r1 r2 r3 r4 r5 r6 z fy r7 r8 r9 r10 lc lp].
  destruct md; reflexivity.
Qed.

(** X24.  [start] always gives the same fresh game for the same canvas
    and settings: starting twice is starting once.  The new game is
    playing at wave 1 with no score, no kills, an empty field, a new ship
    at full health and the combo and boss systems reset.  What survives a
    restart are the upgrade counters and skill points and the chain
    reactions that are still pending. *)
Theorem start_fresh (e : t) :
  let e' := start e in
  start e' = e'
  /\ state e' = playing /\ score e' = 0 /\ wave e' = 1%Z
  /\ kills e' = 0%nat /\ time e' = 0
  /\ asteroids e' = [] /\ projectiles e' = [] /\ powerUps e' = []
  /\ hazards e' = []
  /\ Spaceship.health (player e') = 100
  /\ Spaceship.maxHealth (player e') = 100
  /\ comboSystem e' = mkCombo 0 0 3.0 1.0 8.0
  /\ active (bossSystem e') = false
  /\ upgrades (upgradeSystem e') = upgrades (upgradeSystem e)
  /\ skillPoints (upgradeSystem e') = skillPoints (upgradeSystem e)
  /\ timeouts e' = timeouts e.
Proof.
  intros e'; subst e'; split.
  - rewrite (start_shape (start e)), (start_shape e); lazy zeta.
    cbn [width height keys mouse config laneMovement asteroidSpawnTimer
         waveTimer waveInterval upgradeSystem hazardSpawnTimer
         hazardSpawnInterval timeouts mode asteroidSpawnIncrease
         powerUpChance scrollSpeed bossWaveInterval fixedPlayerY maxSpeedX
         accelX decelX frictionX laneCount lanePadding skillPoints
         upgrades].
    destruct (mode (config e)); reflexivity.
  - rewrite (start_shape e); lazy zeta.
    cbn [state score wave kills time asteroids projectiles powerUps hazards
         player comboSystem bossSystem upgradeSystem timeouts active
         upgrades skillPoints].
    repeat split.
    + destruct (mode (config e)); unfold setupPlayer; cbn;
        apply opt_or_100.
    + destruct (mode (config e)); unfold setupPlayer; cbn;
        apply opt_or_100.
Qed.

End EngineStart.

(** ** GameEngine: firing, spawning, experience *)

Section EngineActions.
Import GameEngine.
Context `{MathLib}.

(** X25.  [playerFire] respects the weapon's cooldown and arms it.  While
    the ship's cooldown is running nothing is fired.  Otherwise the
    default weapon, the laser and the missile add one projectile and the
    shotgun adds three, at the end of the projectile array; each carries
    the weapon's damage raised by 10% per damage upgrade, and the cooldown
    is set to the fire rate of the current weapon. *)
Theorem playerFire_shots (e : t) (s : Stream) :
  let e' := fst (playerFire e s) in
  let weapon := weapons (currentWeapon (weaponSystem e)) in
  (0 < Spaceship.cooldown (Spaceship.weapons (player e)) ->
   projectiles e' = projectiles e)
  /\ (Spaceship.cooldown (Spaceship.weapons (player e)) <= 0 ->
      Spaceship.cooldown (Spaceship.weapons (player e')) = w_fireRate weapon
      /\ exists shots,
           projectiles e' = projectiles e ++ shots
           /\ List.length shots
              = match currentWeapon (weaponSystem e) with
                | shotgun => 3%nat
                | _ => 1%nat
                end
           /\ Forall
                (fun p =>
                   Projectile.damage p
                   = w_damage weapon
                     * (1 + INR (damage (upgrades (upgradeSystem e))) * 0.1)
                   /\ Projectile.age p = 0)
                shots).
Proof.
  intros e' weapon; subst e' weapon; unfold playerFire; lazy zeta.
  set (p0 := Spaceship.set_weapons (player e) _).
  assert (Hc0 : Spaceship.cooldown (Spaceship.weapons p0)
                = Spaceship.cooldown (Spaceship.weapons (player e)))
    by reflexivity.
  assert (Hf0 : Spaceship.fireRate (Spaceship.weapons p0)
                = w_fireRate (weapons (currentWeapon (weaponSystem e))))
    by reflexivity.
  unfold Spaceship.fire; rewrite Hc0.
  set (dmg := w_damage (weapons (currentWeapon (weaponSystem e)))
              * (1 + INR (damage (upgrades (upgradeSystem e))) * 0.1)).
  assert (Hnew : forall pos vel ang col st,
            Projectile.damage (fst (Projectile.new pos vel ang dmg col st))
            = dmg
            /\ Projectile.age (fst (Projectile.new pos vel ang dmg col st))
               = 0).
  { intros; unfold Projectile.new; rewrite bind_fst; cbn; auto. }
  split.
  - intros Hc.
    rewrite (proj2 (Rltb_true 0 _) Hc); reflexivity.
  - intros Hc.
    rewrite (proj2 (Rltb_false 0 _) Hc); lazy zeta.
    destruct (currentWeapon (weaponSystem e)) eqn:Ew;
      rewrite bind_fst; cbn [ret fst].
    + split; [reflexivity|]; eexists; split; [reflexivity|].
      split; [reflexivity|]; repeat constructor;
        cbn [Projectile.damage Projectile.age Projectile.set_color
             Projectile.set_dims Projectile.set_homing]; apply Hnew.
    + split; [reflexivity|]; eexists; split; [reflexivity|].
      split; [reflexivity|]; repeat constructor;
        cbn [Projectile.damage Projectile.age Projectile.set_color
             Projectile.set_dims Projectile.set_homing]; apply Hnew.
    + split; [reflexivity|]; eexists; split; [reflexivity|].
      split; [reflexivity|]; repeat constructor;
        cbn [Projectile.damage Projectile.age Projectile.set_color
             Projectile.set_dims Projectile.set_homing]; apply Hnew.
    + split; [reflexivity|]; eexists; split; [reflexivity|].
      split.
      * rewrite mapR_length; reflexivity.
      * apply Forall_forall; intros q Hq.
        match goal with
        | Hq : In q (fst (mapR ?f ?l ?st)) |- _ =>
            assert (Hall : forall st', Forall
                      (fun p => Projectile.damage p = dmg
                                /\ Projectile.age p = 0)
                      (fst (mapR f l st')))
        end.
        { intros st'; generalize (seq 0 (w_spread (weapons shotgun))).
          intros l; revert st'; induction l as [|i l IH]; intros st';
            cbn [mapR]; [constructor|].
          rewrite !bind_fst; cbn [ret fst]; constructor; [|apply IH].
          cbn [Projectile.damage Projectile.age Projectile.set_color].
          apply Hnew. }
        exact (proj1 (Forall_forall _ _) (Hall _) q Hq).
Qed.

End EngineActions.

Section EngineSpawning.
Import GameEngine.
Context `{MathLib}.

(** The fields of a new asteroid that do not depend on the draws. *)
Lemma new_basic (x y : R) (sz : Asteroid.Size) (v : option Vec)
    (s : Stream) :
  let a := fst (Asteroid.new x y sz v s) in
  Asteroid.size a = sz
  /\ Asteroid.radius a = Asteroid.sizeMap sz
  /\ Asteroid.health a = Asteroid.sizeMap sz
  /\ Asteroid.maxHealth a = Asteroid.sizeMap sz
  /\ PhysicsBody.position (Asteroid.body a) = Vector2D.mk x y
  /\ Asteroid.isBoss a = false.
Proof.
  unfold Asteroid.new; rewrite !bind_fst; cbn.
  assert (E : num_or (Asteroid.sizeMap sz) 35 = Asteroid.sizeMap sz).
  { unfold num_or; destruct (_ =? 0) eqn:E; cmp_facts; [|reflexivity].
    destruct sz; cbn in E; lra. }
  rewrite E; repeat split; destruct v; reflexivity.
Qed.

Lemma clamp_range (lo hi x : R) :
  lo <= hi -> lo <= Rmax lo (Rmin hi x) <= hi.
Proof.
  intros Hlh; unfold Rmax, Rmin.
  destruct (Rle_dec hi x); destruct (Rle_dec _ _); lra.
Qed.

(** The asteroid [spawnAsteroid] builds. *)
Lemma newAsteroid_bounds (e : t) (s : Stream) :
  unit_draws s -> 200 <= width e ->
  let a := fst (newAsteroid e s) in
  100 <= Vector2D.x (asteroid_pos a) <= width e - 100
  /\ Vector2D.y (asteroid_pos a) = -50
  /\ Asteroid.isBoss a = false
  /\ Asteroid.health a
     = Asteroid.sizeMap (Asteroid.size a) * (1 + (IZR (wave e) - 1) * 0.1)
  /\ Asteroid.maxHealth a = Asteroid.health a
  /\ Asteroid.damage a = Asteroid.health a / 2.
Proof.
  intros Hs Hw; unfold newAsteroid; lazy zeta.
  rewrite bind_fst; cbn [random fst snd].
  rewrite bind_fst.
  match goal with
  | |- context [(if ?c then ?A else ?B) ?st] =>
      set (sx := (if c then A else B) st)
  end.
  assert (Hx : 100 <= fst sx <= width e - 100).
  { subst sx; destruct (mode (config e)).
    - rewrite !bind_fst; cbn [ret fst].
      apply clamp_range; lra.
    - cbn [ret fst]; pose proof (Hs 0%nat); nra. }
  destruct sx as [x sx']; cbn [fst snd] in *.
  rewrite !bind_fst; cbn [random ret fst snd].
  match goal with
  | |- context [Asteroid.new ?x0 ?y0 ?sz0 ?v0 ?st0] =>
      destruct (new_basic x0 y0 sz0 v0 st0)
        as (Hsz & Hrad & Hhp & Hmhp & Hpos & Hnb);
      set (a0 := fst (Asteroid.new x0 y0 sz0 v0 st0)) in *;
      set (sz := sz0) in *
  end.
  cbn zeta in *; clearbody a0.
  set (wf := 1 + (IZR (wave e) - 1) * 0.1).
  match goal with
  | |- context [Asteroid.set_body ?a ?b] =>
      set (a1 := Asteroid.set_body a b)
  end.
  assert (H1 : asteroid_pos a1 = Vector2D.mk x (-50)
               /\ Asteroid.isBoss a1 = false
               /\ Asteroid.size a1 = sz
               /\ Asteroid.health a1 = Asteroid.sizeMap sz * wf
               /\ Asteroid.maxHealth a1 = Asteroid.sizeMap sz * wf
               /\ Asteroid.damage a1 = Asteroid.sizeMap sz / 2 * wf).
  { subst a1; unfold asteroid_pos; cbn.
    rewrite Hpos, Hnb, Hsz, Hhp, Hmhp; repeat split; reflexivity. }
  clearbody a1; destruct H1 as (Hp1 & Hb1 & Hs1 & Hh1 & Hm1 & Hd1).
  assert (Hrest : forall q a, a = a1 \/ a = asteroid_set_pos a1 q ->
            Asteroid.isBoss a = false
            /\ Asteroid.health a = Asteroid.sizeMap (Asteroid.size a) * wf
            /\ Asteroid.maxHealth a = Asteroid.health a
            /\ Asteroid.damage a = Asteroid.health a / 2).
  { intros q a [-> | ->]; unfold asteroid_set_pos; cbn;
      rewrite ?Hb1, ?Hs1, ?Hh1, ?Hm1, ?Hd1; repeat split; lra. }
  assert (Hkeep : 100 <= Vector2D.x (asteroid_pos a1) <= width e - 100
                  /\ Vector2D.y (asteroid_pos a1) = -50)
    by (rewrite Hp1; cbn; split; [lra | reflexivity]).
  destruct (match mode (config e) with
            | lane_shooter => true
            | space_sim => false
            end).
  - destruct (_ && _).
    + split; [|split; [|eapply Hrest; right; reflexivity]].
      * unfold asteroid_set_pos, asteroid_pos; cbn.
        apply clamp_range; lra.
      * unfold asteroid_set_pos, asteroid_pos in *; cbn.
        rewrite Hp1; reflexivity.
    + destruct Hkeep as [Hk1 Hk2].
      split; [exact Hk1|]. split; [exact Hk2|].
      apply (Hrest (Vector2D.mk 0 0)); left; reflexivity.
  - destruct Hkeep as [Hk1 Hk2].
    split; [exact Hk1|]. split; [exact Hk2|].
    apply (Hrest (Vector2D.mk 0 0)); left; reflexivity.
Qed.

(** X26.  [spawnAsteroid] keeps to its cap and to the playfield.  It adds
    nothing when the field already holds [maxAsteroids] asteroids or a
    boss fight is on.  Otherwise, on a canvas at least 200 wide and on
    unit draws, it appends exactly one asteroid, never a boss, at height
    -50 and horizontally between 100 and [width - 100], whose health is
    the health of its size class scaled by [1 + 0.1 (wave - 1)] and whose
    collision damage is half of that. *)
Theorem spawnAsteroid_bounds (e : t) (s : Stream) :
  unit_draws s -> 200 <= width e ->
  let e' := fst (spawnAsteroid e s) in
  (maxAsteroids (config e) <= INR (List.length (asteroids e))
   \/ active (bossSystem e) = true -> e' = e)
  /\ (INR (List.length (asteroids e)) < maxAsteroids (config e) ->
      active (bossSystem e) = false ->
      exists a,
        e' = set_asteroids e (asteroids e ++ [a])
        /\ 100 <= Vector2D.x (asteroid_pos a) <= width e - 100
        /\ Vector2D.y (asteroid_pos a) = -50
        /\ Asteroid.isBoss a = false
        /\ Asteroid.health a
           = Asteroid.sizeMap (Asteroid.size a)
             * (1 + (IZR (wave e) - 1) * 0.1)
        /\ Asteroid.maxHealth a = Asteroid.health a
        /\ Asteroid.damage a = Asteroid.health a / 2).
Proof.
  intros Hs Hw e'; subst e'; unfold spawnAsteroid; split.
  - intros [Hfull | Hboss].
    + rewrite (proj2 (Rleb_true _ _) Hfull); reflexivity.
    + rewrite Hboss; destruct (_ >=? _); reflexivity.
  - intros Hroom Hboss.
    rewrite (proj2 (Rleb_false _ _) Hroom), Hboss.
    rewrite bind_fst; cbn [ret fst]; unfold push.
    exists (fst (newAsteroid e s)); split; [reflexivity|].
    now apply newAsteroid_bounds.
Qed.

End EngineSpawning.

Section EngineExperience.
Import GameEngine.

Lemma autoUpgrade_levels (e : t) (s : Stream) :
  let e' := fst (autoUpgrade e s) in
  level (upgradeSystem e') = level (upgradeSystem e)
  /\ skillPoints (upgradeSystem e') = skillPoints (upgradeSystem e).
Proof.
  unfold autoUpgrade; rewrite bind_fst.
  destruct (nth_error _ _) as [[]|]; cbn; split; reflexivity.
Qed.

Lemma levelUps_levels (fuel : nat) :
  forall (e : t) (s : Stream),
    1 <= experienceToNext (upgradeSystem e) ->
    let e' := fst (levelUps fuel e s) in
    (level (upgradeSystem e) <= level (upgradeSystem e'))%nat
    /\ (level (upgradeSystem e') + skillPoints (upgradeSystem e)
        = level (upgradeSystem e) + skillPoints (upgradeSystem e'))%nat
    /\ 1 <= experienceToNext (upgradeSystem e')
    /\ (experience (upgradeSystem e) < experienceToNext (upgradeSystem e) ->
        upgradeSystem e' = upgradeSystem e).
Proof.
  induction fuel as [|fuel IH]; intros e s Hn; cbn [levelUps].
  - cbn; repeat split; auto.
  - lazy zeta.
    destruct (experience (upgradeSystem e) >=? experienceToNext (upgradeSystem e))
      eqn:E; cmp_facts; [|cbn; repeat split; auto].
    rewrite bind_fst.
    match goal with
    | |- context [autoUpgrade ?x s] =>
        pose proof (autoUpgrade_levels x s) as HL;
        pose proof (autoUpgrade_experience x s) as HX;
        lazy zeta in HL, HX;
        destruct HL as [El Es]; destruct HX as [Ex En];
        set (e1 := fst (autoUpgrade x s)) in *;
        set (s1 := snd (autoUpgrade x s))
    end.
    cbn in El, Es, Ex, En; clearbody e1 s1.
    assert (Hn1 : 1 <= experienceToNext (upgradeSystem e1)).
    { rewrite En; apply Rle_trans with (Math_floor 1).
      - change 1 with (IZR 1) at 2; rewrite Math_floor_IZR; lra.
      - apply Math_floor_mono; lra. }
    destruct (IH e1 s1 Hn1) as (Hl & Hs & Hn' & _).
    cbn zeta in *.
    split; [lia|]. split; [lia|]. split; [exact Hn'|].
    intros Hlt; lra.
Qed.

(** X27.  [addExperience] always leaves the player below the threshold of
    the next level (with a threshold of at least 1, as it is from the
    start), so its level-up loop has run to its end.  The level never
    goes down, every level gained brings one skill point, the threshold
    stays at least 1, and an amount that does not reach the threshold is
    simply added. *)
Theorem addExperience_levels (e : t) (amount : R) (s : Stream) :
  1 <= experienceToNext (upgradeSystem e) ->
  let e' := fst (addExperience e amount s) in
  experience (upgradeSystem e') < experienceToNext (upgradeSystem e')
  /\ (level (upgradeSystem e) <= level (upgradeSystem e'))%nat
  /\ (level (upgradeSystem e') + skillPoints (upgradeSystem e)
      = level (upgradeSystem e) + skillPoints (upgradeSystem e'))%nat
  /\ 1 <= experienceToNext (upgradeSystem e')
  /\ (experience (upgradeSystem e) + amount
      < experienceToNext (upgradeSystem e) ->
      level (upgradeSystem e') = level (upgradeSystem e)
      /\ experience (upgradeSystem e')
         = experience (upgradeSystem e) + amount).
Proof.
  intros Hn e'.
  split; [now apply levelUps_enough_fuel|].
  subst e'; unfold addExperience; lazy zeta.
  match goal with
  | |- context [levelUps ?f ?x s] =>
      destruct (levelUps_levels f x s Hn) as (Hl & Hs & Hn' & Hsame);
      set (e' := fst (levelUps f x s)) in *
  end.
  cbn in Hl, Hs, Hsame.
  split; [exact Hl|]. split; [exact Hs|]. split; [exact Hn'|].
  intros Hlt; rewrite (Hsame Hlt); split; reflexivity.
Qed.

End EngineExperience.

(** ** GameEngine: nearest asteroid, current lane *)

Section EngineScans.
Import GameEngine.

(** The scan of [findNearestAsteroid] returns an element at least as near
    as the best so far and as every element it has seen. *)
Lemma nearestFrom_spec (position : Vec) (l : list Asteroid.t) :
  forall best : option (Asteroid.t * R),
    match nearestFrom position l best with
    | None => l = [] /\ best = None
    | Some (a, d) =>
        (In a l /\ d = Vector2D.distance position (asteroid_pos a)
         \/ best = Some (a, d))
        /\ (forall b, In b l ->
              d <= Vector2D.distance position (asteroid_pos b))
        /\ (forall b db, best = Some (b, db) -> d <= db)
    end.
Proof.
  induction l as [|a l IH]; intros best; cbn [nearestFrom].
  - destruct best as [[b db]|]; [|auto].
    split; [right; reflexivity|].
    split; [intros ? []|].
    intros b' db' E; inversion E; subst; lra.
  - lazy zeta.
    set (da := Vector2D.distance position (asteroid_pos a)).
    destruct best as [[b db]|].
    + destruct (da <? db) eqn:E; cmp_facts.
      * specialize (IH (Some (a, da))).
        destruct (nearestFrom position l (Some (a, da))) as [[c dc]|];
          [|destruct IH as [_ IH]; discriminate].
        destruct IH as (Hin & Hall & Hbest).
        pose proof (Hbest a da eq_refl) as Hle.
        split; [|split].
        -- left; destruct Hin as [[Hin Hd] | Hin].
           ++ split; [right; exact Hin | exact Hd].
           ++ inversion Hin; subst; split; [left; reflexivity | reflexivity].
        -- intros b' [<- | Hb']; [exact Hle | now apply Hall].
        -- intros b' db' Eb; inversion Eb; subst; lra.
      * specialize (IH (Some (b, db))).
        destruct (nearestFrom position l (Some (b, db))) as [[c dc]|];
          [|destruct IH as [_ IH]; discriminate].
        destruct IH as (Hin & Hall & Hbest).
        pose proof (Hbest b db eq_refl) as Hle.
        split; [|split].
        -- destruct Hin as [[Hin Hd] | Hin].
           ++ left; split; [right; exact Hin | exact Hd].
           ++ right; exact Hin.
        -- intros b' [<- | Hb']; [fold da; lra | now apply Hall].
        -- intros b' db' Eb; inversion Eb; subst; exact Hle.
    + specialize (IH (Some (a, da))).
      destruct (nearestFrom position l (Some (a, da))) as [[c dc]|];
        [|destruct IH as [_ IH]; discriminate].
      destruct IH as (Hin & Hall & Hbest).
      pose proof (Hbest a da eq_refl) as Hle.
      split; [|split].
      * left; destruct Hin as [[Hin Hd] | Hin].
        -- split; [right; exact Hin | exact Hd].
        -- inversion Hin; subst; split; [left; reflexivity | reflexivity].
      * intros b' [<- | Hb']; [exact Hle | now apply Hall].
      * intros b' db' Eb; discriminate.
Qed.

(** X28.  [findNearestAsteroid] returns nothing exactly when the field is
    empty; otherwise it returns an asteroid of the field that is at least
    as close to the given position as every other one. *)
Theorem findNearestAsteroid_nearest (e : t) (position : Vec) :
  (findNearestAsteroid e position = None <-> asteroids e = [])
  /\ (forall a, findNearestAsteroid e position = Some a ->
      In a (asteroids e)
      /\ forall b, In b (asteroids e) ->
           Vector2D.distance position (asteroid_pos a)
           <= Vector2D.distance position (asteroid_pos b)).
Proof.
  unfold findNearestAsteroid.
  pose proof (nearestFrom_spec position (asteroids e) None) as Hspec.
  destruct (nearestFrom position (asteroids e) None) as [[a d]|];
    cbn [option_map fst].
  - destruct Hspec as (Hin & Hall & _).
    destruct Hin as [[Hin Hd] | Hin]; [|discriminate].
    split.
    + split; [discriminate|].
      intros E; rewrite E in Hin; destruct Hin.
    + intros a' Ea; inversion Ea; subst a'.
      split; [exact Hin|]. intros b Hb; rewrite <- Hd; now apply Hall.
  - destruct Hspec as [Hnil _]; split; [tauto | discriminate].
Qed.

(** The scan of [getCurrentLane], started at index [i] with a best lane
    [k] at distance [m]. *)
Lemma closestFrom_spec (playerX : R) (ls : list R) :
  forall (i k : nat) (m : R),
    let r := closestFrom playerX ls i k (Some m) in
    (r = k /\ (forall j, (j < List.length ls)%nat ->
                 m <= Rabs (playerX - nth j ls 0))
     \/ (exists j, (j < List.length ls)%nat /\ r = (i + j)%nat
           /\ Rabs (playerX - nth j ls 0) < m
           /\ (forall j', (j' < List.length ls)%nat ->
                 Rabs (playerX - nth j ls 0)
                 <= Rabs (playerX - nth j' ls 0))
           /\ (forall j', (j' < j)%nat ->
                 Rabs (playerX - nth j ls 0)
                 < Rabs (playerX - nth j' ls 0)))).
Proof.
  induction ls as [|x ls IH]; intros i k m; cbn [closestFrom].
  - left; split; [reflexivity|]; cbn; intros j Hj; lia.
  - lazy zeta; set (d := Rabs (playerX - x)).
    destruct (d <? m) eqn:E; cmp_facts.
    + destruct (IH (S i) i d) as [[Hr Hall] | (j & Hj & Hr & Hlt & Hmin & Hfirst)];
        cbn zeta in *.
      * right; exists 0%nat; cbn [List.length nth].
        split; [lia|]. split; [rewrite Hr; lia|]. split; [exact E|].
        split.
        -- intros [|j'] Hj'; [apply Rle_refl|].
           apply Hall; cbn in Hj'; lia.
        -- intros j' Hj'; lia.
      * right; exists (S j); cbn [List.length nth].
        split; [lia|]. split; [rewrite Hr; lia|].
        split; [fold d in Hlt |- *; lra|]. split.
        -- intros [|j'] Hj'; [fold d; lra|].
           apply Hmin; cbn in Hj'; lia.
        -- intros [|j'] Hj'; [fold d; exact Hlt|].
           apply Hfirst; lia.
    + destruct (IH (S i) k m) as [[Hr Hall] | (j & Hj & Hr & Hlt & Hmin & Hfirst)];
        cbn zeta in *.
      * left; split; [exact Hr|].
        intros [|j'] Hj'; cbn [nth]; [fold d; exact E|].
        apply Hall; cbn in Hj'; lia.
      * right; exists (S j); cbn [List.length nth].
        split; [lia|]. split; [rewrite Hr; lia|].
        split; [exact Hlt|]. split.
        -- intros [|j'] Hj'; [fold d; lra|].
           apply Hmin; cbn in Hj'; lia.
        -- intros [|j'] Hj'; [fold d; lra|].
           apply Hfirst; lia.
Qed.

(** X29.  [getCurrentLane] returns the index of the lane whose centre is
    closest to the ship: no lane is closer, and of several equally close
    lanes it is the leftmost in the array.  Without lanes the answer is
    0. *)
Theorem getCurrentLane_closest (ls : list R) (e : t) :
  let k := getCurrentLane ls e in
  let x := Vector2D.x (player_pos e) in
  (ls = [] -> k = 0%nat)
  /\ (ls <> [] ->
      (k < List.length ls)%nat
      /\ (forall j, (j < List.length ls)%nat ->
            Rabs (x - nth k ls 0) <= Rabs (x - nth j ls 0))
      /\ (forall j, (j < k)%nat ->
            Rabs (x - nth k ls 0) < Rabs (x - nth j ls 0))).
Proof.
  intros k x; subst k; unfold getCurrentLane; lazy zeta; fold x.
  split; [intros ->; reflexivity|].
  intros Hne; destruct ls as [|l0 ls]; [contradiction|].
  cbn [closestFrom]; lazy zeta.
  destruct (closestFrom_spec x ls 1 0 (Rabs (x - l0)))
    as [[Hr Hall] | (j & Hj & Hr & Hlt & Hmin & Hfirst)]; cbn zeta in *.
  - rewrite Hr; cbn [List.length nth].
    split; [lia|]. split.
    + intros [|j] Hj; [apply Rle_refl|]. apply Hall; lia.
    + intros j Hj; lia.
  - rewrite Hr; cbn [List.length nth Nat.add].
    split; [lia|]. split.
    + intros [|j'] Hj'; [lra|]. apply Hmin; lia.
    + intros [|j'] Hj'; [exact Hlt|]. apply Hfirst; lia.
Qed.

End EngineScans.

(** ** SpaceLanesGame: resizing the canvas *)

Section GameResize.
Import SpaceLanesGame.

Lemma laneGuides_length (w : R) (st : Settings) :
  List.length (laneGuides w st) = laneCount st.
Proof. unfold laneGuides; lazy zeta; now rewrite length_map, length_seq. Qed.

Lemma laneGuides_nth (w : R) (st : Settings) (i : nat) :
  (i < laneCount st)%nat ->
  nth i (laneGuides w st) 0
  = lanePadding st
    + (w - lanePadding st * 2) / (INR (laneCount st) - 1) * INR i.
Proof.
  intros Hi; unfold laneGuides; lazy zeta.
  rewrite (nth_indep _ 0
             (lanePadding st
              + (w - lanePadding st * 2) / (INR (laneCount st) - 1) * INR 0))
    by (now rewrite length_map, length_seq).
  rewrite (map_nth (fun i => lanePadding st
              + (w - lanePadding st * 2) / (INR (laneCount st) - 1) * INR i)).
  now rewrite seq_nth.
Qed.

(** X30.  After [handleResize] the engine has the size of the container
    and there is one lane guide per lane; with two lanes or more the
    guides run evenly from the padding to the width less the padding.  In
    lane mode the ship is put on the line 100 above the bottom, and on a
    canvas at least 100 wide its x is clamped into [50, width - 50]. *)
Theorem handleResize_layout (g : t) (w h : R) :
  let g' := handleResize g w h in
  let p := GameEngine.player_pos (engine g') in
  GameEngine.width (engine g') = w
  /\ GameEngine.height (engine g') = h
  /\ width g' = w /\ height g' = h
  /\ List.length (lanes g') = laneCount (settings g)
  /\ ((2 <= laneCount (settings g))%nat ->
      nth 0 (lanes g') 0 = lanePadding (settings g)
      /\ nth (laneCount (settings g) - 1) (lanes g') 0
         = w - lanePadding (settings g)
      /\ forall i, (S i < laneCount (settings g))%nat ->
           nth (S i) (lanes g') 0 - nth i (lanes g') 0
           = (w - lanePadding (settings g) * 2)
             / (INR (laneCount (settings g)) - 1))
  /\ (GameEngine.mode (GameEngine.config (engine g))
      = GameEngine.lane_shooter ->
      GameEngine.fixedPlayerY (GameEngine.config (engine g'))
      = Some (h - 100)
      /\ Vector2D.y p = h - 100
      /\ (100 <= w -> 50 <= Vector2D.x p <= w - 50)).
Proof.
  intros g' p; subst g' p.
  assert (Hlanes : lanes (handleResize g w h) = laneGuides w (settings g))
    by reflexivity.
  assert (Hw : GameEngine.width (engine (handleResize g w h)) = w).
  { unfold handleResize; lazy zeta.
    destruct (engine g) as []; cbn.
    match goal with |- context [GameEngine.mode ?c] =>
      destruct (GameEngine.mode c) end; reflexivity. }
  assert (Hh : GameEngine.height (engine (handleResize g w h)) = h).
  { unfold handleResize; lazy zeta.
    destruct (engine g) as []; cbn.
    match goal with |- context [GameEngine.mode ?c] =>
      destruct (GameEngine.mode c) end; reflexivity. }
  split; [exact Hw|]. split; [exact Hh|].
  split; [reflexivity|]. split; [reflexivity|].
  rewrite Hlanes.
  split; [apply laneGuides_length|]. split.
  - intros Hn.
    assert (HN : 2 <= INR (laneCount (settings g)))
      by (change 2 with (INR 2); apply le_INR; exact Hn).
    rewrite !laneGuides_nth by lia.
    split; [cbn [INR]; ring|]. split.
    + rewrite minus_INR by lia. cbn [INR]. field. lra.
    + intros i Hi. rewrite !laneGuides_nth by lia.
      rewrite S_INR. field. lra.
  - intros Hm.
    unfold handleResize; lazy zeta.
    destruct (engine g) as []; cbn in Hm |- *.
    match goal with |- context [GameEngine.mode ?c] =>
      destruct c; cbn in Hm |- * end.
    rewrite Hm; cbn.
    split; [reflexivity|]. split; [reflexivity|].
    intros H100.
    match goal with |- _ <= Rmax _ (Rmin _ ?x) <= _ =>
      generalize x; intros x0 end.
    unfold Rmax, Rmin.
    repeat match goal with |- context [Rle_dec ?a ?b] =>
      destruct (Rle_dec a b) end; lra.
Qed.

End GameResize.

(** ** Concrete instances of the properties above *)

(** The vector (30, 40), of length 50, capped at 10. *)
Lemma limit_caps_length_long_vector :
  0 <= 10
  /\ Vector2D.magnitude (Vector2D.limit (Vector2D.mk 30 40) 10) <= 10.
Proof.
  assert (H0 : 0 <= 10) by lra.
  split; [exact H0|].
  exact (proj1 (limit_caps_length (Vector2D.mk 30 40) 10 H0)).
Defined.

(** Two pushes on a body of mass 2, then a step of 100 ms. *)
Lemma force_acts_one_step_two_pushes :
  let b := PhysicsBody.new 0 0 2 in
  PhysicsBody.isStatic b = false
  /\ PhysicsBody.force
       (PhysicsBody.update
          (PhysicsBody.applyForce
             (PhysicsBody.applyForce b (Vector2D.mk 4 0)) (Vector2D.mk 0 2))
          0.1)
     = Vector2D.mk 0 0.
Proof.
  intros b.
  assert (Hs : PhysicsBody.isStatic b = false) by reflexivity.
  split; [exact Hs|].
  destruct (force_acts_one_step b (Vector2D.mk 4 0) (Vector2D.mk 0 2)
                                0.1 0.1 Hs)
    as (_ & _ & Hf & _).
  exact Hf.
Defined.

(** A body that has left an 800 x 600 field on the left. *)
Lemma bounceOffBounds_inside_left_edge :
  let body := PhysicsBody.set_velocity (PhysicsBody.new (-5) 300 1)
                                       (Vector2D.mk (-20) 0) in
  (40 <= 800 /\ 50 <= 600)
  /\ CollisionSystem.isInBounds
       (PhysicsBody.position
          (CollisionSystem.bounceOffBounds body 40 50 800 600 0.8))
       40 50 800 600
     = true.
Proof.
  intros body.
  assert (Hw : 40 <= 800) by lra.
  assert (Hh : 50 <= 600) by lra.
  split; [split; assumption|].
  exact (proj1 (bounceOffBounds_inside body 40 50 800 600 0.8 Hw Hh)).
Defined.

(** A position 100 to the left of an 800 x 600 field. *)
Lemma wrapAround_range_left_of_field :
  let p := CollisionSystem.wrapAround (Vector2D.mk (-100) 300) 40 50 800 600 in
  (0 <= 40 /\ 0 <= 50 /\ 0 <= 800 /\ 0 <= 600)
  /\ - 40 / 2 <= Vector2D.x p <= 800 + 40 / 2.
Proof.
  intros p.
  assert (H1 : 0 <= 40) by lra.
  assert (H2 : 0 <= 50) by lra.
  assert (H3 : 0 <= 800) by lra.
  assert (H4 : 0 <= 600) by lra.
  split; [repeat split; assumption|].
  exact (proj1 (proj1 (wrapAround_range (Vector2D.mk (-100) 300)
                                        40 50 800 600 H1 H2 H3 H4))).
Defined.

(** A new ship with the default settings, hit for 30. *)
Lemma health_stays_in_range_new_ship :
  let s := Spaceship.new 0 0
             (Spaceship.mkConfig None None None None None None None None
                                 None) in
  healthOk s
  /\ healthOk (fst (Spaceship.takeDamage s 30)).
Proof.
  intros s.
  assert (Hok : healthOk s) by (unfold healthOk; cbn; lra).
  assert (Ha : 0 <= 30) by lra.
  split; [exact Hok|].
  exact (proj1 (proj1 (health_stays_in_range s 30 0.1 Hok Ha))).
Defined.

(** A new ship with the default settings, over a frame of 100 ms. *)
Lemma shield_stays_in_range_new_ship :
  let s := Spaceship.new 0 0
             (Spaceship.mkConfig None None None None None None None None
                                 None) in
  shieldOk s
  /\ shieldOk (Spaceship.update s 0.1).
Proof.
  intros s.
  assert (Hok : shieldOk s).
  { unfold shieldOk; cbn. split; [lra | discriminate]. }
  assert (Ha : 0 <= 30) by lra.
  assert (Hdt : 0 <= 0.1) by lra.
  assert (Hr : 0 <= Spaceship.regenRate (Spaceship.shield s)) by (cbn; lra).
  assert (Hd : 0 <= Spaceship.depletionRate (Spaceship.shield s))
    by (cbn; lra).
  split; [exact Hok|].
  exact (proj1 (shield_stays_in_range s 30 0.1 Hok Ha Hdt Hr Hd)).
Defined.

(** The empty trail of a new ship. *)
Lemma trail_stays_bounded_new_ship :
  let s := Spaceship.new 0 0
             (Spaceship.mkConfig None None None None None None None None
                                 None) in
  (List.length (Spaceship.trail s) <= Spaceship.maxTrailLength s)%nat
  /\ (List.length (Spaceship.trail (Spaceship.update s 0.1))
      <= Spaceship.maxTrailLength (Spaceship.update s 0.1))%nat.
Proof.
  intros s.
  assert (Hl : (List.length (Spaceship.trail s)
                <= Spaceship.maxTrailLength s)%nat) by (cbn; lia).
  split; [exact Hl|].
  exact (proj1 (trail_stays_bounded s 0.1 Hl)).
Defined.

(** A new ship with the default top speed. *)
Lemma speed_stays_capped_new_ship :
  let s := Spaceship.new 0 0
             (Spaceship.mkConfig None None None None None None None None
                                 None) in
  0 <= Spaceship.maxSpeed s
  /\ PhysicsBody.getSpeed (Spaceship.body (Spaceship.update s 0.1))
     <= Spaceship.maxSpeed s.
Proof.
  intros s.
  assert (Hm : 0 <= Spaceship.maxSpeed s) by (cbn; lra).
  split; [exact Hm|].
  exact (proj1 (speed_stays_capped s 0.1 Hm)).
Defined.

(** A large rock built on the draws that are all one half. *)
Lemma new_asteroid_wellformed_large_rock :
  let draws : Stream := fun _ => 1 / 2 in
  unit_draws draws
  /\ Asteroid.radius (fst (Asteroid.new 100 (-50) Asteroid.large None draws))
     = Asteroid.sizeMap Asteroid.large.
Proof.
  intros draws.
  assert (Hd : unit_draws draws) by (intros n; unfold draws; lra).
  split; [exact Hd|].
  destruct (new_asteroid_wellformed 100 (-50) Asteroid.large None draws Hd)
    as (_ & Hr & _).
  exact Hr.
Defined.

(** A started game paused, then three frames. *)
Lemma pause_freezes_started_game :
  let e := GameEngine.start
             (GameEngine.new 800 600 GameEngine.defaultConfig) in
  GameEngine.state e = GameEngine.playing
  /\ GameEngine.resume
       (fst (GameEngine.run (GameEngine.pause e)
               (map GameEngine.Update [0.016; 0.016; 0.05])
               (fun _ => 1 / 2)))
     = e.
Proof.
  intros e.
  assert (Hp : GameEngine.state e = GameEngine.playing) by reflexivity.
  split; [exact Hp|].
  destruct (pause_freezes e [0.016; 0.016; 0.05] (fun _ => 1 / 2) Hp)
    as (_ & Hr & _).
  exact Hr.
Defined.

(** The empty field of a started game on an 800 x 600 canvas. *)
Lemma spawnAsteroid_bounds_started_game :
  let e := GameEngine.start
             (GameEngine.new 800 600 GameEngine.defaultConfig) in
  let draws : Stream := fun _ => 1 / 2 in
  (unit_draws draws /\ 200 <= GameEngine.width e)
  /\ List.length (GameEngine.asteroids
                    (fst (GameEngine.spawnAsteroid e draws)))
     = 1%nat.
Proof.
  intros e draws.
  assert (Hd : unit_draws draws) by (intros n; unfold draws; lra).
  assert (Hw : 200 <= GameEngine.width e) by (cbn; lra).
  split; [split; assumption|].
  destruct (spawnAsteroid_bounds e draws Hd Hw) as (_ & Hadd).
  destruct Hadd as (a & Ha & _).
  - cbn; lra.
  - reflexivity.
  - rewrite Ha; reflexivity.
Defined.

(** 30 points of experience in a new game, whose first threshold is
    100. *)
Lemma addExperience_levels_new_game :
  let e := GameEngine.new 800 600 GameEngine.defaultConfig in
  1 <= GameEngine.experienceToNext (GameEngine.upgradeSystem e)
  /\ GameEngine.level
       (GameEngine.upgradeSystem
          (fst (GameEngine.addExperience e 30 (fun _ => 1 / 2))))
     = GameEngine.level (GameEngine.upgradeSystem e).
Proof.
  intros e.
  assert (Ht : 1 <= GameEngine.experienceToNext (GameEngine.upgradeSystem e))
    by (cbn; lra).
  split; [exact Ht|].
  destruct (addExperience_levels e 30 (fun _ => 1 / 2) Ht)
    as (_ & _ & _ & _ & Hsmall).
  apply Hsmall; cbn; lra.
Defined.
